(** * Online library synthetic event stream generator

    A shallow embedding of [src/event_stream_generator.py] and the
    properties its specification states about it.

    The script is a sequential program over four pieces of hidden state:
    numpy's global generator (seeded by [np.random.seed]), Faker's
    generator (seeded by [Faker.seed]), the operating system's entropy
    pool (read by [uuid.uuid4]) and the output file.  The embedding
    threads them explicitly through a state-and-exception monad; an
    unbounded [while] loop takes a fuel argument and reports [Timeout]
    when the fuel is used up. *)

From Stdlib Require Import ZArith NArith QArith Qabs List String Ascii Bool Lia.
From Stdlib Require Import Permutation DecimalString DecimalPos DecimalZ.
From Stdlib Require Import PrimFloat FloatOps SpecFloat.
Import ListNotations.

Local Open Scope string_scope.
Local Open Scope Z_scope.

(* ===================================================================== *)
(** ** The world the script runs in *)
(* ===================================================================== *)

(** What the script cannot choose: the streams the two seedable generators
    produce from a seed, the bytes the operating system hands to
    [os.urandom], the wall clock (microseconds since the epoch, read once
    by [_now_utc]) and whatever file is already at the output path. *)
Record Env := {
  mt19937     : Z -> N -> N;
  faker_text  : Z -> N -> string;
  os_entropy  : N -> N;
  wall_clock  : Z;
  existing_file : option string
}.

(** The mutable state.  Each generator is a stream with a read position. *)
Record World := {
  np_tape : N -> N;       np_pos : N;
  fk_tape : N -> string;  fk_pos : N;
  ur_tape : N -> N;       ur_pos : N;
  clock   : Z;
  out_file : option string
}.

Definition with_np (w : World) (t : N -> N) (p : N) : World :=
  {| np_tape := t; np_pos := p;
     fk_tape := fk_tape w; fk_pos := fk_pos w;
     ur_tape := ur_tape w; ur_pos := ur_pos w;
     clock := clock w; out_file := out_file w |}.

Definition with_fk (w : World) (t : N -> string) (p : N) : World :=
  {| np_tape := np_tape w; np_pos := np_pos w;
     fk_tape := t; fk_pos := p;
     ur_tape := ur_tape w; ur_pos := ur_pos w;
     clock := clock w; out_file := out_file w |}.

Definition with_ur_pos (w : World) (p : N) : World :=
  {| np_tape := np_tape w; np_pos := np_pos w;
     fk_tape := fk_tape w; fk_pos := fk_pos w;
     ur_tape := ur_tape w; ur_pos := p;
     clock := clock w; out_file := out_file w |}.

Definition with_file (w : World) (f : option string) : World :=
  {| np_tape := np_tape w; np_pos := np_pos w;
     fk_tape := fk_tape w; fk_pos := fk_pos w;
     ur_tape := ur_tape w; ur_pos := ur_pos w;
     clock := clock w; out_file := f |}.

(** The process before any statement of the script has run. *)
Definition boot (env : Env) : World :=
  {| np_tape := fun _ => 0%N; np_pos := 0%N;
     fk_tape := fun _ => ""; fk_pos := 0%N;
     ur_tape := os_entropy env; ur_pos := 0%N;
     clock := wall_clock env; out_file := existing_file env |}.

(* ===================================================================== *)
(** ** The monad: state, Python exceptions, divergence *)
(* ===================================================================== *)

Inductive Exn :=
| ValueError (msg : string)
| IndexError
| ZeroDivisionError
| OverflowError
| FileNotFoundError.

Inductive Outcome (A : Type) :=
| Done (a : A) (w : World)
| Raise (e : Exn) (w : World)
| Timeout (w : World).

Arguments Done {A} a w.
Arguments Raise {A} e w.
Arguments Timeout {A} w.

Definition M (A : Type) := World -> Outcome A.

Definition ret {A} (a : A) : M A := fun w => Done a w.

Definition bind {A B} (m : M A) (k : A -> M B) : M B :=
  fun w => match m w with
           | Done a w' => k a w'
           | Raise e w' => Raise e w'
           | Timeout w' => Timeout w'
           end.

Definition raise {A} (e : Exn) : M A := fun w => Raise e w.
Definition timeout {A} : M A := fun w => Timeout w.

Declare Scope py_scope.
Delimit Scope py_scope with py.
Notation "x <- m ;; k" := (bind m (fun x => k))
  (at level 61, m at next level, right associativity) : py_scope.
Notation "' pat <- m ;; k" := (bind m (fun x => match x with pat => k end))
  (at level 61, pat pattern, m at next level, right associativity) : py_scope.
Notation "m ;;; k" := (bind m (fun _ => k))
  (at level 61, right associativity) : py_scope.
Local Open Scope py_scope.

(** [for x in xs: s = body(s, x)] *)
Fixpoint for_each {A S} (xs : list A) (body : S -> A -> M S) (s : S) : M S :=
  match xs with
  | [] => ret s
  | x :: xs' => s' <- body s x ;; for_each xs' body s'
  end.

Definition is_done {A} (o : Outcome A) : bool :=
  match o with Done _ _ => true | _ => false end.
Definition is_raise {A} (o : Outcome A) : bool :=
  match o with Raise _ _ => true | _ => false end.
Definition is_timeout {A} (o : Outcome A) : bool :=
  match o with Timeout _ => true | _ => false end.

(* ===================================================================== *)
(** ** Python and numpy primitives *)
(* ===================================================================== *)

(** The next raw word of numpy's generator.  Every sampler below reads raw
    words and maps them into the support of its distribution; which word
    comes next is the stream's business, so a property proved for every
    stream holds for every sequence of draws the real sampler can make. *)
Definition np_next : M N :=
  fun w => Done (np_tape w (np_pos w)) (with_np w (np_tape w) (N.succ (np_pos w))).

(** [np.random.seed(s)] and [Faker.seed(s)] *)
Definition np_random_seed (env : Env) (s : Z) : M unit :=
  fun w => Done tt (with_np w (mt19937 env s) 0%N).
Definition Faker_seed (env : Env) (s : Z) : M unit :=
  fun w => Done tt (with_fk w (faker_text env s) 0%N).

(** [np.random.zipf(a)]: a rank in 1, 2, 3, ...; [a <= 1] is refused. *)
Definition np_zipf (a : Q) : M Z :=
  if Qle_bool a 1 then raise (ValueError "a <= 1")
  else raw <- np_next ;; ret (1 + Z.of_N raw).

(** [np.random.geometric(p)]: trials to first success, 1, 2, 3, ... *)
Definition np_geometric (p : Q) : M Z :=
  if Qle_bool p 0 || negb (Qle_bool p 1) then raise (ValueError "p out of range")
  else raw <- np_next ;; ret (1 + Z.of_N raw).

(** [np.random.randint(low, high)]: an integer in [low, high). *)
Definition np_randint (low high : Z) : M Z :=
  if high <=? low then raise (ValueError "low >= high")
  else raw <- np_next ;; ret (low + Z.of_N raw mod (high - low)).

(** [np.random.gamma(shape, scale)]: a non-negative real. *)
Definition np_gamma (shape scale : Q) : M Q :=
  raw <- np_next ;; ret (Z.of_N raw # 1024).

(** [np.random.poisson(lam)]: 0, 1, 2, ... *)
Definition np_poisson (lam : Z) : M Z :=
  raw <- np_next ;; ret (Z.of_N raw).

(** [np.clip] on a real and on an integer, and [int()] of a real. *)
Definition np_clip_Q (x lo hi : Q) : Q :=
  if Qle_bool x lo then lo else if Qle_bool hi x then hi else x.
Definition np_clip (x lo hi : Z) : Z := Z.min (Z.max x lo) hi.
Definition py_int_Q (x : Q) : Z := Z.quot (Qnum x) (Z.pos (Qden x)).

(** [x[i]] on a numpy array: negative indices count from the end. *)
Definition np_index {A} (x : list A) (i : Z) : M A :=
  let n := Z.of_nat (List.length x) in
  let j := if i <? 0 then i + n else i in
  if (j <? 0) || (n <=? j) then raise IndexError
  else match nth_error x (Z.to_nat j) with
       | Some v => ret v
       | None => raise IndexError
       end.

(** [np.arange(lo, hi)] *)
Definition np_arange (lo hi : Z) : list Z :=
  map (fun i => lo + Z.of_nat i) (seq 0 (Z.to_nat (hi - lo))).

(** In-place update [x[i] = v]. *)
Fixpoint upd {A} (i : nat) (v : A) (x : list A) : list A :=
  match x, i with
  | [], _ => []
  | _ :: t, O => v :: t
  | h :: t, S i' => h :: upd i' v t
  end.

Definition swap {A} (x : list A) (i j : nat) : list A :=
  match nth_error x i, nth_error x j with
  | Some a, Some b => upd i b (upd j a x)
  | _, _ => x
  end.

(** [np.random.permutation(x)]: a copy of [x] shuffled the way numpy's
    [shuffle] does it, [for i in reversed(range(1, n)): j = interval(i);
    x[i], x[j] = x[j], x[i]]. *)
Fixpoint shuffle {A} (i : nat) (x : list A) : M (list A) :=
  match i with
  | O => ret x
  | S i' =>
      raw <- np_next ;;
      shuffle i' (swap x i (N.to_nat raw mod (S i)))
  end.

Definition np_permutation {A} (x : list A) : M (list A) :=
  shuffle (List.length x - 1) x.

(** The checks [np.random.choice] makes on [p], in numpy's order. *)
Definition Qsum (p : list Q) : Q := fold_right Qplus 0%Q p.
Definition choice_atol : Q := 1 # 67108864.

Definition check_probs (pop_size : nat) (p : list Q) : option Exn :=
  if negb (Nat.eqb (List.length p) pop_size) then
    Some (ValueError "'a' and 'p' must have same size")
  else if existsb (fun x => negb (Qle_bool 0 x)) p then
    Some (ValueError "probabilities are not non-negative")
  else if negb (Qle_bool (Qabs (Qsum p - 1)) choice_atol) then
    Some (ValueError "probabilities do not sum to 1")
  else None.

(** One categorical draw out of [a]. *)
Definition choice_draw {A} (a : list A) : M A :=
  raw <- np_next ;;
  match nth_error a (N.to_nat raw mod List.length a) with
  | Some v => ret v
  | None => raise IndexError
  end.

Fixpoint choice_draws {A} (a : list A) (n : nat) : M (list A) :=
  match n with
  | O => ret []
  | S n' => v <- choice_draw a ;; vs <- choice_draws a n' ;; ret (v :: vs)
  end.

Definition choice_guard {A} (a : list A) (p : list Q) : M unit :=
  match a with
  | [] => raise (ValueError "'a' cannot be empty unless no samples are taken")
  | _ => match check_probs (List.length a) p with
         | Some e => raise e
         | None => ret tt
         end
  end.

(** [np.random.choice(a, p=p)] *)
Definition np_choice1 {A} (a : list A) (p : list Q) : M A :=
  choice_guard a p ;;; choice_draw a.

(** [np.random.choice(a, size=size, p=p)] *)
Definition np_choice {A} (a : list A) (size : Z) (p : list Q) : M (list A) :=
  if size <? 0 then raise (ValueError "negative dimensions are not allowed")
  else choice_guard a p ;;; choice_draws a (Z.to_nat size).

(** [np.random.choice(a, size=size, replace=False)]: the first [size]
    entries of a permutation of the population. *)
Definition np_choice_norepl {A} (a : list A) (size : Z) : M (list A) :=
  if size <? 0 then raise (ValueError "negative dimensions are not allowed")
  else if Z.of_nat (List.length a) <? size then
    raise (ValueError "Cannot take a larger sample than population when 'replace=False'")
  else perm <- np_permutation a ;; ret (firstn (Z.to_nat size) perm).

(** [fake.sentence(nb_words=k)]: the next sentence of Faker's stream. *)
Definition fake_sentence (nb_words : Z) : M string :=
  fun w => Done (fk_tape w (fk_pos w)) (with_fk w (fk_tape w) (N.succ (fk_pos w))).

(* ===================================================================== *)
(** ** Text: integers, UUIDs, JSON *)
(* ===================================================================== *)

Definition dquote : ascii := "034"%char.
Definition backslash : ascii := "092"%char.

(** [str(n)] of a Python integer. *)
Definition py_str_int (z : Z) : string := NilZero.string_of_int (Z.to_int z).

Definition hex_digit (d : Z) : ascii :=
  if d <? 10 then ascii_of_N (Z.to_N (48 + d)) else ascii_of_N (Z.to_N (87 + d)).

(** ['%0<width>x' % z] for [0 <= z < 16 ^ width]: one digit for each
    group of four bits. *)
Fixpoint hex_fixed (width : nat) (z : Z) : string :=
  match width with
  | O => ""
  | S k => hex_fixed k (Z.shiftr z 4) ++ String (hex_digit (Z.land z 15)) ""
  end.

(** [uuid.uuid4()]: sixteen bytes of [os.urandom] with the variant and
    version bits forced, then [str()] of the UUID. *)
Definition uuid4_int (raw : N) : Z :=
  let i := Z.land (Z.of_N raw) (Z.ones 128) in
  let i := Z.ldiff i (Z.shiftl 49152 48) in
  let i := Z.lor i (Z.shiftl 32768 48) in
  let i := Z.ldiff i (Z.shiftl 61440 64) in
  Z.lor i (Z.shiftl 4 76).

Definition uuid_str (i : Z) : string :=
  let hex := hex_fixed 32 i in
  substring 0 8 hex ++ "-" ++ substring 8 4 hex ++ "-" ++ substring 12 4 hex
    ++ "-" ++ substring 16 4 hex ++ "-" ++ substring 20 12 hex.

Definition uuid4 : M string :=
  fun w => Done (uuid_str (uuid4_int (ur_tape w (ur_pos w))))
                (with_ur_pos w (N.succ (ur_pos w))).

(** The values [json.dumps] is given here: integers, strings, lists and
    dicts (a dict keeps its insertion order). *)
#[local] Unset Elimination Schemes.
Inductive json :=
| JInt (z : Z)
| JStr (s : string)
| JList (l : list json)
| JObj (kv : list (string * json)).
#[local] Set Elimination Schemes.

(** [json.encoder.py_encode_basestring] (the [ensure_ascii=False] path):
    quote, backslash and control characters are escaped, every other byte
    is copied. *)
Definition escape_char (c : ascii) : string :=
  let n := N_of_ascii c in
  if (n =? 34)%N then String backslash (String dquote "")
  else if (n =? 92)%N then String backslash (String backslash "")
  else if (n =? 10)%N then "\n"
  else if (n =? 13)%N then "\r"
  else if (n =? 9)%N then "\t"
  else if (n =? 8)%N then "\b"
  else if (n =? 12)%N then "\f"
  else if (n <? 32)%N then "\u00" ++ hex_fixed 2 (Z.of_N n)
  else String c "".

Fixpoint escape (s : string) : string :=
  match s with
  | EmptyString => ""
  | String c s' => escape_char c ++ escape s'
  end.

Definition encode_basestring (s : string) : string :=
  String dquote (escape s ++ String dquote "").

(** [json.dumps(v, separators=(",", ":"), ensure_ascii=False)] *)
Fixpoint json_dumps (v : json) : string :=
  match v with
  | JInt z => py_str_int z
  | JStr s => encode_basestring s
  | JList l =>
      "[" ++ match l with
             | [] => ""
             | x :: t =>
                 json_dumps x ++
                 (fix more (t : list json) : string :=
                    match t with
                    | [] => ""
                    | y :: t' => "," ++ json_dumps y ++ more t'
                    end) t
             end ++ "]"
  | JObj kv =>
      "{" ++ match kv with
             | [] => ""
             | (k, x) :: t =>
                 encode_basestring k ++ ":" ++ json_dumps x ++
                 (fix more (t : list (string * json)) : string :=
                    match t with
                    | [] => ""
                    | (k', y) :: t' =>
                        "," ++ encode_basestring k' ++ ":" ++ json_dumps y ++ more t'
                    end) t
             end ++ "}"
  end.

(** ** Reading JSON back

    What a consumer's [json.loads] does on the compact text above: a
    recursive-descent reader over the same value type.  It accepts the
    compact form only (no whitespace) and integers in canonical form. *)

Definition is_digit (c : ascii) : bool :=
  let n := N_of_ascii c in ((48 <=? n) && (n <=? 57))%N.

Fixpoint span_digits (s : string) : string * string :=
  match s with
  | EmptyString => ("", "")
  | String c s' =>
      if is_digit c then let (d, r) := span_digits s' in (String c d, r)
      else ("", s)
  end.

Definition scan_int (s : string) : option (Z * string) :=
  let '(neg, s1) := match s with
                    | String c s' => if (N_of_ascii c =? 45)%N then (true, s') else (false, s)
                    | EmptyString => (false, s)
                    end in
  let '(ds, rest) := span_digits s1 in
  let text := if neg : bool then String "-"%char ds else ds in
  match NilZero.int_of_string text with
  | Some d =>
      let z := Z.of_int d in
      if (py_str_int z =? text)%string then Some (z, rest) else None
  | None => None
  end.

Definition hex_val (c : ascii) : option N :=
  let n := N_of_ascii c in
  if ((48 <=? n) && (n <=? 57))%N then Some (n - 48)%N
  else if ((97 <=? n) && (n <=? 102))%N then Some (n - 87)%N
  else if ((65 <=? n) && (n <=? 70))%N then Some (n - 55)%N
  else None.

(** [\uXXXX] for a code point below 128; the encoder above never emits
    another. *)
Definition unicode_escape (h1 h2 h3 h4 : ascii) : option ascii :=
  match hex_val h1, hex_val h2, hex_val h3, hex_val h4 with
  | Some a, Some b, Some c, Some d =>
      let v := (((a * 16 + b) * 16 + c) * 16 + d)%N in
      if (v <? 128)%N then Some (ascii_of_N v) else None
  | _, _, _, _ => None
  end.

Definition simple_escape (e : ascii) : option ascii :=
  let n := N_of_ascii e in
  if (n =? 34)%N then Some dquote
  else if (n =? 92)%N then Some backslash
  else if (n =? 47)%N then Some "/"%char
  else if (n =? 98)%N then Some "008"%char
  else if (n =? 102)%N then Some "012"%char
  else if (n =? 110)%N then Some "010"%char
  else if (n =? 114)%N then Some "013"%char
  else if (n =? 116)%N then Some "009"%char
  else None.

Definition cons_char (c : ascii) (r : option (string * string)) : option (string * string) :=
  match r with
  | Some (s, rest) => Some (String c s, rest)
  | None => None
  end.

(** The body of a string literal, after its opening quote, up to and
    including the closing quote. *)
Fixpoint scan_string (s : string) : option (string * string) :=
  match s with
  | EmptyString => None
  | String c s' =>
      let n := N_of_ascii c in
      if (n =? 34)%N then Some ("", s')
      else if (n =? 92)%N then
        match s' with
        | EmptyString => None
        | String e s'' =>
            if (N_of_ascii e =? 117)%N then
              match s'' with
              | String h1 (String h2 (String h3 (String h4 rest))) =>
                  match unicode_escape h1 h2 h3 h4 with
                  | Some ch => cons_char ch (scan_string rest)
                  | None => None
                  end
              | _ => None
              end
            else
              match simple_escape e with
              | Some ch => cons_char ch (scan_string s'')
              | None => None
              end
        end
      else if (n <? 32)%N then None
      else cons_char c (scan_string s')
  end.

(** A key and its colon, after the key's opening quote. *)
Definition scan_key (s : string) : option (string * string) :=
  match scan_string s with
  | Some (k, String c r) => if (N_of_ascii c =? 58)%N then Some (k, r) else None
  | _ => None
  end.

Fixpoint parse_value (fuel : nat) (s : string) : option (json * string) :=
  match fuel with
  | O => None
  | S f =>
      match s with
      | EmptyString => None
      | String c s' =>
          let n := N_of_ascii c in
          if (n =? 34)%N then
            match scan_string s' with
            | Some (str, r) => Some (JStr str, r)
            | None => None
            end
          else if (n =? 91)%N then
            match s' with
            | EmptyString => None
            | String c1 r =>
                if (N_of_ascii c1 =? 93)%N then Some (JList [], r)
                else
                  match parse_value f s' with
                  | Some (v, r1) =>
                      match parse_items f r1 with
                      | Some (vs, r2) => Some (JList (v :: vs), r2)
                      | None => None
                      end
                  | None => None
                  end
            end
          else if (n =? 123)%N then
            match s' with
            | EmptyString => None
            | String c1 r =>
                if (N_of_ascii c1 =? 125)%N then Some (JObj [], r)
                else if (N_of_ascii c1 =? 34)%N then
                  match scan_key r with
                  | Some (k, r1) =>
                      match parse_value f r1 with
                      | Some (v, r2) =>
                          match parse_members f r2 with
                          | Some (kvs, r3) => Some (JObj ((k, v) :: kvs), r3)
                          | None => None
                          end
                      | None => None
                      end
                  | None => None
                  end
                else None
            end
          else
            match scan_int s with
            | Some (z, r) => Some (JInt z, r)
            | None => None
            end
      end
  end
with parse_items (fuel : nat) (s : string) : option (list json * string) :=
  match fuel with
  | O => None
  | S f =>
      match s with
      | EmptyString => None
      | String c r =>
          if (N_of_ascii c =? 93)%N then Some ([], r)
          else if (N_of_ascii c =? 44)%N then
            match parse_value f r with
            | Some (v, r1) =>
                match parse_items f r1 with
                | Some (vs, r2) => Some (v :: vs, r2)
                | None => None
                end
            | None => None
            end
          else None
      end
  end
with parse_members (fuel : nat) (s : string) : option (list (string * json) * string) :=
  match fuel with
  | O => None
  | S f =>
      match s with
      | EmptyString => None
      | String c r =>
          if (N_of_ascii c =? 125)%N then Some ([], r)
          else if (N_of_ascii c =? 44)%N then
            match r with
            | EmptyString => None
            | String q r0 =>
                if (N_of_ascii q =? 34)%N then
                  match scan_key r0 with
                  | Some (k, r1) =>
                      match parse_value f r1 with
                      | Some (v, r2) =>
                          match parse_members f r2 with
                          | Some (kvs, r3) => Some ((k, v) :: kvs, r3)
                          | None => None
                          end
                      | None => None
                      end
                  | None => None
                  end
                else None
            end
          else None
      end
  end.

(** [json.loads(s)]: the whole text must be one value. *)
Definition json_loads (s : string) : option json :=
  match parse_value (String.length s) s with
  | Some (v, EmptyString) => Some v
  | _ => None
  end.

(* ===================================================================== *)
(** ** Module-level constants *)
(* ===================================================================== *)

(** The constants at the top of the script that the specification lists
    as configuration. *)
Record Config := {
  TARGET_BYTES : Z;
  USER_POOL_SIZE : Z;
  BOOK_POOL_SIZE : Z;
  EVENT_PROBS : list Q;
  PLATFORM_PROBS : list Q;
  DL_FORMAT_PROBS : list Q;
  DEVICE_OS_PROBS : list Q;
  RATING_PROBS : list Q;
  DEFAULT_CHUNK_ROWS : Z;
  SEED : Z
}.

(** The values the script gives them. *)
Definition default_config : Config := {|
  TARGET_BYTES := 100 * 1024 * 1024;
  USER_POOL_SIZE := 10000;
  BOOK_POOL_SIZE := 5000;
  EVENT_PROBS := [45 # 100; 15 # 100; 5 # 100; 35 # 100]%Q;
  PLATFORM_PROBS := [6 # 10; 4 # 10]%Q;
  DL_FORMAT_PROBS := [5 # 10; 3 # 10; 15 # 100; 5 # 100]%Q;
  DEVICE_OS_PROBS := [35 # 100; 45 # 100; 8 # 100; 9 # 100; 3 # 100]%Q;
  RATING_PROBS := [5 # 100; 10 # 100; 25 # 100; 35 # 100; 25 # 100]%Q;
  DEFAULT_CHUNK_ROWS := 200000;
  SEED := 42
|}.

Definition EVENT_TYPES : list string := ["read_online"; "download"; "review"; "search"].
Definition PLATFORMS : list string := ["web_browser"; "mobile_app"].
Definition DL_FORMATS : list string := ["epub"; "pdf"; "mobi"; "audiobook"].
Definition DEVICE_OSES : list string := ["iOS"; "Android"; "Windows"; "macOS"; "Linux"].
Definition RATINGS : list Z := [1; 2; 3; 4; 5].
Definition SEARCH_VOCAB : list string :=
  ["dystopian"; "sci-fi"; "fantasy"; "mystery"; "romance"; "historical";
   "self-help"; "philosophy"; "classic"; "thriller"; "nonfiction"; "biography";
   "young-adult"; "horror"; "poetry"; "business"; "economics"; "psychology";
   "productivity"; "data-science"; "machine-learning"; "ai"; "programming";
   "python"; "java"; "networks"; "security"; "cooking"; "travel"; "photography";
   "art"; "music"; "health"; "fitness"; "mindfulness"; "education"; "children";
   "graphic-novel"].

Definition GEOM_P : Q := 3 # 10.
Definition MAX_SESSION_LEN : Z := 20.

(** What the module computes once at import time; datetimes are
    microseconds since the epoch. *)
Record Globals := {
  NOW : Z;
  START : Z;
  START_TS : Z;
  END_TS : Z;
  USER_ID_MAP : list Z;
  BOOK_ID_MAP : list Z
}.

Definition usec : Z := 1000000.

Definition _now_utc : M Z := fun w => Done (clock w) w.

(** The integer nearest to [a / b] for [0 < b], a tie going to the even
    one. *)
Definition round_half_even (a b : Z) : Z :=
  let q := a / b in
  match 2 * (a mod b) ?= b with
  | Lt => q
  | Gt => q + 1
  | Eq => if Z.even q then q else q + 1
  end.

(** [int(a / b)] for Python integers [0 < a] and [0 < b].  The true
    division of two integers is correctly rounded: [a / b] is the
    binary64 nearest to the quotient, a mantissa [m] of 53 bits times
    [2 ^ (- s)], where [s] is chosen so that [2 ^ 52 <= a / b * 2 ^ s <
    2 ^ 53] and [m] is that scaled quotient rounded half to even; [int]
    then drops the fraction.  (Quotients outside the normal range of
    binary64 do not arise from a [datetime].) *)
Definition int_truediv_pos (a b : Z) : Z :=
  let s0 := 52 - (Z.log2 a - Z.log2 b) in
  let s := if (if 0 <=? s0 then a * 2 ^ s0 <? 2 ^ 52 * b
               else a <? 2 ^ 52 * (b * 2 ^ (- s0)))
           then s0 + 1 else s0 in
  if 0 <=? s then round_half_even (a * 2 ^ s) b / 2 ^ s
  else round_half_even a (b * 2 ^ (- s)) * 2 ^ (- s).

Definition int_truediv (a b : Z) : Z :=
  if a =? 0 then 0
  else if a <? 0 then - int_truediv_pos (- a) b
  else int_truediv_pos a b.

(** [int(d.timestamp())].  For an aware [datetime], [timestamp()] is
    [(d - epoch).total_seconds()], the count of microseconds divided by
    [10 ** 6] as a float; [int] truncates towards zero.  The float has 53
    bits, so from [2 ^ 34] seconds on a fraction of [.999999] rounds up
    to the next whole second. *)
Definition int_timestamp (d : Z) : Z := int_truediv d usec.

(** [timedelta(days=d)] and [timedelta(seconds=s)] *)
Definition timedelta_days (d : Z) : Z := d * 86400 * usec.
Definition timedelta_seconds (s : Z) : Z := s * usec.

(** Lines 90 to 106 of the script, in order. *)
Definition module_init (cfg : Config) (env : Env) : M Globals :=
  np_random_seed env (SEED cfg) ;;;
  Faker_seed env (SEED cfg) ;;;
  now <- _now_utc ;;
  let start := now - timedelta_days 730 in
  umap <- np_permutation (np_arange 1 (USER_POOL_SIZE cfg + 1)) ;;
  bmap <- np_permutation (np_arange 1 (BOOK_POOL_SIZE cfg + 1)) ;;
  ret {| NOW := now; START := start;
         START_TS := int_timestamp start; END_TS := int_timestamp now;
         USER_ID_MAP := umap; BOOK_ID_MAP := bmap |}.

(* ===================================================================== *)
(** ** The generator *)
(* ===================================================================== *)

(** One row of the batch.  [event_timestamp] is the instant, in whole
    seconds since the epoch, that the row's text
    [strftime("%Y-%m-%dT%H:%M:%SZ")] denotes. *)
Record Event := {
  event_id : string;
  event_timestamp : Z;
  event_type : string;
  user_id : Z;
  book_id : Z;
  session_id : string;
  event_metadata : string
}.

(** [datetime.fromtimestamp(ts, tz=utc)] of a drawn integer second. *)
Definition rand_ts_last_two_years (g : Globals) : M Z :=
  ts <- np_randint (START_TS g) (END_TS g + 1) ;;
  ret (ts * usec).

(** The [while r > max_id] loop of [draw_zipf_id], entered with the rank
    drawn so far. *)
Fixpoint zipf_reject (fuel : nat) (a : Q) (max_id r : Z) : M Z :=
  if r >? max_id then
    match fuel with
    | O => timeout
    | S fuel' => r' <- np_zipf a ;; zipf_reject fuel' a max_id r'
    end
  else ret r.

Definition draw_zipf_id (fuel : nat) (max_id : Z) (a : Q) (mapping : list Z) : M Z :=
  r <- np_zipf a ;;
  r <- zipf_reject fuel a max_id r ;;
  np_index mapping (r - 1).

(** The [while total < n_target] loop of [draw_session_lengths]. *)
Fixpoint session_lengths_loop (fuel : nat) (n_target : Z) (p : Q) (max_len : Z)
    (lengths : list Z) (total : Z) : M (list Z * Z) :=
  if total <? n_target then
    match fuel with
    | O => timeout
    | S fuel' =>
        lenght <- np_geometric p ;;
        let lenght := if lenght >? max_len then max_len else lenght in
        session_lengths_loop fuel' n_target p max_len (lengths ++ [lenght])%list (total + lenght)
    end
  else ret (lengths, total).

Definition draw_session_lengths (fuel : nat) (n_target : Z) (p : Q) (max_len : Z)
  : M (list Z * Z) :=
  session_lengths_loop fuel n_target p max_len [] 0.

(** The [if et == ...] chain that builds [meta_obj]. *)
Definition gen_metadata (cfg : Config) (et : string) : M json :=
  if (et =? "read_online")%string then
    x <- np_gamma 2 20 ;;
    let duration := py_int_Q (np_clip_Q x 1 300) in
    platform <- np_choice1 PLATFORMS (PLATFORM_PROBS cfg) ;;
    ret (JObj [("reading_duration_minutes", JInt duration); ("platform", JStr platform)])
  else if (et =? "download")%string then
    fmt <- np_choice1 DL_FORMATS (DL_FORMAT_PROBS cfg) ;;
    os_name <- np_choice1 DEVICE_OSES (DEVICE_OS_PROBS cfg) ;;
    v1 <- np_randint 1 4 ;;
    v2 <- np_randint 0 10 ;;
    v3 <- np_randint 0 10 ;;
    let app_version := py_str_int v1 ++ "." ++ py_str_int v2 ++ "." ++ py_str_int v3 in
    ret (JObj [("format", JStr fmt); ("device_os", JStr os_name);
               ("app_version", JStr app_version)])
  else if (et =? "review")%string then
    rating <- np_choice1 RATINGS (RATING_PROBS cfg) ;;
    nb_words <- np_randint 8 20 ;;
    review_text <- fake_sentence nb_words ;;
    ret (JObj [("rating", JInt rating); ("review_text", JStr review_text)])
  else
    k <- np_randint 1 4 ;;
    terms <- np_choice_norepl SEARCH_VOCAB k ;;
    n <- np_poisson 12 ;;
    let results_count := np_clip n 0 500 in
    ret (JObj [("search_terms", JList (map JStr terms)); ("results_count", JInt results_count)]).

(** The body of [for et in etypes]: the loop state is the batch built so
    far and the session's timestamp cursor. *)
Definition emit_event (fuel : nat) (cfg : Config) (g : Globals)
    (session_uuid : string) (uid : Z) (st : list Event * Z) (et : string)
  : M (list Event * Z) :=
  let '(cols, current_ts) := st in
  eid <- uuid4 ;;
  bid <- draw_zipf_id fuel (BOOK_POOL_SIZE cfg) (27 # 20) (BOOK_ID_MAP g) ;;
  meta_obj <- gen_metadata cfg et ;;
  gap <- np_randint 15 1801 ;;
  let row := {| event_id := eid;
                event_timestamp := current_ts / usec;
                event_type := et;
                user_id := uid;
                book_id := bid;
                session_id := session_uuid;
                event_metadata := json_dumps meta_obj |} in
  let current_ts := current_ts + timedelta_seconds gap in
  ret ((cols ++ [row])%list, if current_ts >? NOW g then NOW g else current_ts).

(** The body of [for slen in sess_lengths]. *)
Definition gen_session (fuel : nat) (cfg : Config) (g : Globals)
    (cols : list Event) (slen : Z) : M (list Event) :=
  session_uuid <- uuid4 ;;
  uid <- draw_zipf_id fuel (USER_POOL_SIZE cfg) (5 # 4) (USER_ID_MAP g) ;;
  current_ts <- rand_ts_last_two_years g ;;
  etypes <- np_choice EVENT_TYPES slen (EVENT_PROBS cfg) ;;
  st <- for_each etypes (emit_event fuel cfg g session_uuid uid) (cols, current_ts) ;;
  ret (fst st).

(** [df.iloc[:n]] *)
Definition iloc_to {A} (n : Z) (df : list A) : list A :=
  if n <? 0 then firstn (List.length df - Z.to_nat (- n)) df
  else firstn (Z.to_nat n) df.

Definition generate_chunk (fuel : nat) (cfg : Config) (g : Globals) (n_events : Z)
  : M (list Event) :=
  sl <- draw_session_lengths fuel n_events GEOM_P MAX_SESSION_LEN ;;
  df <- for_each (fst sl) (gen_session fuel cfg g) [] ;;
  ret (if Z.of_nat (List.length df) >? n_events then iloc_to n_events df else df).

(* ===================================================================== *)
(** ** Serialization to CSV and the output file *)
(* ===================================================================== *)

Definition pad (width : nat) (z : Z) : string :=
  let s := py_str_int z in
  (fix zeros (k : nat) : string :=
     match k with O => s | S k' => String "0" (zeros k') end)
    (width - String.length s)%nat.

(** [strftime("%Y-%m-%dT%H:%M:%SZ")] of the UTC instant [sec] seconds after
    the epoch (proleptic Gregorian calendar). *)
Definition strftime_iso (sec : Z) : string :=
  let days := sec / 86400 in
  let sod := sec mod 86400 in
  let z := days + 719468 in
  let era := z / 146097 in
  let doe := z - era * 146097 in
  let yoe := (doe - doe / 1460 + doe / 36524 - doe / 146096) / 365 in
  let doy := doe - (365 * yoe + yoe / 4 - yoe / 100) in
  let mp := (5 * doy + 2) / 153 in
  let d := doy - (153 * mp + 2) / 5 + 1 in
  let m := if mp <? 10 then mp + 3 else mp - 9 in
  let y := yoe + era * 400 + (if m <=? 2 then 1 else 0) in
  pad 4 y ++ "-" ++ pad 2 m ++ "-" ++ pad 2 d ++ "T" ++
  pad 2 (sod / 3600) ++ ":" ++ pad 2 (sod mod 3600 / 60) ++ ":" ++ pad 2 (sod mod 60) ++ "Z".

Definition newline : string := String "010"%char "".

Fixpoint str_exists (f : ascii -> bool) (s : string) : bool :=
  match s with
  | EmptyString => false
  | String c s' => f c || str_exists f s'
  end.

(** [csv.QUOTE_MINIMAL]: a field is quoted when it holds the delimiter,
    the quote character or a line break; quotes inside are doubled. *)
Definition needs_quote (s : string) : bool :=
  str_exists (fun c => let n := N_of_ascii c in
                       (n =? 44)%N || (n =? 34)%N || (n =? 10)%N || (n =? 13)%N) s.

Fixpoint double_quotes (s : string) : string :=
  match s with
  | EmptyString => ""
  | String c s' =>
      if (N_of_ascii c =? 34)%N then String c (String c (double_quotes s'))
      else String c (double_quotes s')
  end.

Definition csv_field (s : string) : string :=
  if needs_quote s then String dquote (double_quotes s ++ String dquote "") else s.

Definition csv_row (r : Event) : string :=
  csv_field (event_id r) ++ "," ++
  csv_field (strftime_iso (event_timestamp r)) ++ "," ++
  csv_field (event_type r) ++ "," ++
  py_str_int (user_id r) ++ "," ++
  py_str_int (book_id r) ++ "," ++
  csv_field (session_id r) ++ "," ++
  csv_field (event_metadata r) ++ newline.

Definition csv_header : string :=
  "event_id,event_timestamp,event_type,user_id,book_id,session_id,event_metadata"
    ++ newline.

(** [df.to_csv(index=False, header=header)] as text *)
Definition to_csv (df : list Event) (header : bool) : string :=
  (if header then csv_header else "") ++ String.concat "" (map csv_row df).

Inductive FileMode := mode_w | mode_a.

(** [df.to_csv(out_path, index=False, mode=mode, header=header)] *)
Definition to_csv_file (df : list Event) (mode : FileMode) (header : bool) : M unit :=
  fun w =>
    let text := to_csv df header in
    let old := match mode, out_file w with
               | mode_a, Some s => s
               | _, _ => ""
               end in
    Done tt (with_file w (Some (old ++ text))).

Definition os_path_exists : M bool :=
  fun w => Done (match out_file w with Some _ => true | None => false end) w.

Definition os_remove : M unit :=
  fun w => match out_file w with
           | Some _ => Done tt (with_file w None)
           | None => Raise FileNotFoundError w
           end.

Definition os_path_getsize : M Z :=
  fun w => match out_file w with
           | Some s => Done (Z.of_nat (String.length s)) w
           | None => Raise FileNotFoundError w
           end.

(* ===================================================================== *)
(** ** Floating point: Python's [/] and [int()] *)
(* ===================================================================== *)

(** [float(z)]: the binary64 nearest to [z], a tie going to the even
    mantissa.  An integer too large for a double becomes an infinity
    here; the division and the [int()] that follow in [main] then raise
    the [OverflowError] that Python raises at the conversion itself. *)
Definition float_of_Z (z : Z) : float :=
  SF2Prim (binary_normalize prec emax z 0 false).

(** [x / y] on floats *)
Definition float_truediv (x y : float) : M float :=
  if PrimFloat.eqb y PrimFloat.zero then raise ZeroDivisionError
  else ret (PrimFloat.div x y).

(** [a / b] on integers (true division).  Python rounds the exact
    quotient once; so does this as long as both operands are below
    [2 ^ 53] and convert exactly, which a length of text held in memory
    and a row count are. *)
Definition py_truediv (a b : Z) : M float :=
  if b =? 0 then raise ZeroDivisionError
  else ret (PrimFloat.div (float_of_Z a) (float_of_Z b)).

(** [int(x)] of a float: truncation towards zero. *)
Definition py_int_float (x : float) : M Z :=
  match Prim2SF x with
  | S754_zero _ => ret 0
  | S754_finite s m e =>
      let v := if 0 <=? e then Z.pos m * 2 ^ e else Z.pos m / 2 ^ (- e) in
      ret (if s then - v else v)
  | S754_infinity _ => raise OverflowError
  | S754_nan => raise (ValueError "cannot convert float NaN to integer")
  end.

(* ===================================================================== *)
(** ** The size-bounded writer *)
(* ===================================================================== *)

Definition estimate_avg_row_bytes (fuel : nat) (cfg : Config) (g : Globals)
    (n_sample : Z) : M float :=
  df <- generate_chunk fuel cfg g n_sample ;;
  let data := to_csv df false in
  py_truediv (Z.of_nat (String.length data)) (Z.max 1 (Z.of_nat (List.length df))).

(** The [while rows_written < target_rows] loop of [main]. *)
Fixpoint stream_loop (fuel_loop fuel : nat) (cfg : Config) (g : Globals)
    (target_rows rows_written : Z) (first_write : bool) : M (Z * bool) :=
  if rows_written <? target_rows then
    match fuel_loop with
    | O => timeout
    | S fuel_loop' =>
        let remaining := target_rows - rows_written in
        let n_chunk := Z.min (DEFAULT_CHUNK_ROWS cfg) remaining in
        df <- generate_chunk fuel cfg g n_chunk ;;
        to_csv_file df (if first_write then mode_w else mode_a) first_write ;;;
        stream_loop fuel_loop' fuel cfg g target_rows
          (rows_written + Z.of_nat (List.length df)) false
    end
  else ret (rows_written, first_write).

(** Lines 233 to 255: clear the path, estimate, plan, stream. *)
Definition plan_and_stream (fuel : nat) (cfg : Config) (g : Globals) : M (float * Z) :=
  ex <- os_path_exists ;;
  (if ex : bool then os_remove else ret tt) ;;;
  avg_row_bytes <- estimate_avg_row_bytes fuel cfg g 2000 ;;
  q <- float_truediv (float_of_Z (TARGET_BYTES cfg)) avg_row_bytes ;;
  target_rows <- py_int_float q ;;
  st <- stream_loop fuel fuel cfg g target_rows 0 true ;;
  ret (avg_row_bytes, fst st).

(** Lines 257 to 264: the corrective chunk.  The result is what the final
    [print] reports: rows written and the file's size. *)
Definition top_up (fuel : nat) (cfg : Config) (g : Globals)
    (avg_row_bytes : float) (rows_written : Z) : M (Z * Z) :=
  final_size <- os_path_getsize ;;
  if final_size <? TARGET_BYTES cfg then
    q <- float_truediv (float_of_Z (TARGET_BYTES cfg - final_size)) avg_row_bytes ;;
    e <- py_int_float q ;;
    let extra_rows := e + 1 in
    if extra_rows >? 0 then
      df <- generate_chunk fuel cfg g extra_rows ;;
      to_csv_file df mode_a false ;;;
      final_size <- os_path_getsize ;;
      ret (rows_written + Z.of_nat (List.length df), final_size)
    else ret (rows_written, final_size)
  else ret (rows_written, final_size).

Definition main (fuel : nat) (cfg : Config) (g : Globals) : M (Z * Z) :=
  st <- plan_and_stream fuel cfg g ;;
  top_up fuel cfg g (fst st) (snd st).

(** Running the script: import the module, then call [main]. *)
Definition run (fuel : nat) (cfg : Config) (env : Env) : Outcome (Z * Z) :=
  (g <- module_init cfg env ;; main fuel cfg g) (boot env).

(* ===================================================================== *)
(** ** Vocabulary of the specification *)
(* ===================================================================== *)

Definition Zsum (l : list Z) : Z := fold_right Z.add 0 l.

(** The token [uuid4] returns when it reads position [p] of the entropy
    stream. *)
Definition token (ur : N -> N) (p : N) : string := uuid_str (uuid4_int (ur p)).

(** The cursor after one step: advanced by the gap, clamped to [NOW]. *)
Definition clamp_now (g : Globals) (c : Z) : Z := if c >? NOW g then NOW g else c.

(** [v] is what an accepted rank in [1, max_id] maps to. *)
Definition id_drawn (max_id : Z) (mapping : list Z) (v : Z) : Prop :=
  exists r, 1 <= r <= max_id /\ nth_error mapping (Z.to_nat (r - 1)) = Some v.

(** The metadata schema of section 4.3: the keys of each event type. *)
Definition schema_keys (et : string) : list string :=
  if (et =? "read_online")%string then ["reading_duration_minutes"; "platform"]
  else if (et =? "download")%string then ["format"; "device_os"; "app_version"]
  else if (et =? "review")%string then ["rating"; "review_text"]
  else if (et =? "search")%string then ["search_terms"; "results_count"]
  else [].

(** [text] is the compact encoding of a dict with exactly the keys of
    [et]'s schema. *)
Definition metadata_for (et text : string) : Prop :=
  exists kv, text = json_dumps (JObj kv) /\ map fst kv = schema_keys et.

(** The rows one session emits, from entropy position [p] and cursor
    [cur] on. *)
Inductive session_rows (cfg : Config) (g : Globals) (ur : N -> N)
    (tok : string) (uid : Z) : N -> Z -> list Event -> Prop :=
| sr_nil p cur : session_rows cfg g ur tok uid p cur []
| sr_cons p cur row gap rest :
    event_id row = token ur p ->
    session_id row = tok ->
    user_id row = uid ->
    event_timestamp row = cur / usec ->
    In (event_type row) EVENT_TYPES ->
    id_drawn (BOOK_POOL_SIZE cfg) (BOOK_ID_MAP g) (book_id row) ->
    metadata_for (event_type row) (event_metadata row) ->
    15 <= gap <= 1800 ->
    session_rows cfg g ur tok uid (N.succ p) (clamp_now g (cur + gap * usec)) rest ->
    session_rows cfg g ur tok uid p cur (row :: rest).

(** One session: its token is read at [p], its user is drawn once, its
    first timestamp is a whole second of the window. *)
Definition session_block (cfg : Config) (g : Globals) (ur : N -> N) (p : N)
    (b : list Event) : Prop :=
  exists uid ts0,
    id_drawn (USER_POOL_SIZE cfg) (USER_ID_MAP g) uid /\
    START_TS g <= ts0 <= END_TS g /\
    session_rows cfg g ur (token ur p) uid (N.succ p) (ts0 * usec) b.

(** The sessions of a chunk, one per planned length, reading the entropy
    stream one after the other. *)
Inductive chunk_blocks (cfg : Config) (g : Globals) (ur : N -> N)
  : N -> list Z -> list (list Event) -> Prop :=
| cb_nil p : chunk_blocks cfg g ur p [] []
| cb_cons p len lens b bs :
    session_block cfg g ur p b ->
    List.length b = Z.to_nat len ->
    chunk_blocks cfg g ur (p + 1 + N.of_nat (List.length b))%N lens bs ->
    chunk_blocks cfg g ur p (len :: lens) (b :: bs).

(** Every window of [B] consecutive raw words holds a rank of at most
    [max_id]: a rejection loop reading this stream ends within [B] draws. *)
Definition fair (B : nat) (max_id : Z) (tape : N -> N) : Prop :=
  forall p : N, exists i : nat,
    (i < B)%nat /\ 1 + Z.of_N (tape (p + N.of_nat i)%N) <= max_id.

(** The probability tables pass [np.random.choice]'s checks. *)
Definition valid_probs (cfg : Config) : Prop :=
  check_probs 4 (EVENT_PROBS cfg) = None /\
  check_probs 2 (PLATFORM_PROBS cfg) = None /\
  check_probs 4 (DL_FORMAT_PROBS cfg) = None /\
  check_probs 5 (DEVICE_OS_PROBS cfg) = None /\
  check_probs 5 (RATING_PROBS cfg) = None.

(** The module-level values have the shape [module_init] gives them. *)
Record globals_ok (cfg : Config) (g : Globals) : Prop := {
  go_start_le : START_TS g <= END_TS g;
  go_user_len : Z.of_nat (List.length (USER_ID_MAP g)) = USER_POOL_SIZE cfg;
  go_book_len : Z.of_nat (List.length (BOOK_ID_MAP g)) = BOOK_POOL_SIZE cfg
}.

(** Advancing numpy's read position by [k] words. *)
Definition np_advance (w : World) (k : N) : World :=
  with_np w (np_tape w) (np_pos w + k)%N.

(** The rank numpy hands out at the [i]-th read from now. *)
Definition rank_at (w : World) (i : nat) : Z :=
  1 + Z.of_N (np_tape w (np_pos w + N.of_nat i)%N).

(* ===================================================================== *)
(** ** Sample runs *)
(* ===================================================================== *)

(** A small configuration (three users, two books, a budget of a few
    kilobytes) and an environment to run it in. *)
Definition tiny_config : Config := {|
  TARGET_BYTES := 3000;
  USER_POOL_SIZE := 3;
  BOOK_POOL_SIZE := 2;
  EVENT_PROBS := EVENT_PROBS default_config;
  PLATFORM_PROBS := PLATFORM_PROBS default_config;
  DL_FORMAT_PROBS := DL_FORMAT_PROBS default_config;
  DEVICE_OS_PROBS := DEVICE_OS_PROBS default_config;
  RATING_PROBS := RATING_PROBS default_config;
  DEFAULT_CHUNK_ROWS := 7;
  SEED := 1
|}.

Definition sample_stream (s : Z) (i : N) : N :=
  (N.shiftr ((Z.to_N s + i) * 2654435761) 16 mod 7)%N.

Definition sample_env : Env := {|
  mt19937 := sample_stream;
  faker_text := fun _ _ => "Lorem ipsum dolor sit amet.";
  os_entropy := fun i => (i * 1234567891234567 + 99)%N;
  wall_clock := 1793700000500000;
  existing_file := None
|}.

(** The module-level values and the state after importing the module in
    [sample_env] with [tiny_config]. *)
Definition sample_globals : Globals := {|
  NOW := 1793700000500000;
  START := 1730628000500000;
  START_TS := 1730628000;
  END_TS := 1793700000;
  USER_ID_MAP := [3; 1; 2];
  BOOK_ID_MAP := [2; 1]
|}.

Definition sample_world : World :=
  {| np_tape := sample_stream 1; np_pos := 3;
     fk_tape := fun _ => "Lorem ipsum dolor sit amet."; fk_pos := 0;
     ur_tape := fun i => (i * 1234567891234567 + 99)%N; ur_pos := 0;
     clock := 1793700000500000; out_file := None |}.

(** What every row of a chunk satisfies, whatever its session. *)
Record row_ok (cfg : Config) (g : Globals) (r : Event) : Prop := {
  ro_user : id_drawn (USER_POOL_SIZE cfg) (USER_ID_MAP g) (user_id r);
  ro_book : id_drawn (BOOK_POOL_SIZE cfg) (BOOK_ID_MAP g) (book_id r);
  ro_type : In (event_type r) EVENT_TYPES;
  ro_meta : metadata_for (event_type r) (event_metadata r)
}.

(** An environment whose generators return the least value of every
    distribution, read at half past a second. *)
Definition zero_env : Env := {|
  mt19937 := fun _ _ => 0%N;
  faker_text := fun _ _ => "Lorem ipsum dolor sit amet.";
  os_entropy := fun i => i;
  wall_clock := 1793700000500000;
  existing_file := None
|}.

(** Where the entropy stream is read next after the sessions [blocks],
    the first of which read its token at [p]: one token per session, one
    per row. *)
Definition blocks_end (p : N) (blocks : list (list Event)) : N :=
  (p + N.of_nat (List.length blocks + List.length (List.concat blocks)))%N.


(** [uuid4] returned pairwise distinct tokens for the reads at positions
    [lo <= p < hi]. *)
Definition tokens_distinct (ur : N -> N) (lo hi : N) : Prop :=
  forall p q : N, (lo <= p < hi)%N -> (lo <= q < hi)%N ->
                  token ur p = token ur q -> p = q.


(** The positions [lo, lo + 1, ..., lo + k - 1] and a check that a list of
    tokens has no repetition. *)
Fixpoint N_range (lo : N) (k : nat) : list N :=
  match k with
  | O => []
  | S k' => lo :: N_range (N.succ lo) k'
  end.

Fixpoint distinctb (l : list string) : bool :=
  match l with
  | [] => true
  | x :: t => negb (existsb (String.eqb x) t) && distinctb t
  end.

(** A state whose numpy stream only ever yields rank 10001. *)
Definition starved_world : World :=
  {| np_tape := fun _ => 10000%N; np_pos := 0;
     fk_tape := fun _ => ""; fk_pos := 0;
     ur_tape := fun i => i; ur_pos := 0;
     clock := 1793700000500000; out_file := None |}.


(** [tiny_config] with event-type probabilities that sum to 0.9, run where
    an output file already exists. *)
Definition bad_probs_config : Config := {|
  TARGET_BYTES := 3000;
  USER_POOL_SIZE := 3;
  BOOK_POOL_SIZE := 2;
  EVENT_PROBS := [45 # 100; 15 # 100; 5 # 100; 25 # 100]%Q;
  PLATFORM_PROBS := PLATFORM_PROBS default_config;
  DL_FORMAT_PROBS := DL_FORMAT_PROBS default_config;
  DEVICE_OS_PROBS := DEVICE_OS_PROBS default_config;
  RATING_PROBS := RATING_PROBS default_config;
  DEFAULT_CHUNK_ROWS := 7;
  SEED := 1
|}.

Definition env_with_file : Env := {|
  mt19937 := sample_stream;
  faker_text := fun _ _ => "Lorem ipsum dolor sit amet.";
  os_entropy := fun i => (i * 1234567891234567 + 99)%N;
  wall_clock := 1793700000500000;
  existing_file := Some "yesterday's rows"
|}.

(** A configuration with twelve users and books and a budget of 30000
    bytes, and an environment whose numpy stream changes character after
    the 84691 words that importing the module and estimating the row size
    consume: before, every event is a three-term search; after, every
    event is a one-minute read. *)
Definition drift_config : Config := {|
  TARGET_BYTES := 30000;
  USER_POOL_SIZE := 12;
  BOOK_POOL_SIZE := 12;
  EVENT_PROBS := EVENT_PROBS default_config;
  PLATFORM_PROBS := PLATFORM_PROBS default_config;
  DL_FORMAT_PROBS := DL_FORMAT_PROBS default_config;
  DEVICE_OS_PROBS := DEVICE_OS_PROBS default_config;
  RATING_PROBS := RATING_PROBS default_config;
  DEFAULT_CHUNK_ROWS := DEFAULT_CHUNK_ROWS default_config;
  SEED := SEED default_config
|}.

Definition drift_env : Env := {|
  mt19937 := fun _ i => if (i <? 84691)%N then 11%N else 0%N;
  faker_text := fun _ _ => "Lorem ipsum dolor sit amet.";
  os_entropy := fun i => i;
  wall_clock := 1793700000500000;
  existing_file := None
|}.

(** What the final [print] of a completed run reports. *)
Definition reported (o : Outcome (Z * Z)) : option (Z * Z) :=
  match o with
  | Done r _ => Some r
  | _ => None
  end.

(** Vocabulary of the reader's correctness proof. *)
Fixpoint digits_only (s : string) : bool :=
  match s with
  | EmptyString => true
  | String c s' => is_digit c && digits_only s'
  end.

(** The text that follows an integer must not extend it. *)
Definition no_digit_ahead (rest : string) : Prop :=
  match rest with
  | EmptyString => True
  | String c _ => is_digit c = false
  end.

(** The text of the elements after the first, and of the members after
    the first, as [json_dumps] lays them out. *)
Definition more_items (t : list json) : string :=
  fold_right (fun y acc => "," ++ json_dumps y ++ acc)%string "" t.

Definition more_members (t : list (string * json)) : string :=
  fold_right (fun p acc => "," ++ encode_basestring (fst p) ++ ":" ++ json_dumps (snd p) ++ acc)%string
             "" t.

(** Fuel that suffices to read a value back. *)
Fixpoint jsize (v : json) : nat :=
  match v with
  | JInt _ => 1
  | JStr _ => 1
  | JList l => S (fold_right (fun y acc => S (jsize y) + acc)%nat O l)
  | JObj kv => S (fold_right (fun p acc => S (jsize (snd p)) + acc)%nat O kv)
  end.

Definition head_code (s : string) : N :=
  match s with
  | EmptyString => 0%N
  | String c _ => N_of_ascii c
  end.

(** A value's text begins with a quote, a minus sign, a digit, a bracket
    or a brace. *)
Definition value_head (h : N) : Prop :=
  (h = 34 \/ h = 45 \/ (48 <= h <= 57) \/ h = 91 \/ h = 123)%N.

(** *** Two runs side by side

    Vocabulary for comparing two runs that share the seed, the
    configuration and the clock reading, and need not share the
    operating system's entropy. *)

Definition is_uuid (s : string) : Prop := exists i, s = uuid_str i.

(** Two rows that agree on every column filled from numpy, Faker and the
    clock; their identifiers are UUID texts. *)
Record row_sim (r1 r2 : Event) : Prop := {
  rs_timestamp : event_timestamp r1 = event_timestamp r2;
  rs_type : event_type r1 = event_type r2;
  rs_user : user_id r1 = user_id r2;
  rs_book : book_id r1 = book_id r2;
  rs_metadata : event_metadata r1 = event_metadata r2;
  rs_event_id : is_uuid (event_id r1) /\ is_uuid (event_id r2);
  rs_session_id : is_uuid (session_id r1) /\ is_uuid (session_id r2)
}.

(** Two file contents built from the same text by appending batches of
    pairwise agreeing rows. *)
Inductive text_sim : string -> string -> Prop :=
| text_same s : text_sim s s
| text_rows t1 t2 df1 df2 h :
    text_sim t1 t2 -> Forall2 row_sim df1 df2 ->
    text_sim (t1 ++ to_csv df1 h) (t2 ++ to_csv df2 h).

Definition file_sim (f1 f2 : option string) : Prop :=
  match f1, f2 with
  | Some s1, Some s2 => text_sim s1 s2
  | None, None => True
  | _, _ => False
  end.

(** Two states that agree on both seeded generators and on the clock. *)
Record wsim (w1 w2 : World) : Prop := {
  ws_np_tape : np_tape w1 = np_tape w2;
  ws_np_pos : np_pos w1 = np_pos w2;
  ws_fk_tape : fk_tape w1 = fk_tape w2;
  ws_fk_pos : fk_pos w1 = fk_pos w2;
  ws_clock : clock w1 = clock w2;
  ws_file : file_sim (out_file w1) (out_file w2)
}.

(** Two outcomes of the same kind, with results related by [R]. *)
Definition osim {A} (R : A -> A -> Prop) (o1 o2 : Outcome A) : Prop :=
  match o1, o2 with
  | Done a1 w1, Done a2 w2 => R a1 a2 /\ wsim w1 w2
  | Raise e1 w1, Raise e2 w2 => e1 = e2 /\ wsim w1 w2
  | Timeout w1, Timeout w2 => wsim w1 w2
  | _, _ => False
  end.

Definition msim {A} (R : A -> A -> Prop) (m1 m2 : M A) : Prop :=
  forall w1 w2, wsim w1 w2 -> osim R (m1 w1) (m2 w2).

(** The file a run leaves behind, however the run ended. *)
Definition final_file {A} (o : Outcome A) : option string :=
  match o with
  | Done _ w => out_file w
  | Raise _ w => out_file w
  | Timeout w => out_file w
  end.

Definition same_file (f1 f2 : option string) : bool :=
  match f1, f2 with
  | Some s1, Some s2 => (s1 =? s2)%string
  | None, None => true
  | _, _ => false
  end.

(** [sample_env] with other entropy, and [sample_env] read a day later. *)
Definition other_entropy_env : Env := {|
  mt19937 := sample_stream;
  faker_text := fun _ _ => "Lorem ipsum dolor sit amet.";
  os_entropy := fun i => (i * 987654321987654321 + 5)%N;
  wall_clock := 1793700000500000;
  existing_file := None
|}.

Definition next_day_env : Env := {|
  mt19937 := sample_stream;
  faker_text := fun _ _ => "Lorem ipsum dolor sit amet.";
  os_entropy := fun i => (i * 1234567891234567 + 99)%N;
  wall_clock := 1793786400500000;
  existing_file := None
|}.

(** Did the second and third run complete, and did each leave the same
    file as the first? *)
Definition compare_files {A} (o1 o2 o3 : Outcome A) : bool * bool * bool * bool :=
  (is_done o2, same_file (final_file o1) (final_file o2),
   is_done o3, same_file (final_file o1) (final_file o3)).

(** The loop state of a session in two runs: agreeing rows, one cursor. *)
Definition session_state_sim (s1 s2 : list Event * Z) : Prop :=
  Forall2 row_sim (fst s1) (fst s2) /\ snd s1 = snd s2.

(** *** Vocabulary of the further properties *)

(** The values [gen_metadata] can store under the keys of [et]'s schema. *)
Definition metadata_values (et : string) (obj : json) : Prop :=
  (et = "read_online" /\
   exists d pl,
     obj = JObj [("reading_duration_minutes", JInt d); ("platform", JStr pl)] /\
     1 <= d <= 300 /\ In pl PLATFORMS) \/
  (et = "download" /\
   exists fmt os_name v1 v2 v3,
     obj = JObj [("format", JStr fmt); ("device_os", JStr os_name);
                 ("app_version",
                  JStr (py_str_int v1 ++ "." ++ py_str_int v2 ++ "." ++ py_str_int v3))] /\
     In fmt DL_FORMATS /\ In os_name DEVICE_OSES /\
     1 <= v1 <= 3 /\ 0 <= v2 <= 9 /\ 0 <= v3 <= 9) \/
  (et = "review" /\
   exists rating text,
     obj = JObj [("rating", JInt rating); ("review_text", JStr text)] /\
     1 <= rating <= 5) \/
  (et = "search" /\
   exists terms n,
     obj = JObj [("search_terms", JList (map JStr terms)); ("results_count", JInt n)] /\
     (1 <= List.length terms <= 3)%nat /\ NoDup terms /\ incl terms SEARCH_VOCAB /\
     0 <= n <= 500).

(** A row whose metadata text is the compact JSON of such a dict. *)
Definition metadata_in_range (r : Event) : Prop :=
  exists obj,
    event_metadata r = json_dumps obj /\
    json_loads (event_metadata r) = Some obj /\
    metadata_values (event_type r) obj.

(** A relation between every element of a list and its successor. *)
Fixpoint adjacent {A} (R : A -> A -> Prop) (l : list A) : Prop :=
  match l with
  | a :: (b :: _) as t => R a b /\ adjacent R t
  | _ => True
  end.

(** Two rows of one session, the second emitted right after the first:
    the cursor moved on by 15 to 1800 seconds, or was clamped to [NOW]. *)
Definition paced (g : Globals) (a b : Event) : Prop :=
  session_id a = session_id b ->
  event_timestamp a <= event_timestamp b <= event_timestamp a + 1800 /\
  (event_timestamp b < event_timestamp a + 15 -> event_timestamp b = END_TS g).



(** A state whose numpy stream yields the least value of every
    distribution. *)
Definition steady_world : World :=
  {| np_tape := fun _ => 0%N; np_pos := 0;
     fk_tape := fun _ => "Lorem ipsum dolor sit amet."; fk_pos := 0;
     ur_tape := fun i => i; ur_pos := 0;
     clock := 1793700000500000; out_file := None |}.

(** [tiny_config] with a budget below the size of one row. *)
Definition small_budget_config : Config := {|
  TARGET_BYTES := 100;
  USER_POOL_SIZE := 3;
  BOOK_POOL_SIZE := 2;
  EVENT_PROBS := EVENT_PROBS default_config;
  PLATFORM_PROBS := PLATFORM_PROBS default_config;
  DL_FORMAT_PROBS := DL_FORMAT_PROBS default_config;
  DEVICE_OS_PROBS := DEVICE_OS_PROBS default_config;
  RATING_PROBS := RATING_PROBS default_config;
  DEFAULT_CHUNK_ROWS := 7;
  SEED := 1
|}.

(** The four bits of [i] that the hexadecimal digit of weight [16 ^ k]
    shows. *)
Definition nibble (i : Z) (k : nat) : Z := Z.land (Z.shiftr i (4 * Z.of_nat k)) 15.

(** The [w] low digits of [i], the most significant first. *)
Fixpoint hex_digits (i : Z) (w : nat) : string :=
  match w with
  | O => ""
  | S w' => String (hex_digit (nibble i w')) (hex_digits i w')
  end.

Definition is_hex (c : ascii) : bool :=
  let n := N_of_ascii c in
  ((48 <=? n) && (n <=? 57) || (97 <=? n) && (n <=? 102))%N.

(** The text of a version 4 UUID: 36 characters, hyphens after the
    groups of 8, 4, 4 and 4 digits, lower-case hexadecimal digits
    elsewhere, the version digit [4] and a variant digit among 8, 9, a, b. *)
Definition uuid4_text (s : string) : Prop :=
  String.length s = 36%nat /\
  (forall k c, get k s = Some c ->
     if (k =? 8)%nat || (k =? 13)%nat || (k =? 18)%nat || (k =? 23)%nat
     then c = "-"%char else is_hex c = true) /\
  get 14 s = Some "4"%char /\
  (exists c, get 19 s = Some c /\
             (c = "8" \/ c = "9" \/ c = "a" \/ c = "b")%char).

(** The number of line feeds in a text. *)
Fixpoint count_lf (s : string) : nat :=
  match s with
  | EmptyString => 0
  | String c s' => (if (N_of_ascii c =? 10)%N then 1 else 0) + count_lf s'
  end.

(** A row of a chunk is written on one line. *)
Definition single_line (r : Event) : Prop := count_lf (csv_row r) = 1%nat.

(** The first clock reading, in microseconds since the epoch, whose
    float of seconds has too few bits left for the microseconds:
    [2 ^ 34] seconds, in May 2514.  Before it [int(d.timestamp())] is the
    whole second [d] lies in; from it on [int(NOW.timestamp())] can be the
    second after [NOW]. *)
Definition late_clock : Z := 2 ^ 34 * usec.

(** The library's binary64 division applied to the exact count of
    microseconds and to [10 ** 6], truncated: what [int_timestamp] is
    checked against on sample instants. *)
Definition exact_operand (z : Z) : spec_float :=
  match z with
  | Z0 => S754_zero false
  | Zpos p => S754_finite false p 0
  | Zneg p => S754_finite true p 0
  end.

Definition truncate_binary64 (x : spec_float) : Z :=
  match x with
  | S754_finite s m e =>
      let v := if 0 <=? e then Z.pos m * 2 ^ e else Z.pos m / 2 ^ (- e) in
      if s then - v else v
  | _ => 0
  end.

Definition binary64_timestamp (d : Z) : Z :=
  truncate_binary64 (SFdiv prec emax (exact_operand d) (exact_operand usec)).

(** An environment whose clock reads one microsecond before the second
    [2 ^ 34 + 1], and whose numpy stream plans one session of two events
    and draws the last second of the window for it. *)
Definition late_env : Env := {|
  mt19937 := fun _ i => if (i =? 3)%N then 1%N
                        else if (i =? 5)%N then 63072001%N else 0%N;
  faker_text := fun _ _ => "Lorem ipsum dolor sit amet.";
  os_entropy := fun i => i;
  wall_clock := 17179869184999999;
  existing_file := None
|}.

(** The geometric variate numpy returns at the [i]-th read from now. *)
Definition geometric_at (w : World) (i : nat) : Z :=
  1 + Z.of_N (np_tape w (np_pos w + N.of_nat i)%N).

(* ===================================================================== *)
(** * Properties *)
(* ===================================================================== *)

(** ** Reasoning about monadic code *)

Lemma bind_done {A B} (m : M A) (k : A -> M B) w b w'' :
  bind m k w = Done b w'' ->
  exists a w', m w = Done a w' /\ k a w' = Done b w''.
Proof.
  unfold bind. destruct (m w) as [a w'| |]; try discriminate.
  intros H. exists a, w'. split; [reflexivity | exact H].
Qed.

Lemma bind_done_intro {A B} (m : M A) (k : A -> M B) w a w' :
  m w = Done a w' -> bind m k w = k a w'.
Proof. unfold bind. intros ->. reflexivity. Qed.

Lemma ret_done {A} (a b : A) w w' : ret a w = Done b w' -> a = b /\ w = w'.
Proof. unfold ret. intros H. injection H as -> ->. split; reflexivity. Qed.

(** Peel the binds of a hypothesis [m w = Done v w']. *)
Tactic Notation "peel" hyp(H) :=
  let a := fresh "v" in
  let w := fresh "w" in
  let H1 := fresh "E" in
  let H2 := fresh "K" in
  apply bind_done in H; destruct H as (a & w & H1 & H2); rename H2 into H.

Tactic Notation "peel" hyp(H) "as" ident(a) ident(w) ident(E) :=
  let H2 := fresh "K" in
  apply bind_done in H; destruct H as (a & w & E & H2); rename H2 into H.

Ltac splits := repeat match goal with |- _ /\ _ => split end.

Ltac done_ret H :=
  apply ret_done in H; destruct H as [? ?]; subst.

(** What a call leaves alone: the streams themselves and the clock; the
    read positions only move forward. *)
Record evolves (w w' : World) : Prop := {
  ev_np_tape : np_tape w' = np_tape w;
  ev_fk_tape : fk_tape w' = fk_tape w;
  ev_ur_tape : ur_tape w' = ur_tape w;
  ev_clock : clock w' = clock w;
  ev_np_pos : (np_pos w <= np_pos w')%N;
  ev_ur_pos : (ur_pos w <= ur_pos w')%N
}.

Lemma evolves_refl w : evolves w w.
Proof. constructor; reflexivity. Qed.

Lemma evolves_trans w1 w2 w3 : evolves w1 w2 -> evolves w2 w3 -> evolves w1 w3.
Proof.
  intros [a1 b1 c1 d1 e1 f1] [a2 b2 c2 d2 e2 f2].
  constructor; try congruence; etransitivity; eassumption.
Qed.

#[local] Hint Resolve evolves_refl : core.

(** Invariant rule for [for_each], for the runs that complete. *)
Lemma for_each_inv {A S} (body : S -> A -> M S) (I : list A -> S -> World -> Prop)
    (xs : list A) :
  (forall pre x s w s' w',
      In x xs -> I pre s w -> body s x w = Done s' w' -> I (pre ++ [x])%list s' w') ->
  forall s w s' w',
    I [] s w -> for_each xs body s w = Done s' w' -> I xs s' w'.
Proof.
  intros Hbody.
  assert (G : forall rest pre s w s' w',
             incl rest xs -> I pre s w ->
             for_each rest body s w = Done s' w' -> I (pre ++ rest)%list s' w').
  { induction rest as [|x rest IH]; intros pre s w s' w' Hin HI Hrun; simpl in Hrun.
    - done_ret Hrun. rewrite app_nil_r. exact HI.
    - peel Hrun.
      replace (pre ++ x :: rest)%list with ((pre ++ [x]) ++ rest)%list
        by (rewrite <- app_assoc; reflexivity).
      eapply IH; [ | | exact Hrun].
      + intros y Hy. apply Hin. right. exact Hy.
      + eapply Hbody; [ | exact HI | exact E]. apply Hin. left. reflexivity. }
  intros s w s' w' HI Hrun. apply (G xs [] s w s' w'); auto using incl_refl.
Qed.

(** The same rule for termination: when every iteration completes and
    keeps the invariant, so does the loop. *)
Lemma for_each_total {A S} (body : S -> A -> M S) (I : list A -> S -> World -> Prop)
    (xs : list A) :
  (forall pre x s w,
      In x xs -> I pre s w ->
      exists s' w', body s x w = Done s' w' /\ I (pre ++ [x])%list s' w') ->
  forall s w,
    I [] s w -> exists s' w', for_each xs body s w = Done s' w' /\ I xs s' w'.
Proof.
  intros Hbody.
  assert (G : forall rest pre s w,
             incl rest xs -> I pre s w ->
             exists s' w', for_each rest body s w = Done s' w' /\ I (pre ++ rest)%list s' w').
  { induction rest as [|x rest IH]; intros pre s w Hin HI; simpl.
    - exists s, w. rewrite app_nil_r. split; [reflexivity | exact HI].
    - destruct (Hbody pre x s w) as (s1 & w1 & E1 & HI1); [apply Hin; left; reflexivity | exact HI | ].
      destruct (IH (pre ++ [x])%list s1 w1) as (s2 & w2 & E2 & HI2);
        [intros y Hy; apply Hin; right; exact Hy | exact HI1 | ].
      exists s2, w2. rewrite (bind_done_intro _ _ _ _ _ E1). split; [exact E2 | ].
      rewrite <- app_assoc in HI2. exact HI2. }
  intros s w HI. apply (G xs [] s w); auto using incl_refl.
Qed.

(** A call that reads neither the entropy stream nor the file. *)
Record quiet (w w' : World) : Prop := {
  q_ev : evolves w w';
  q_ur : ur_pos w' = ur_pos w;
  q_file : out_file w' = out_file w
}.

Lemma quiet_refl w : quiet w w.
Proof. constructor; auto. Qed.

Lemma quiet_trans w1 w2 w3 : quiet w1 w2 -> quiet w2 w3 -> quiet w1 w3.
Proof.
  intros [e1 u1 f1] [e2 u2 f2].
  constructor; [eapply evolves_trans; eauto | congruence | congruence].
Qed.

#[local] Hint Resolve quiet_refl : core.

(** ** The samplers *)

Lemma np_next_done raw w w' :
  np_next w = Done raw w' ->
  raw = np_tape w (np_pos w) /\ w' = with_np w (np_tape w) (N.succ (np_pos w)).
Proof. unfold np_next. intros H. injection H as <- <-. split; reflexivity. Qed.

Lemma with_np_succ_quiet w : quiet w (with_np w (np_tape w) (N.succ (np_pos w))).
Proof. constructor; [constructor | | ]; simpl; try reflexivity. lia. Qed.

Lemma np_next_quiet raw w w' : np_next w = Done raw w' -> quiet w w'.
Proof. intros H. apply np_next_done in H as [_ ->]. apply with_np_succ_quiet. Qed.

Lemma np_zipf_done a r w w' :
  np_zipf a w = Done r w' ->
  Qle_bool a 1 = false /\ r = 1 + Z.of_N (np_tape w (np_pos w)) /\
  w' = with_np w (np_tape w) (N.succ (np_pos w)).
Proof.
  unfold np_zipf. destruct (Qle_bool a 1); [discriminate | ].
  intros H. peel H. done_ret H. apply np_next_done in E as [-> ->]. auto.
Qed.

Lemma np_geometric_done p r w w' :
  np_geometric p w = Done r w' -> 1 <= r /\ quiet w w'.
Proof.
  unfold np_geometric. destruct (_ || _); [discriminate | ].
  intros H. peel H. done_ret H. split; [lia | eapply np_next_quiet; eauto].
Qed.

Lemma np_randint_done lo hi r w w' :
  np_randint lo hi w = Done r w' -> lo <= r < hi /\ quiet w w'.
Proof.
  unfold np_randint. destruct (Z.leb_spec hi lo) as [Hle|Hlt]; [discriminate | ].
  intros H. peel H. done_ret H. split; [ | eapply np_next_quiet; eauto].
  pose proof (Z.mod_pos_bound (Z.of_N v) (hi - lo)). lia.
Qed.

Lemma np_gamma_done sh sc x w w' : np_gamma sh sc w = Done x w' -> quiet w w'.
Proof. unfold np_gamma. intros H. peel H. done_ret H. eapply np_next_quiet; eauto. Qed.

Lemma np_poisson_done lam n w w' :
  np_poisson lam w = Done n w' -> 0 <= n /\ quiet w w'.
Proof.
  unfold np_poisson. intros H. peel H. done_ret H.
  split; [lia | eapply np_next_quiet; eauto].
Qed.

Lemma np_index_done {A} (x : list A) i v w w' :
  np_index x i w = Done v w' ->
  w' = w /\ exists j, nth_error x j = Some v /\
                      Z.of_nat j = (if i <? 0 then i + Z.of_nat (List.length x) else i).
Proof.
  unfold np_index. destruct (_ || _) eqn:Hb; [discriminate | ].
  apply orb_false_elim in Hb as [Hb1 Hb2].
  destruct (nth_error x _) eqn:Hn; [ | discriminate].
  intros H. done_ret H. split; [reflexivity | ].
  eexists. split; [exact Hn | ]. rewrite Z2Nat.id; [reflexivity | ].
  apply Z.ltb_ge in Hb1. exact Hb1.
Qed.

(** ** Shuffling yields a permutation *)

Lemma upd_perm {A} (t : list A) : forall j (h b : A),
  nth_error t j = Some b -> Permutation (b :: upd j h t) (h :: t).
Proof.
  induction t as [|x t IH]; intros [|j] h b Hn; simpl in *; try discriminate.
  - injection Hn as ->. apply perm_swap.
  - eapply perm_trans; [apply perm_swap | ].
    eapply perm_trans; [apply perm_skip, (IH _ h b Hn) | apply perm_swap].
Qed.

Lemma swap_perm {A} (x : list A) : forall i j, Permutation (swap x i j) x.
Proof.
  unfold swap. induction x as [|h t IH]; intros i j.
  - destruct i, j; reflexivity.
  - destruct i as [|i], j as [|j]; simpl.
    + reflexivity.
    + destruct (nth_error t j) as [b|] eqn:Hj; [ | reflexivity].
      apply upd_perm. exact Hj.
    + destruct (nth_error t i) as [a|] eqn:Hi; [ | reflexivity].
      apply upd_perm. exact Hi.
    + specialize (IH i j).
      destruct (nth_error t i) as [a|]; [ | reflexivity].
      destruct (nth_error t j) as [b|]; [ | reflexivity].
      apply perm_skip. exact IH.
Qed.

Lemma shuffle_done {A} i : forall (x x' : list A) w w',
  shuffle i x w = Done x' w' -> Permutation x x' /\ quiet w w'.
Proof.
  induction i as [|i IH]; intros x x' w w' H; simpl in H.
  - done_ret H. split; [reflexivity | apply quiet_refl].
  - peel H. apply IH in H as [Hp He]. split.
    + eapply perm_trans; [ | exact Hp]. symmetry. apply swap_perm.
    + eapply quiet_trans; [eapply np_next_quiet; eauto | exact He].
Qed.

Lemma shuffle_total {A} i : forall (x : list A) w, exists x' w', shuffle i x w = Done x' w'.
Proof.
  induction i as [|i IH]; intros x w; simpl.
  - exists x, w. reflexivity.
  - unfold bind at 1. unfold np_next at 1. apply IH.
Qed.

Lemma np_permutation_done {A} (x x' : list A) w w' :
  np_permutation x w = Done x' w' -> Permutation x x' /\ quiet w w'.
Proof. apply shuffle_done. Qed.

Lemma np_arange_In lo hi v : In v (np_arange lo hi) <-> lo <= v < hi.
Proof.
  unfold np_arange. rewrite in_map_iff. split.
  - intros (i & <- & Hi). apply in_seq in Hi. lia.
  - intros Hv. exists (Z.to_nat (v - lo)). split; [lia | ]. apply in_seq. lia.
Qed.

Lemma np_arange_length lo hi : List.length (np_arange lo hi) = Z.to_nat (hi - lo).
Proof. unfold np_arange. rewrite length_map, length_seq. reflexivity. Qed.

(** ** Categorical draws *)

Lemma choice_draw_done {A} (a : list A) v w w' :
  choice_draw a w = Done v w' -> In v a /\ quiet w w'.
Proof.
  unfold choice_draw. intros H. peel H.
  destruct (nth_error a _) eqn:Hn; [ | discriminate].
  done_ret H. split; [eapply nth_error_In; eauto | eapply np_next_quiet; eauto].
Qed.

Lemma choice_draws_done {A} (a : list A) n : forall vs w w',
  choice_draws a n w = Done vs w' ->
  List.length vs = n /\ Forall (fun v => In v a) vs /\ quiet w w'.
Proof.
  induction n as [|n IH]; intros vs w w' H; simpl in H.
  - done_ret H. split; [ | split]; auto.
  - peel H. peel H. done_ret H.
    apply choice_draw_done in E as [Hin He]. apply IH in E0 as (Hl & Hf & He').
    split; [ | split]; simpl; auto. eapply quiet_trans; eauto.
Qed.

Lemma choice_guard_done {A} (a : list A) p u w w' :
  choice_guard a p w = Done u w' ->
  w' = w /\ a <> [] /\ check_probs (List.length a) p = None.
Proof.
  unfold choice_guard. destruct a as [|x a]; [discriminate | ].
  destruct (check_probs _ p); [discriminate | ].
  intros H. done_ret H. split; [ | split]; auto. discriminate.
Qed.

Lemma np_choice1_done {A} (a : list A) p v w w' :
  np_choice1 a p w = Done v w' -> In v a /\ quiet w w'.
Proof.
  unfold np_choice1. intros H. peel H.
  apply choice_guard_done in E as (-> & _ & _). apply choice_draw_done in H. exact H.
Qed.

Lemma np_choice_done {A} (a : list A) size p vs w w' :
  np_choice a size p w = Done vs w' ->
  0 <= size /\ List.length vs = Z.to_nat size /\ Forall (fun v => In v a) vs /\
  quiet w w'.
Proof.
  unfold np_choice. destruct (Z.ltb_spec size 0) as [Hneg|Hpos]; [discriminate | ].
  intros H. peel H. apply choice_guard_done in E as (-> & _ & _).
  apply choice_draws_done in H as (Hl & Hf & He). auto.
Qed.

Lemma nth_error_lt_total {A} (a : list A) i :
  (i < List.length a)%nat -> exists v, nth_error a i = Some v.
Proof.
  intros H. destruct (nth_error a i) eqn:E; [eauto | ].
  apply nth_error_None in E. lia.
Qed.

Lemma choice_draw_total {A} (a : list A) w :
  a <> [] -> exists v w', choice_draw a w = Done v w'.
Proof.
  intros Ha. unfold choice_draw, bind, np_next.
  destruct (nth_error_lt_total a (N.to_nat (np_tape w (np_pos w)) mod List.length a))
    as [v Hv].
  - apply Nat.mod_upper_bound. destruct a; [congruence | simpl; lia].
  - rewrite Hv. eexists _, _. reflexivity.
Qed.

Lemma choice_draws_total {A} (a : list A) n : forall w,
  a <> [] -> exists vs w', choice_draws a n w = Done vs w'.
Proof.
  induction n as [|n IH]; intros w Ha; simpl.
  - eexists _, _. reflexivity.
  - destruct (choice_draw_total a w Ha) as (v & w1 & E1).
    destruct (IH w1 Ha) as (vs & w2 & E2).
    exists (v :: vs), w2. rewrite (bind_done_intro _ _ _ _ _ E1).
    rewrite (bind_done_intro _ _ _ _ _ E2). reflexivity.
Qed.

Lemma choice_guard_total {A} (a : list A) p w :
  a <> [] -> check_probs (List.length a) p = None -> choice_guard a p w = Done tt w.
Proof.
  intros Ha Hp. unfold choice_guard. destruct a; [congruence | ]. rewrite Hp. reflexivity.
Qed.

Lemma np_choice1_total {A} (a : list A) p w :
  a <> [] -> check_probs (List.length a) p = None ->
  exists v w', np_choice1 a p w = Done v w'.
Proof.
  intros Ha Hp. unfold np_choice1.
  rewrite (bind_done_intro _ _ _ _ _ (choice_guard_total a p w Ha Hp)).
  apply choice_draw_total. exact Ha.
Qed.

Lemma np_choice_total {A} (a : list A) size p w :
  a <> [] -> check_probs (List.length a) p = None -> 0 <= size ->
  exists vs w', np_choice a size p w = Done vs w'.
Proof.
  intros Ha Hp Hs. unfold np_choice.
  destruct (Z.ltb_spec size 0); [lia | ].
  rewrite (bind_done_intro _ _ _ _ _ (choice_guard_total a p w Ha Hp)).
  apply choice_draws_total. exact Ha.
Qed.

Lemma np_randint_total lo hi w :
  lo < hi -> exists r w', np_randint lo hi w = Done r w'.
Proof.
  intros H. unfold np_randint. destruct (Z.leb_spec hi lo); [lia | ].
  eexists _, _. reflexivity.
Qed.

Lemma np_choice_norepl_done {A} (a : list A) size vs w w' :
  np_choice_norepl a size w = Done vs w' ->
  0 <= size <= Z.of_nat (List.length a) /\
  (exists perm, Permutation a perm /\ vs = firstn (Z.to_nat size) perm) /\
  quiet w w'.
Proof.
  unfold np_choice_norepl.
  destruct (Z.ltb_spec size 0) as [Hneg|Hpos]; [discriminate | ].
  destruct (Z.ltb_spec (Z.of_nat (List.length a)) size) as [Hbig|Hfit]; [discriminate | ].
  intros H. peel H. done_ret H. apply shuffle_done in E as [Hp Hq].
  split; [lia | ]. split; [exists v; auto | exact Hq].
Qed.

Lemma np_choice_norepl_total {A} (a : list A) size w :
  0 <= size <= Z.of_nat (List.length a) ->
  exists vs w', np_choice_norepl a size w = Done vs w'.
Proof.
  intros Hs. unfold np_choice_norepl.
  destruct (Z.ltb_spec size 0); [lia | ].
  destruct (Z.ltb_spec (Z.of_nat (List.length a)) size); [lia | ].
  destruct (shuffle_total (List.length a - 1) a w) as (x & w1 & E).
  unfold np_permutation. rewrite (bind_done_intro _ _ _ _ _ E).
  eexists _, _. reflexivity.
Qed.

Lemma fake_sentence_done k s w w' : fake_sentence k w = Done s w' -> quiet w w'.
Proof.
  unfold fake_sentence. intros H. injection H as _ <-.
  constructor; [constructor | | ]; simpl; reflexivity.
Qed.

Lemma uuid4_done s w w' :
  uuid4 w = Done s w' ->
  s = token (ur_tape w) (ur_pos w) /\ w' = with_ur_pos w (N.succ (ur_pos w)).
Proof. unfold uuid4. intros H. injection H as <- <-. split; reflexivity. Qed.

Lemma uuid4_run w :
  uuid4 w = Done (token (ur_tape w) (ur_pos w)) (with_ur_pos w (N.succ (ur_pos w))).
Proof. reflexivity. Qed.

Lemma with_ur_pos_evolves w : evolves w (with_ur_pos w (N.succ (ur_pos w))).
Proof. constructor; simpl; try reflexivity. lia. Qed.

(** ** The identifier sampler *)

Lemma np_advance_0 w : np_advance w 0 = w.
Proof. destruct w. unfold np_advance, with_np. simpl. rewrite N.add_0_r. reflexivity. Qed.

Lemma np_advance_add w a b : np_advance (np_advance w a) b = np_advance w (a + b).
Proof. unfold np_advance, with_np. simpl. rewrite N.add_assoc. reflexivity. Qed.

Lemma with_np_succ w : with_np w (np_tape w) (N.succ (np_pos w)) = np_advance w 1.
Proof. unfold np_advance. rewrite N.add_1_r. reflexivity. Qed.

Lemma np_advance_quiet w k : quiet w (np_advance w k).
Proof. constructor; [constructor | | ]; simpl; try reflexivity. lia. Qed.

Lemma rank_at_advance w i : rank_at (np_advance w 1) i = rank_at w (S i).
Proof.
  unfold rank_at, np_advance. simpl np_tape. simpl np_pos.
  do 3 f_equal. lia.
Qed.

Lemma rank_at_0 w : rank_at w 0 = 1 + Z.of_N (np_tape w (np_pos w)).
Proof. unfold rank_at. simpl. rewrite N.add_0_r. reflexivity. Qed.

Lemma np_zipf_rank a r w w' :
  np_zipf a w = Done r w' ->
  Qle_bool a 1 = false /\ r = rank_at w 0 /\ w' = np_advance w 1.
Proof.
  intros H. apply np_zipf_done in H as (Ha & -> & ->).
  rewrite rank_at_0, with_np_succ. auto.
Qed.

Lemma zipf_reject_done a max_id fuel : forall r w r' w',
  zipf_reject fuel a max_id r w = Done r' w' ->
  exists k, (k <= fuel)%nat /\ w' = np_advance w (N.of_nat k) /\ r' <= max_id /\
    match k with
    | O => r' = r
    | S k' => max_id < r /\ (forall i, (i < k')%nat -> max_id < rank_at w i) /\
              r' = rank_at w k'
    end.
Proof.
  induction fuel as [|fuel IH]; intros r w r' w' H; simpl in H.
  - destruct (Z.gtb_spec r max_id) as [Hgt|Hle]; [discriminate | ].
    done_ret H. exists O. rewrite np_advance_0. repeat split; auto.
  - destruct (Z.gtb_spec r max_id) as [Hgt|Hle].
    + peel H. apply np_zipf_rank in E as (_ & -> & ->).
      apply IH in H as (k & Hk & -> & Hr' & Hshape).
      exists (S k). split; [lia | ]. split.
      { rewrite np_advance_add. f_equal. lia. }
      split; [exact Hr' | ]. split; [lia | ].
      destruct k as [|k'].
      * subst r'. split; [intros i Hi; lia | reflexivity].
      * destruct Hshape as (H0 & Hrej & ->). split.
        { intros [|i] Hi; [exact H0 | ]. rewrite <- rank_at_advance. apply Hrej. lia. }
        { apply rank_at_advance. }
    + done_ret H. exists O. rewrite np_advance_0. repeat split; auto. lia.
Qed.

(** What a completed [draw_zipf_id] did: it read [k + 1] ranks, threw the
    first [k] away because each exceeded [max_id], and mapped the last. *)
Lemma draw_zipf_id_done fuel max_id a mapping v w w' :
  draw_zipf_id fuel max_id a mapping w = Done v w' ->
  exists k, (k <= fuel)%nat /\
    (forall i, (i < k)%nat -> max_id < rank_at w i) /\
    rank_at w k <= max_id /\
    nth_error mapping (Z.to_nat (rank_at w k - 1)) = Some v /\
    w' = np_advance w (N.of_nat (S k)).
Proof.
  unfold draw_zipf_id. intros H. peel H as r0 w0 E. peel H as v0 w1 E0.
  apply np_zipf_rank in E as (_ & -> & ->).
  apply zipf_reject_done in E0 as (k & Hk & -> & Hle & Hshape).
  apply np_index_done in H as (-> & j & Hj & Hij).
  assert (Hpos : forall i, 1 <= rank_at w i) by (intros i; unfold rank_at; lia).
  exists k. split; [exact Hk | ].
  assert (Hv0 : v0 = rank_at w k /\ forall i, (i < k)%nat -> max_id < rank_at w i).
  { destruct k as [|k'].
    - subst v0. split; [reflexivity | intros i Hi; lia].
    - destruct Hshape as (H0 & Hrej & ->). split; [apply rank_at_advance | ].
      intros [|i] Hi; [exact H0 | ]. rewrite <- rank_at_advance. apply Hrej. lia. }
  destruct Hv0 as [-> Hrej]. split; [exact Hrej | ]. split; [exact Hle | ]. split.
  - destruct (Z.ltb_spec (rank_at w k - 1) 0) as [Hneg|_]; [specialize (Hpos k); lia | ].
    rewrite <- Hij, Nat2Z.id. exact Hj.
  - rewrite np_advance_add. f_equal. lia.
Qed.

Lemma draw_zipf_id_drawn fuel max_id a mapping v w w' :
  draw_zipf_id fuel max_id a mapping w = Done v w' ->
  id_drawn max_id mapping v /\ quiet w w'.
Proof.
  intros H. apply draw_zipf_id_done in H as (k & _ & _ & Hle & Hn & ->).
  split; [ | apply np_advance_quiet].
  exists (rank_at w k). split; [unfold rank_at in *; lia | exact Hn].
Qed.

Lemma np_zipf_run a w :
  Qle_bool a 1 = false -> np_zipf a w = Done (rank_at w 0) (np_advance w 1).
Proof.
  intros Ha. unfold np_zipf. rewrite Ha. unfold bind, np_next, ret.
  rewrite with_np_succ, rank_at_0. reflexivity.
Qed.

Lemma zipf_reject_accept fuel a max_id r w :
  r <= max_id -> zipf_reject fuel a max_id r w = Done r w.
Proof.
  intros Hr. destruct fuel; simpl; destruct (Z.gtb_spec r max_id); try lia; reflexivity.
Qed.

Lemma zipf_reject_total a max_id : forall i fuel r w,
  (i < fuel)%nat -> Qle_bool a 1 = false -> rank_at w i <= max_id ->
  exists r' w', zipf_reject fuel a max_id r w = Done r' w'.
Proof.
  induction i as [|i IH]; intros fuel r w Hi Ha Hacc;
    (destruct fuel as [|fuel]; [lia | ]); simpl;
    destruct (Z.gtb_spec r max_id) as [Hgt|Hle]; try (eexists _, _; reflexivity);
    rewrite (bind_done_intro _ _ _ _ _ (np_zipf_run a w Ha)).
  - rewrite zipf_reject_accept by exact Hacc. eexists _, _. reflexivity.
  - apply IH; [lia | exact Ha | ]. rewrite rank_at_advance. exact Hacc.
Qed.

Lemma fair_weaken B m m' tape : m <= m' -> fair B m tape -> fair B m' tape.
Proof.
  intros Hm Hf p. destruct (Hf p) as (i & Hi & Hacc). exists i. split; [exact Hi | lia].
Qed.

Lemma draw_zipf_id_total B fuel max_id a mapping w :
  fair B max_id (np_tape w) -> (B <= fuel)%nat -> Qle_bool a 1 = false ->
  max_id <= Z.of_nat (List.length mapping) ->
  exists v w', draw_zipf_id fuel max_id a mapping w = Done v w'.
Proof.
  intros Hfair HB Ha Hlen.
  destruct (Hfair (np_pos w)) as (i & Hi & Hacc).
  assert (Hrank : rank_at w i <= max_id) by exact Hacc.
  assert (Hrej : exists r' w', zipf_reject fuel a max_id (rank_at w 0) (np_advance w 1)
                                 = Done r' w').
  { destruct i as [|i].
    - rewrite zipf_reject_accept by exact Hrank. eexists _, _. reflexivity.
    - apply (zipf_reject_total a max_id i); [lia | exact Ha | ].
      rewrite rank_at_advance. exact Hrank. }
  destruct Hrej as (r' & w1 & E).
  pose proof (zipf_reject_done _ _ _ _ _ _ _ E) as (k & _ & _ & Hle & Hshape).
  assert (H1 : 1 <= r').
  { destruct k; [subst r' | destruct Hshape as (_ & _ & ->)]; unfold rank_at; lia. }
  unfold draw_zipf_id.
  rewrite (bind_done_intro _ _ _ _ _ (np_zipf_run a w Ha)).
  rewrite (bind_done_intro _ _ _ _ _ E).
  unfold np_index.
  destruct (Z.ltb_spec (r' - 1) 0); [lia | ].
  destruct (Z.ltb_spec (r' - 1) 0); [lia | ].
  destruct (Z.leb_spec (Z.of_nat (List.length mapping)) (r' - 1)); [lia | ]. simpl.
  destruct (nth_error_lt_total mapping (Z.to_nat (r' - 1))) as [v Hv]; [lia | ].
  rewrite Hv. eexists _, _. reflexivity.
Qed.

(** ** Session planning *)

Lemma Zsum_app l1 l2 : Zsum (l1 ++ l2) = Zsum l1 + Zsum l2.
Proof. unfold Zsum. induction l1 as [|x l1 IH]; simpl; [reflexivity | rewrite IH; lia]. Qed.

(** A completed planning loop appended lengths in [1, max_len], stopped
    at the first running total that reaches [n_target], and so overshoots
    by less than its last length. *)
Lemma session_lengths_loop_done n_target p max_len fuel :
  forall lengths total lens tot w w',
    1 <= max_len ->
    session_lengths_loop fuel n_target p max_len lengths total w = Done (lens, tot) w' ->
    exists new,
      lens = (lengths ++ new)%list /\ tot = total + Zsum new /\
      Forall (fun l => 1 <= l <= max_len) new /\ n_target <= tot /\
      ((new = [] /\ n_target <= total) \/
       (exists front l, new = (front ++ [l])%list /\ total + Zsum front < n_target)) /\
      quiet w w'.
Proof.
  induction fuel as [|fuel IH]; intros lengths total lens tot w w' Hmax H; simpl in H;
    destruct (Z.ltb_spec total n_target) as [Hlt|Hge]; try discriminate.
  - unfold ret in H. injection H as ? ? ?; subst. exists []. rewrite app_nil_r. simpl.
    repeat split; auto; try lia.
  - peel H as l w1 E. apply np_geometric_done in E as [Hl Hq].
    apply IH in H as (new & -> & -> & Hall & Hn & Hlast & Hq'); [ | exact Hmax].
    set (l' := if l >? max_len then max_len else l) in *.
    assert (Hl' : 1 <= l' <= max_len)
      by (subst l'; destruct (Z.gtb_spec l max_len); lia).
    exists (l' :: new). rewrite <- app_assoc. simpl.
    split; [reflexivity | ]. split; [lia | ]. split; [constructor; auto | ].
    split; [exact Hn | ]. split; [ | eapply quiet_trans; eauto].
    right. destruct Hlast as [[-> _]|(front & l2 & -> & Hfront)].
    + exists [], l'. simpl. split; [reflexivity | lia].
    + exists (l' :: front), l2. simpl. split; [reflexivity | simpl in Hfront; lia].
  - unfold ret in H. injection H as ? ? ?; subst. exists []. rewrite app_nil_r. simpl.
    repeat split; auto; try lia.
Qed.

Lemma np_geometric_total p w :
  Qle_bool p 0 || negb (Qle_bool p 1) = false ->
  exists l w', np_geometric p w = Done l w'.
Proof. intros Hp. unfold np_geometric. rewrite Hp. eexists _, _. reflexivity. Qed.

(** Every iteration adds at least one event, so [n_target] iterations are
    always enough. *)
Lemma session_lengths_loop_total n_target p max_len fuel :
  forall lengths total w,
    Qle_bool p 0 || negb (Qle_bool p 1) = false -> 1 <= max_len ->
    (Z.to_nat (n_target - total) <= fuel)%nat ->
    exists res w', session_lengths_loop fuel n_target p max_len lengths total w = Done res w'.
Proof.
  induction fuel as [|fuel IH]; intros lengths total w Hp Hmax Hfuel; simpl;
    destruct (Z.ltb_spec total n_target) as [Hlt|Hge];
    try (eexists _, _; reflexivity); try lia.
  destruct (np_geometric_total p w Hp) as (l & w1 & E).
  rewrite (bind_done_intro _ _ _ _ _ E).
  apply np_geometric_done in E as [Hl _].
  apply IH; auto. destruct (Z.gtb_spec l max_len); lia.
Qed.

Lemma GEOM_P_valid : Qle_bool GEOM_P 0 || negb (Qle_bool GEOM_P 1) = false.
Proof. reflexivity. Qed.

(** ** Metadata *)

Lemma EVENT_TYPES_cases et :
  In et EVENT_TYPES ->
  et = "read_online" \/ et = "download" \/ et = "review" \/ et = "search".
Proof. unfold EVENT_TYPES. simpl. intuition. Qed.

(** Whatever the type, the dict built has exactly the keys of the type's
    schema, in the schema's order. *)
Lemma gen_metadata_done cfg et obj w w' :
  In et EVENT_TYPES ->
  gen_metadata cfg et w = Done obj w' ->
  (exists kv, obj = JObj kv /\ map fst kv = schema_keys et) /\ quiet w w'.
Proof.
  intros Het H. unfold gen_metadata in H. unfold schema_keys.
  destruct (String.eqb_spec et "read_online") as [->|N1].
  { peel H as x w1 E1. peel H as pl w2 E2. done_ret H.
    apply np_gamma_done in E1. apply np_choice1_done in E2 as [_ E2].
    split; [eexists; split; reflexivity | eapply quiet_trans; eauto]. }
  destruct (String.eqb_spec et "download") as [->|N2].
  { peel H as f w1 E1. peel H as o w2 E2. peel H as v1 w3 E3.
    peel H as v2 w4 E4. peel H as v3 w5 E5. done_ret H.
    apply np_choice1_done in E1 as [_ E1]. apply np_choice1_done in E2 as [_ E2].
    apply np_randint_done in E3 as [_ E3]. apply np_randint_done in E4 as [_ E4].
    apply np_randint_done in E5 as [_ E5].
    split; [eexists; split; reflexivity | ].
    repeat (eapply quiet_trans; [eassumption | ]). apply quiet_refl. }
  destruct (String.eqb_spec et "review") as [->|N3].
  { peel H as r w1 E1. peel H as k w2 E2. peel H as s w3 E3. done_ret H.
    apply np_choice1_done in E1 as [_ E1]. apply np_randint_done in E2 as [_ E2].
    apply fake_sentence_done in E3.
    split; [eexists; split; reflexivity | ].
    repeat (eapply quiet_trans; [eassumption | ]). apply quiet_refl. }
  apply EVENT_TYPES_cases in Het as [-> | [-> | [-> | ->]]]; try congruence.
  simpl. peel H as k w1 E1. peel H as t w2 E2. peel H as n w3 E3. done_ret H.
  apply np_randint_done in E1 as [_ E1]. apply np_choice_norepl_done in E2 as (_ & _ & E2).
  apply np_poisson_done in E3 as [_ E3].
  split; [eexists; split; reflexivity | ].
  repeat (eapply quiet_trans; [eassumption | ]). apply quiet_refl.
Qed.

Lemma gen_metadata_total cfg et w :
  valid_probs cfg -> exists obj w', gen_metadata cfg et w = Done obj w'.
Proof.
  intros (_ & Hpl & Hdl & Hos & Hrt). unfold gen_metadata.
  destruct (String.eqb et "read_online").
  { unfold np_gamma at 1. unfold bind at 1 2. unfold np_next at 1, ret at 1.
    edestruct (np_choice1_total PLATFORMS (PLATFORM_PROBS cfg)) as (v & w1 & E);
      [discriminate | exact Hpl | ].
    rewrite (bind_done_intro _ _ _ _ _ E). eexists _, _. reflexivity. }
  destruct (String.eqb et "download").
  { edestruct (np_choice1_total DL_FORMATS (DL_FORMAT_PROBS cfg)) as (f & w1 & E1);
      [discriminate | exact Hdl | ].
    rewrite (bind_done_intro _ _ _ _ _ E1).
    edestruct (np_choice1_total DEVICE_OSES (DEVICE_OS_PROBS cfg)) as (o & w2 & E2);
      [discriminate | exact Hos | ].
    rewrite (bind_done_intro _ _ _ _ _ E2).
    eexists _, _. reflexivity. }
  destruct (String.eqb et "review").
  { edestruct (np_choice1_total RATINGS (RATING_PROBS cfg)) as (r & w1 & E1);
      [discriminate | exact Hrt | ].
    rewrite (bind_done_intro _ _ _ _ _ E1). eexists _, _. reflexivity. }
  destruct (np_randint_total 1 4 w) as (k & w1 & E1); [lia | ].
  rewrite (bind_done_intro _ _ _ _ _ E1).
  apply np_randint_done in E1 as [Hk _].
  destruct (np_choice_norepl_total SEARCH_VOCAB k w1) as (t & w2 & E2);
    [simpl; lia | ].
  rewrite (bind_done_intro _ _ _ _ _ E2). eexists _, _. reflexivity.
Qed.

(** ** From the loops to the shape of a chunk *)

Lemma emit_event_done fuel cfg g tok uid cols cur et cols' cur' w w' :
  In et EVENT_TYPES ->
  emit_event fuel cfg g tok uid (cols, cur) et w = Done (cols', cur') w' ->
  exists row gap,
    cols' = (cols ++ [row])%list /\ cur' = clamp_now g (cur + gap * usec) /\
    15 <= gap <= 1800 /\
    event_id row = token (ur_tape w) (ur_pos w) /\
    session_id row = tok /\ user_id row = uid /\
    event_timestamp row = cur / usec /\ event_type row = et /\
    id_drawn (BOOK_POOL_SIZE cfg) (BOOK_ID_MAP g) (book_id row) /\
    metadata_for et (event_metadata row) /\
    ur_pos w' = N.succ (ur_pos w) /\ evolves w w' /\ out_file w' = out_file w.
Proof.
  intros Het H. unfold emit_event in H.
  peel H as eid w1 E1. peel H as bid w2 E2. peel H as meta w3 E3. peel H as gap w4 E4.
  unfold ret in H. injection H as <- <- <-.
  apply uuid4_done in E1 as [-> ->].
  apply draw_zipf_id_drawn in E2 as [Hbid Q2].
  apply gen_metadata_done in E3 as [(kv & -> & Hkeys) Q3]; [ | exact Het].
  apply np_randint_done in E4 as [Hgap Q4].
  pose proof (quiet_trans _ _ _ Q2 (quiet_trans _ _ _ Q3 Q4)) as Q.
  eexists _, gap. split; [reflexivity | ]. split; [reflexivity | ].
  split; [lia | ]. simpl.
  do 5 (split; [reflexivity | ]). split; [exact Hbid | ].
  split; [exists kv; auto | ].
  split; [rewrite (q_ur _ _ Q); reflexivity | ].
  split; [ | rewrite (q_file _ _ Q); reflexivity].
  eapply evolves_trans; [apply with_ur_pos_evolves | apply (q_ev _ _ Q)].
Qed.

Lemma session_events_done fuel cfg g tok uid : forall etypes cols cur st w w',
  Forall (fun et => In et EVENT_TYPES) etypes ->
  for_each etypes (emit_event fuel cfg g tok uid) (cols, cur) w = Done st w' ->
  exists rows,
    fst st = (cols ++ rows)%list /\
    session_rows cfg g (ur_tape w) tok uid (ur_pos w) cur rows /\
    List.length rows = List.length etypes /\
    ur_pos w' = (ur_pos w + N.of_nat (List.length rows))%N /\
    evolves w w' /\ out_file w' = out_file w.
Proof.
  induction etypes as [|et etypes IH]; intros cols cur st w w' Hall H; simpl in H.
  - done_ret H. exists []. simpl. rewrite app_nil_r, N.add_0_r.
    splits; auto. constructor.
  - inversion Hall as [|? ? Het Hall']; subst.
    peel H as st1 w1 E1. destruct st1 as [cols1 cur1].
    apply emit_event_done in E1
      as (row & gap & -> & -> & Hgap & Hid & Hs & Hu & Ht & Hty & Hb & Hm & Hur & Hev & Hf);
      [ | exact Het].
    apply IH in H as (rows & Hst & Hrows & Hlen & Hur' & Hev' & Hf'); [ | exact Hall'].
    exists (row :: rows). rewrite Hst, <- app_assoc. simpl.
    split; [reflexivity | ]. split.
    + rewrite (ev_ur_tape _ _ Hev), Hur in Hrows.
      econstructor; eauto; rewrite Hty; assumption.
    + split; [congruence | ]. split; [lia | ].
      split; [eapply evolves_trans; eauto | congruence].
Qed.

Lemma rand_ts_done g c w w' :
  rand_ts_last_two_years g w = Done c w' ->
  (exists ts0, c = ts0 * usec /\ START_TS g <= ts0 <= END_TS g) /\ quiet w w'.
Proof.
  unfold rand_ts_last_two_years. intros H. peel H as ts w1 E. done_ret H.
  apply np_randint_done in E as [Hts Q]. split; [exists ts; split; [reflexivity | lia] | exact Q].
Qed.

Lemma rand_ts_total g w :
  START_TS g <= END_TS g -> exists c w', rand_ts_last_two_years g w = Done c w'.
Proof.
  intros H. unfold rand_ts_last_two_years.
  destruct (np_randint_total (START_TS g) (END_TS g + 1) w) as (ts & w1 & E); [lia | ].
  rewrite (bind_done_intro _ _ _ _ _ E). eexists _, _. reflexivity.
Qed.

Lemma gen_session_done fuel cfg g cols slen cols' w w' :
  gen_session fuel cfg g cols slen w = Done cols' w' ->
  exists b,
    cols' = (cols ++ b)%list /\
    session_block cfg g (ur_tape w) (ur_pos w) b /\
    List.length b = Z.to_nat slen /\
    ur_pos w' = (ur_pos w + 1 + N.of_nat (List.length b))%N /\
    evolves w w' /\ out_file w' = out_file w.
Proof.
  unfold gen_session. intros H.
  peel H as tok w1 E1. peel H as uid w2 E2. peel H as c w3 E3. peel H as ets w4 E4.
  peel H as st w5 E5. done_ret H.
  apply uuid4_done in E1 as [-> ->].
  apply draw_zipf_id_drawn in E2 as [Huid Q2].
  apply rand_ts_done in E3 as [(ts0 & -> & Hts) Q3].
  apply np_choice_done in E4 as (Hs & Hlen & Hin & Q4).
  pose proof (quiet_trans _ _ _ Q2 (quiet_trans _ _ _ Q3 Q4)) as Q.
  apply session_events_done in E5 as (rows & -> & Hrows & Hl & Hur & Hev & Hf); [ | exact Hin].
  rewrite (ev_ur_tape _ _ (q_ev _ _ Q)), (q_ur _ _ Q) in Hrows. simpl in Hrows.
  exists rows. split; [reflexivity | ]. split; [exists uid, ts0; auto | ].
  split; [congruence | ]. split.
  - rewrite Hur, (q_ur _ _ Q). simpl. lia.
  - split; [ | rewrite Hf, (q_file _ _ Q); reflexivity].
    eapply evolves_trans; [apply with_ur_pos_evolves | ].
    eapply evolves_trans; [apply (q_ev _ _ Q) | exact Hev].
Qed.

Lemma sessions_done fuel cfg g : forall lens cols cols' w w',
  for_each lens (gen_session fuel cfg g) cols w = Done cols' w' ->
  exists blocks,
    cols' = (cols ++ List.concat blocks)%list /\
    chunk_blocks cfg g (ur_tape w) (ur_pos w) lens blocks /\
    ur_pos w' = blocks_end (ur_pos w) blocks /\
    evolves w w' /\ out_file w' = out_file w.
Proof.
  induction lens as [|len lens IH]; intros cols cols' w w' H; simpl in H.
  - done_ret H. exists []. simpl. rewrite app_nil_r. splits; auto.
    + constructor.
    + unfold blocks_end. simpl. rewrite N.add_0_r. reflexivity.
  - peel H as cols1 w1 E1.
    apply gen_session_done in E1 as (b & -> & Hb & Hlen & Hur & Hev & Hf).
    apply IH in H as (blocks & -> & Hbs & Hend & Hev' & Hf').
    exists (b :: blocks). simpl. rewrite <- app_assoc.
    split; [reflexivity | ]. split.
    + rewrite (ev_ur_tape _ _ Hev), Hur in Hbs. constructor; assumption.
    + split; [ | split; [eapply evolves_trans; eauto | congruence]].
      rewrite Hend, Hur. unfold blocks_end. simpl. rewrite length_app. lia.
Qed.

(** The shape of every chunk [generate_chunk] returns. *)
Lemma generate_chunk_done fuel cfg g n df w w' :
  generate_chunk fuel cfg g n w = Done df w' ->
  exists lens blocks,
    Forall (fun l => 1 <= l <= MAX_SESSION_LEN) lens /\
    n <= Zsum lens /\
    ((lens = [] /\ n <= 0) \/
     (exists front l, lens = (front ++ [l])%list /\ Zsum front < n)) /\
    chunk_blocks cfg g (ur_tape w) (ur_pos w) lens blocks /\
    df = (if Z.of_nat (List.length (List.concat blocks)) >? n
          then iloc_to n (List.concat blocks) else List.concat blocks) /\
    ur_pos w' = blocks_end (ur_pos w) blocks /\
    evolves w w' /\ out_file w' = out_file w.
Proof.
  unfold generate_chunk, draw_session_lengths. intros H.
  peel H as sl w1 E1. peel H as all w2 E2. done_ret H. destruct sl as [lens tot].
  apply session_lengths_loop_done in E1 as (new & -> & -> & Hall & Hn & Hlast & Q);
    [ | unfold MAX_SESSION_LEN; lia].
  simpl in *. apply sessions_done in E2 as (blocks & -> & Hbs & Hend & Hev & Hf). simpl.
  rewrite (ev_ur_tape _ _ (q_ev _ _ Q)), (q_ur _ _ Q) in Hbs.
  rewrite (q_ur _ _ Q) in Hend.
  exists new, blocks. split; [exact Hall | ]. split; [lia | ]. split.
  { destruct Hlast as [[-> Hle]|(front & l & -> & Hlt)]; [left; auto | right].
    exists front, l. split; [reflexivity | lia]. }
  split; [exact Hbs | ]. split; [reflexivity | ]. split; [exact Hend | ].
  split; [eapply evolves_trans; [apply (q_ev _ _ Q) | exact Hev] | ].
  rewrite Hf. apply (q_file _ _ Q).
Qed.

(** ** Termination on a fair stream *)

Section Totality.
Variables (B fuel : nat) (cfg : Config) (g : Globals) (tape : N -> N).
Hypothesis Hfair : fair B (Z.min (USER_POOL_SIZE cfg) (BOOK_POOL_SIZE cfg)) tape.
Hypothesis Hfuel : (B <= fuel)%nat.
Hypothesis Hg : globals_ok cfg g.
Hypothesis Hprobs : valid_probs cfg.

Lemma emit_event_total tok uid st et w :
  np_tape w = tape ->
  exists st' w', emit_event fuel cfg g tok uid st et w = Done st' w'.
Proof.
  intros Ht. destruct st as [cols cur]. unfold emit_event.
  rewrite (bind_done_intro _ _ _ _ _ (uuid4_run w)).
  destruct (draw_zipf_id_total B fuel (BOOK_POOL_SIZE cfg) (27 # 20) (BOOK_ID_MAP g)
              (with_ur_pos w (N.succ (ur_pos w))))
    as (bid & w2 & E2);
    [ | exact Hfuel | reflexivity | rewrite (go_book_len _ _ Hg); lia | ].
  { simpl np_tape. rewrite Ht. eapply fair_weaken; [ | exact Hfair]. lia. }
  rewrite (bind_done_intro _ _ _ _ _ E2).
  destruct (gen_metadata_total cfg et w2 Hprobs) as (obj & w3 & E3).
  rewrite (bind_done_intro _ _ _ _ _ E3).
  destruct (np_randint_total 15 1801 w3) as (gap & w4 & E4); [lia | ].
  rewrite (bind_done_intro _ _ _ _ _ E4).
  eexists _, _. reflexivity.
Qed.

Lemma session_events_total tok uid etypes st w :
  Forall (fun et => In et EVENT_TYPES) etypes ->
  np_tape w = tape ->
  exists st' w', for_each etypes (emit_event fuel cfg g tok uid) st w = Done st' w'.
Proof.
  intros Hall Ht.
  destruct (for_each_total (emit_event fuel cfg g tok uid)
              (fun _ _ w => np_tape w = tape) etypes) with (s := st) (w := w)
    as (st' & w' & E & _); [ | exact Ht | eauto].
  intros pre et [cols cur] w0 Hin Ht0.
  destruct (emit_event_total tok uid (cols, cur) et w0 Ht0) as ([cols' cur'] & w1 & E).
  exists (cols', cur'), w1. split; [exact E | ].
  apply emit_event_done in E as (_ & _ & _ & _ & _ & _ & _ & _ & _ & _ & _ & _ & _ & Hev & _).
  - rewrite (ev_np_tape _ _ Hev). exact Ht0.
  - rewrite Forall_forall in Hall. apply Hall. exact Hin.
Qed.

Lemma gen_session_total cols slen w :
  0 <= slen -> np_tape w = tape ->
  exists cols' w', gen_session fuel cfg g cols slen w = Done cols' w'.
Proof.
  intros Hs Ht. unfold gen_session.
  rewrite (bind_done_intro _ _ _ _ _ (uuid4_run w)).
  destruct (draw_zipf_id_total B fuel (USER_POOL_SIZE cfg) (5 # 4) (USER_ID_MAP g)
              (with_ur_pos w (N.succ (ur_pos w))))
    as (uid & w2 & E2);
    [ | exact Hfuel | reflexivity | rewrite (go_user_len _ _ Hg); lia | ].
  { simpl np_tape. rewrite Ht. eapply fair_weaken; [ | exact Hfair]. lia. }
  rewrite (bind_done_intro _ _ _ _ _ E2).
  apply draw_zipf_id_drawn in E2 as [_ Q2].
  destruct (rand_ts_total g w2 (go_start_le _ _ Hg)) as (ts & w3 & E3).
  rewrite (bind_done_intro _ _ _ _ _ E3).
  apply rand_ts_done in E3 as [_ Q3].
  destruct Hprobs as (Hev & _).
  destruct (np_choice_total EVENT_TYPES slen (EVENT_PROBS cfg) w3) as (ets & w4 & E4);
    [discriminate | exact Hev | exact Hs | ].
  rewrite (bind_done_intro _ _ _ _ _ E4).
  apply np_choice_done in E4 as (_ & _ & Hin & Q4).
  pose proof (quiet_trans _ _ _ Q2 (quiet_trans _ _ _ Q3 Q4)) as Q.
  destruct (session_events_total (token (ur_tape w) (ur_pos w)) uid ets
              (cols, ts) w4 Hin) as (st' & w5 & E5).
  { rewrite (ev_np_tape _ _ (q_ev _ _ Q)). exact Ht. }
  rewrite (bind_done_intro _ _ _ _ _ E5). eexists _, _. reflexivity.
Qed.

Lemma sessions_total lens cols w :
  Forall (fun l => 0 <= l) lens -> np_tape w = tape ->
  exists cols' w', for_each lens (gen_session fuel cfg g) cols w = Done cols' w'.
Proof.
  intros Hall Ht.
  destruct (for_each_total (gen_session fuel cfg g)
              (fun _ _ w => np_tape w = tape) lens) with (s := cols) (w := w)
    as (cols' & w' & E & _); [ | exact Ht | eauto].
  intros pre len cols0 w0 Hin Ht0.
  destruct (gen_session_total cols0 len w0) as (cols1 & w1 & E); [ | exact Ht0 | ].
  { rewrite Forall_forall in Hall. apply Hall. exact Hin. }
  exists cols1, w1. split; [exact E | ].
  apply gen_session_done in E as (_ & _ & _ & _ & _ & Hev & _).
  rewrite (ev_np_tape _ _ Hev). exact Ht0.
Qed.

Lemma generate_chunk_total n w :
  (Z.to_nat n <= fuel)%nat -> np_tape w = tape ->
  exists df w', generate_chunk fuel cfg g n w = Done df w'.
Proof.
  intros Hn Ht. unfold generate_chunk, draw_session_lengths.
  destruct (session_lengths_loop_total n GEOM_P MAX_SESSION_LEN fuel [] 0 w)
    as ([lens tot] & w1 & E1);
    [exact GEOM_P_valid | unfold MAX_SESSION_LEN; lia | lia | ].
  rewrite (bind_done_intro _ _ _ _ _ E1).
  apply session_lengths_loop_done in E1 as (new & -> & _ & Hall & _ & _ & Q);
    [ | unfold MAX_SESSION_LEN; lia].
  destruct (sessions_total new [] w1) as (cols & w2 & E2).
  - eapply Forall_impl; [ | exact Hall]. simpl. intros; lia.
  - rewrite (ev_np_tape _ _ (q_ev _ _ Q)). exact Ht.
  - simpl. rewrite (bind_done_intro _ _ _ _ _ E2). eexists _, _. reflexivity.
Qed.
End Totality.

Example sample_import :
  module_init tiny_config sample_env (boot sample_env) = Done sample_globals sample_world.
Proof. reflexivity. Qed.

(** ** Row count of a chunk *)

Lemma chunk_blocks_lengths cfg g ur p lens blocks :
  chunk_blocks cfg g ur p lens blocks ->
  Forall2 (fun l b => List.length b = Z.to_nat l) lens blocks.
Proof. induction 1; constructor; auto. Qed.

Lemma concat_length_sum (lens : list Z) (blocks : list (list Event)) :
  Forall2 (fun l b => List.length b = Z.to_nat l) lens blocks ->
  Forall (fun l => 0 <= l) lens ->
  Z.of_nat (List.length (List.concat blocks)) = Zsum lens.
Proof.
  induction 1 as [|l b lens blocks Hlb _ IH]; intros Hpos; simpl; [reflexivity | ].
  inversion Hpos; subst. rewrite length_app, Nat2Z.inj_add, IH by assumption. lia.
Qed.

Lemma iloc_to_nonneg {A} n (df : list A) : 0 <= n -> iloc_to n df = firstn (Z.to_nat n) df.
Proof. intros H. unfold iloc_to. destruct (Z.ltb_spec n 0); [lia | reflexivity]. Qed.

(** A completed call with [0 <= n] returns [n] rows. *)
Lemma generate_chunk_row_count_aux fuel cfg g n df w w' :
  0 <= n -> generate_chunk fuel cfg g n w = Done df w' -> Z.of_nat (List.length df) = n.
Proof.
  intros HN H.
  apply generate_chunk_done in H as (lens & blocks & Hall & Hsum & _ & Hbs & -> & _).
  apply chunk_blocks_lengths in Hbs.
  assert (Hpos : Forall (fun l => 0 <= l) lens)
    by (eapply Forall_impl; [ | exact Hall]; simpl; intros; lia).
  pose proof (concat_length_sum _ _ Hbs Hpos) as Hlen.
  destruct (Z.gtb_spec (Z.of_nat (List.length (List.concat blocks))) n).
  - rewrite iloc_to_nonneg by exact HN. rewrite length_firstn. lia.
  - lia.
Qed.

(** The plan a completed call follows: the lengths are those
    [draw_session_lengths] returns on the state the call starts in, and
    the sessions are materialized one per length. *)
Lemma generate_chunk_plan fuel cfg g n df w w' :
  generate_chunk fuel cfg g n w = Done df w' ->
  exists lens tot w1 blocks,
    draw_session_lengths fuel n GEOM_P MAX_SESSION_LEN w = Done (lens, tot) w1 /\
    tot = Zsum lens /\
    Forall (fun l => 1 <= l <= MAX_SESSION_LEN) lens /\
    n <= tot /\
    ((lens = [] /\ n <= 0) \/
     (exists front l, lens = (front ++ [l])%list /\ Zsum front < n)) /\
    chunk_blocks cfg g (ur_tape w) (ur_pos w) lens blocks /\
    df = (if Z.of_nat (List.length (List.concat blocks)) >? n
          then iloc_to n (List.concat blocks) else List.concat blocks).
Proof.
  unfold generate_chunk. intros H.
  peel H as sl w1 E1. peel H as all w2 E2. done_ret H. destruct sl as [lens tot].
  exists lens, tot, w1. pose proof E1 as E1'. unfold draw_session_lengths in E1'.
  apply session_lengths_loop_done in E1' as (new & -> & -> & Hall & Hn & Hlast & Q);
    [ | unfold MAX_SESSION_LEN; lia].
  simpl in *. apply sessions_done in E2 as (blocks & -> & Hbs & _). simpl.
  rewrite (ev_ur_tape _ _ (q_ev _ _ Q)), (q_ur _ _ Q) in Hbs.
  exists blocks. split; [exact E1 | ]. split; [reflexivity | ]. split; [exact Hall | ].
  split; [lia | ]. split.
  { destruct Hlast as [[-> Hle]|(front & l & -> & Hlt)]; [left; auto | right].
    exists front, l. split; [reflexivity | lia]. }
  split; [exact Hbs | reflexivity].
Qed.

Lemma geometric_at_advance w i : geometric_at (np_advance w 1) i = geometric_at w (S i).
Proof.
  unfold geometric_at, np_advance. simpl np_tape. simpl np_pos.
  do 3 f_equal. lia.
Qed.

(** Each planned length is the next geometric variate, cut down to the
    cap. *)
Lemma session_lengths_loop_draws n p max_len : forall fuel lengths total lens tot w w',
  session_lengths_loop fuel n p max_len lengths total w = Done (lens, tot) w' ->
  exists new,
    lens = (lengths ++ new)%list /\
    new = map (fun i => Z.min max_len (geometric_at w i)) (seq 0 (List.length new)).
Proof.
  induction fuel as [|fuel IH]; intros lengths total lens tot w w' H; simpl in H;
    destruct (total <? n); try discriminate;
    try (unfold ret in H; injection H as <- _ _; exists [];
         rewrite app_nil_r; split; reflexivity).
  peel H as l w1 E.
  assert (Hl : l = geometric_at w 0 /\ w1 = np_advance w 1).
  { unfold np_geometric in E. destruct (_ || _); [discriminate | ].
    peel E as raw w2 E2. done_ret E. apply np_next_done in E2 as [-> ->].
    split; [ | apply with_np_succ].
    unfold geometric_at. rewrite N.add_0_r. reflexivity. }
  destruct Hl as [-> ->].
  apply IH in H as (new & -> & Hnew).
  exists (Z.min max_len (geometric_at w 0) :: new). rewrite <- app_assoc. split.
  - f_equal. simpl. f_equal. destruct (Z.gtb_spec (geometric_at w 0) max_len); lia.
  - simpl. f_equal. rewrite <- seq_shift, map_map. rewrite Hnew at 1.
    apply map_ext. intros i. rewrite geometric_at_advance. reflexivity.
Qed.

Lemma Forall2_snoc_inv {A B} (R : A -> B -> Prop) (front : list A) (l : A) (bs : list B) :
  Forall2 R (front ++ [l]) bs ->
  exists earlier last, bs = (earlier ++ [last])%list /\ Forall2 R front earlier /\ R l last.
Proof.
  intros H. apply Forall2_app_inv_l in H as (earlier & rest & Hf & Hl & ->).
  inversion Hl as [|? last ? rest' Hr Hnil]; subst. inversion Hnil; subst.
  exists earlier, last. auto.
Qed.

(** C6.  For every requested row count [N >= 0], a call of
    [generate_chunk] that completes returns exactly [N] rows.  The
    lengths it plans are the ones [draw_session_lengths] returns for [N]
    on the state the call starts in: the successive geometric variates,
    each cut down to 20, so each lies in [1, 20], and their total is the
    first running total that reaches [N].  The sessions are
    materialized one per planned length, as many rows as planned
    ([chunk_blocks]), and the batch is the first [N] rows of them: every
    session but the last in full, and a non-empty prefix of the last one.
    On a stream in which every window of [B] raw words holds an
    acceptable rank, with the probability tables valid, the call does
    complete once the fuel covers [B] and [N]. *)
Theorem generate_chunk_row_count fuel cfg g N w :
  0 <= N ->
  (forall df w',
      generate_chunk fuel cfg g N w = Done df w' ->
      Z.of_nat (List.length df) = N /\
      exists lens tot w1 blocks,
        draw_session_lengths fuel N GEOM_P MAX_SESSION_LEN w = Done (lens, tot) w1 /\
        lens = map (fun i => Z.min 20 (geometric_at w i)) (seq 0 (List.length lens)) /\
        tot = Zsum lens /\
        Forall (fun l => 1 <= l <= 20) lens /\
        N <= tot /\
        chunk_blocks cfg g (ur_tape w) (ur_pos w) lens blocks /\
        Forall2 (fun l b => Z.of_nat (List.length b) = l) lens blocks /\
        df = firstn (Z.to_nat N) (List.concat blocks) /\
        ((N = 0 /\ lens = [] /\ blocks = [] /\ df = []) \/
         (exists front l earlier kept dropped,
             lens = (front ++ [l])%list /\ Zsum front < N /\
             blocks = (earlier ++ [(kept ++ dropped)%list])%list /\
             Forall2 (fun l b => Z.of_nat (List.length b) = l) front earlier /\
             kept <> [] /\
             df = (List.concat earlier ++ kept)%list))) /\
  (forall B,
      fair B (Z.min (USER_POOL_SIZE cfg) (BOOK_POOL_SIZE cfg)) (np_tape w) ->
      (B <= fuel)%nat -> (Z.to_nat N <= fuel)%nat ->
      globals_ok cfg g -> valid_probs cfg ->
      exists df w', generate_chunk fuel cfg g N w = Done df w').
Proof.
  intros HN. split.
  - intros df w' H.
    apply generate_chunk_plan in H
      as (lens & tot & w1 & blocks & Eplan & -> & Hall & Hsum & Hlast & Hbs & ->).
    pose proof (chunk_blocks_lengths _ _ _ _ _ _ Hbs) as Hlens.
    assert (Hpos : Forall (fun l => 0 <= l) lens)
      by (eapply Forall_impl; [ | exact Hall]; simpl; intros; lia).
    pose proof (concat_length_sum _ _ Hlens Hpos) as Hlen.
    assert (Hlens' : Forall2 (fun l b => Z.of_nat (List.length b) = l) lens blocks).
    { clear -Hlens Hpos. induction Hlens; inversion Hpos; subst; constructor; auto. lia. }
    assert (Hdf : (if Z.of_nat (List.length (List.concat blocks)) >? N
                   then iloc_to N (List.concat blocks) else List.concat blocks)
                  = firstn (Z.to_nat N) (List.concat blocks)).
    { destruct (Z.gtb_spec (Z.of_nat (List.length (List.concat blocks))) N).
      - apply iloc_to_nonneg. exact HN.
      - symmetry. apply firstn_all2. lia. }
    rewrite Hdf. split; [rewrite length_firstn; lia | ].
    exists lens, (Zsum lens), w1, blocks.
    split; [exact Eplan | ]. split.
    { pose proof Eplan as Ed. unfold draw_session_lengths in Ed.
      apply session_lengths_loop_draws in Ed as (new & -> & Hnew). exact Hnew. }
    split; [reflexivity | ]. split; [exact Hall | ].
    split; [exact Hsum | ]. split; [exact Hbs | ]. split; [exact Hlens' | ].
    split; [reflexivity | ].
    destruct Hlast as [[-> Hle]|(front & l & -> & Hlt)].
    + left. inversion Hlens'; subst. simpl. rewrite firstn_nil.
      repeat split; auto. lia.
    + right. apply Forall2_snoc_inv in Hlens' as (earlier & last & -> & Hfront & Hl).
      assert (Hfpos : Forall (fun l => 0 <= l) front).
      { apply Forall_app in Hpos as [Hf _]. exact Hf. }
      assert (Hearlier : Z.of_nat (List.length (List.concat earlier)) = Zsum front).
      { clear -Hfront Hfpos. induction Hfront as [|x b ls bs Hxb _ IH]; [reflexivity | ].
        inversion Hfpos; subst. simpl. rewrite length_app, Nat2Z.inj_add, IH by assumption.
        lia. }
      rewrite Zsum_app in Hsum. simpl in Hsum.
      set (k := (Z.to_nat N - List.length (List.concat earlier))%nat).
      exists front, l, earlier, (firstn k last), (skipn k last).
      rewrite firstn_skipn. split; [reflexivity | ]. split; [exact Hlt | ].
      split; [reflexivity | ]. split; [exact Hfront | ].
      assert (Hk : (1 <= k <= List.length last)%nat) by (unfold k; lia).
      split.
      * intros Hnil. apply (f_equal (@List.length Event)) in Hnil.
        rewrite length_firstn in Hnil. simpl in Hnil. lia.
      * rewrite concat_app. simpl. rewrite app_nil_r, firstn_app.
        fold k. rewrite firstn_all2 by lia. reflexivity.
  - intros B Hfair HB Hfuel Hg Hp.
    eapply generate_chunk_total; eauto.
Qed.

Lemma generate_chunk_row_count_witness :
  0 <= 6 /\
  exists df w', generate_chunk 50 tiny_config sample_globals 6 sample_world = Done df w' /\
                Z.of_nat (List.length df) = 6.
Proof.
  split; [lia | ].
  destruct (generate_chunk 50 tiny_config sample_globals 6 sample_world) as [df w'| |] eqn:E;
    [ | vm_compute in E; discriminate | vm_compute in E; discriminate].
  exists df, w'. split; [reflexivity | ].
  apply (proj1 (generate_chunk_row_count 50 tiny_config sample_globals 6 sample_world
                  ltac:(lia)) df w' E).
Defined.

(** ** Rows of a chunk *)

Lemma session_rows_ok cfg g ur tok uid p cur rows :
  id_drawn (USER_POOL_SIZE cfg) (USER_ID_MAP g) uid ->
  session_rows cfg g ur tok uid p cur rows ->
  Forall (row_ok cfg g) rows.
Proof.
  intros Hu. induction 1 as [|p cur row gap rest Hid Hs Huid Ht Hty Hb Hm Hgap _ IH];
    constructor; auto.
  constructor; auto. rewrite Huid. exact Hu.
Qed.

Lemma chunk_blocks_ok cfg g ur p lens blocks :
  chunk_blocks cfg g ur p lens blocks -> Forall (row_ok cfg g) (List.concat blocks).
Proof.
  induction 1 as [|p len lens b bs (uid & ts0 & Hu & _ & Hrows) _ _ IH]; simpl.
  - constructor.
  - apply Forall_app. split; [eapply session_rows_ok; eauto | exact IH].
Qed.

Lemma firstn_incl {A} k (l : list A) : incl (firstn k l) l.
Proof.
  intros x Hx. rewrite <- (firstn_skipn k l). apply in_or_app. left. exact Hx.
Qed.

Lemma iloc_to_incl {A} n (df : list A) : incl (iloc_to n df) df.
Proof. unfold iloc_to. destruct (n <? 0); apply firstn_incl. Qed.

Lemma generate_chunk_incl fuel cfg g n df w w' :
  generate_chunk fuel cfg g n w = Done df w' ->
  exists lens blocks,
    chunk_blocks cfg g (ur_tape w) (ur_pos w) lens blocks /\ incl df (List.concat blocks).
Proof.
  intros H. apply generate_chunk_done in H as (lens & blocks & _ & _ & _ & Hbs & -> & _).
  exists lens, blocks. split; [exact Hbs | ].
  destruct (_ >? n); [apply iloc_to_incl | apply incl_refl].
Qed.

Lemma generate_chunk_rows_ok fuel cfg g n df w w' :
  generate_chunk fuel cfg g n w = Done df w' -> Forall (row_ok cfg g) df.
Proof.
  intros H. apply generate_chunk_incl in H as (lens & blocks & Hbs & Hincl).
  apply chunk_blocks_ok in Hbs. rewrite Forall_forall in *. auto.
Qed.

(** ** Module initialisation *)

Lemma module_init_done cfg env g w0 :
  module_init cfg env (boot env) = Done g w0 ->
  NOW g = wall_clock env /\
  START g = NOW g - timedelta_days 730 /\
  START_TS g = int_timestamp (START g) /\
  END_TS g = int_timestamp (NOW g) /\
  Permutation (np_arange 1 (USER_POOL_SIZE cfg + 1)) (USER_ID_MAP g) /\
  Permutation (np_arange 1 (BOOK_POOL_SIZE cfg + 1)) (BOOK_ID_MAP g) /\
  np_tape w0 = mt19937 env (SEED cfg) /\
  fk_tape w0 = faker_text env (SEED cfg) /\
  ur_tape w0 = os_entropy env /\ ur_pos w0 = 0%N /\
  out_file w0 = existing_file env.
Proof.
  unfold module_init. intros H.
  peel H as u1 w1 E1. peel H as u2 w2 E2. peel H as now w3 E3.
  peel H as umap w4 E4. peel H as bmap w5 E5. done_ret H. simpl.
  unfold np_random_seed in E1. injection E1 as E1.
  unfold Faker_seed in E2. injection E2 as E2.
  unfold _now_utc in E3. injection E3 as <- <-. subst w1 w2.
  apply np_permutation_done in E4 as [P4 Q4]. apply np_permutation_done in E5 as [P5 Q5].
  pose proof (quiet_trans _ _ _ Q4 Q5) as Q.
  splits; auto.
  - rewrite (ev_np_tape _ _ (q_ev _ _ Q)). reflexivity.
  - rewrite (ev_fk_tape _ _ (q_ev _ _ Q)). reflexivity.
  - rewrite (ev_ur_tape _ _ (q_ev _ _ Q)). reflexivity.
  - rewrite (q_ur _ _ Q). reflexivity.
  - rewrite (q_file _ _ Q). reflexivity.
Qed.

Lemma id_drawn_range max_id mapping v :
  Permutation (np_arange 1 (max_id + 1)) mapping ->
  id_drawn max_id mapping v -> 1 <= v <= max_id.
Proof.
  intros Hp (r & _ & Hn). apply nth_error_In in Hn.
  apply (Permutation_in _ (Permutation_sym Hp)) in Hn.
  apply np_arange_In in Hn. lia.
Qed.

(** C5.  A completed [draw_zipf_id] read [k + 1] ranks: the first [k]
    each exceeded [max_id] and were thrown away (none was replaced by
    [max_id]), the last lies in [1, max_id] and the result is its image
    under [mapping].  The two mappings the module builds are permutations
    of [1, pool_size], and so every row of every chunk has
    [1 <= user_id <= USER_POOL_SIZE] and [1 <= book_id <= BOOK_POOL_SIZE]. *)
Theorem identifiers_in_pool cfg env g w0 :
  module_init cfg env (boot env) = Done g w0 ->
  (forall fuel max_id a mapping v w w',
      draw_zipf_id fuel max_id a mapping w = Done v w' ->
      exists k, (k <= fuel)%nat /\
        (forall i, (i < k)%nat -> max_id < rank_at w i) /\
        1 <= rank_at w k <= max_id /\
        nth_error mapping (Z.to_nat (rank_at w k - 1)) = Some v /\
        w' = np_advance w (N.of_nat (S k))) /\
  Permutation (np_arange 1 (USER_POOL_SIZE cfg + 1)) (USER_ID_MAP g) /\
  Permutation (np_arange 1 (BOOK_POOL_SIZE cfg + 1)) (BOOK_ID_MAP g) /\
  (forall fuel n w df w',
      generate_chunk fuel cfg g n w = Done df w' ->
      Forall (fun r => 1 <= user_id r <= USER_POOL_SIZE cfg /\
                       1 <= book_id r <= BOOK_POOL_SIZE cfg) df).
Proof.
  intros Hinit.
  apply module_init_done in Hinit as (_ & _ & _ & _ & Pu & Pb & _).
  split; [ | split; [exact Pu | split; [exact Pb | ]]].
  - intros fuel max_id a mapping v w w' H.
    apply draw_zipf_id_done in H as (k & Hk & Hrej & Hle & Hn & Hw).
    exists k. splits; auto. unfold rank_at. lia.
  - intros fuel n w df w' H. apply generate_chunk_rows_ok in H.
    eapply Forall_impl; [ | exact H]. intros r [Hu Hb _ _].
    split; eapply id_drawn_range; eauto.
Qed.

Lemma identifiers_in_pool_witness :
  module_init tiny_config sample_env (boot sample_env) = Done sample_globals sample_world /\
  exists df w',
    generate_chunk 50 tiny_config sample_globals 6 sample_world = Done df w' /\
    Forall (fun r => 1 <= user_id r <= 3 /\ 1 <= book_id r <= 2) df.
Proof.
  split; [reflexivity | ].
  destruct (generate_chunk 50 tiny_config sample_globals 6 sample_world) as [df w'| |] eqn:E;
    [ | vm_compute in E; discriminate | vm_compute in E; discriminate].
  exists df, w'. split; [reflexivity | ].
  exact (proj2 (proj2 (proj2 (identifiers_in_pool tiny_config sample_env sample_globals
                                sample_world eq_refl)))
           50%nat 6 sample_world df w' E).
Defined.

(** ** Timestamps *)

(** Scaling by a power of two above 500000 leaves room for the
    microseconds: the rounded mantissa stays within the second. *)
Lemma round_scaled a P :
  0 <= a -> 524288 <= P -> round_half_even (a * P) 1000000 / P = a / 1000000.
Proof.
  intros Ha HP. unfold round_half_even.
  pose proof (Z.div_mod (a * P) 1000000 ltac:(lia)) as HA.
  pose proof (Z.mod_pos_bound (a * P) 1000000 ltac:(lia)) as Hr.
  pose proof (Z.div_mod a 1000000 ltac:(lia)) as Ha'.
  pose proof (Z.mod_pos_bound a 1000000 ltac:(lia)) as Hk.
  set (q := a * P / 1000000) in *. set (r := (a * P) mod 1000000) in *.
  set (n := a / 1000000) in *. set (k := a mod 1000000) in *.
  assert (Hq : P * n <= q < P * n + P) by nia.
  assert (Hup : 1000000 <= 2 * r -> q + 1 < P * n + P) by nia.
  symmetry. apply Z.div_unique with
    (r := (match 2 * r ?= 1000000 with
           | Lt => q
           | Gt => q + 1
           | Eq => if Z.even q then q else q + 1
           end) - P * n); [ | lia].
  left. destruct (Z.compare_spec (2 * r) 1000000); [destruct (Z.even q) | | ]; lia.
Qed.

Lemma int_truediv_pos_usec a :
  0 < a < late_clock -> int_truediv_pos a usec = a / usec.
Proof.
  unfold late_clock, usec. intros Ha. unfold int_truediv_pos.
  change (Z.log2 1000000) with 19.
  assert (Hl : Z.log2 a < 54).
  { apply Z.log2_lt_pow2; [lia | ]. change (2 ^ 54) with 18014398509481984.
    change (2 ^ 34) with 17179869184 in Ha. lia. }
  pose proof (Z.log2_nonneg a) as Hl0.
  set (s0 := 52 - (Z.log2 a - 19)) in *.
  assert (Hs0 : 18 <= s0) by (unfold s0; lia).
  destruct (Z.leb_spec 0 s0) as [_|]; [ | lia].
  assert (Hs : exists s, 19 <= s /\
            (if a * 2 ^ s0 <? 2 ^ 52 * 1000000 then s0 + 1 else s0) = s).
  { destruct (Z.ltb_spec (a * 2 ^ s0) (2 ^ 52 * 1000000)) as [Hlt|Hge].
    - exists (s0 + 1). split; [lia | reflexivity].
    - exists s0. split; [ | reflexivity].
      destruct (Z.eq_dec s0 18) as [E|]; [ | lia]. exfalso. rewrite E in Hge.
      change (2 ^ 18) with 262144 in Hge. change (2 ^ 52) with 4503599627370496 in Hge.
      change (2 ^ 34) with 17179869184 in Ha. lia. }
  destruct Hs as (s & Hs & ->).
  destruct (Z.leb_spec 0 s) as [_|]; [ | lia].
  apply round_scaled; [lia | ].
  change 524288 with (2 ^ 19). apply Z.pow_le_mono_r; lia.
Qed.

(** Before [late_clock] the float of seconds keeps the whole second. *)
Lemma int_timestamp_exact d :
  - late_clock < d < late_clock -> int_timestamp d = Z.quot d usec.
Proof.
  intros Hd. unfold int_timestamp, int_truediv.
  destruct (Z.eqb_spec d 0) as [->|Hnz]; [reflexivity | ].
  destruct (Z.ltb_spec d 0) as [Hneg|Hpos].
  - rewrite int_truediv_pos_usec by lia.
    rewrite <- Z.quot_div_nonneg by (unfold usec; lia).
    rewrite Z.quot_opp_l by (unfold usec; lia). lia.
  - rewrite int_truediv_pos_usec by lia.
    symmetry. apply Z.quot_div_nonneg; unfold usec; lia.
Qed.

(** On sample instants [int_timestamp] is the truncated binary64
    quotient of the library; at the last microsecond of the second
    [2 ^ 34] it is the next second. *)
Example int_timestamp_is_binary64 :
  forallb (fun d => int_timestamp d =? binary64_timestamp d)
          [1; 999999; 1000000; 1793700000500000; - 1500000; 9007199254740993;
           17116797184999999; 17179869183999999; 17179869184999999;
           17179869185000001; 253402300799999999] = true /\
  int_timestamp 17179869184999999 = 17179869185.
Proof. split; vm_compute; reflexivity. Qed.

Lemma int_timestamp_nonneg d :
  0 <= d < late_clock -> int_timestamp d * usec <= d < (int_timestamp d + 1) * usec.
Proof.
  intros Hd. rewrite int_timestamp_exact by (unfold late_clock, usec in *; lia).
  unfold usec. rewrite Z.quot_div_nonneg by lia.
  pose proof (Z.div_mod d 1000000 ltac:(lia)).
  pose proof (Z.mod_pos_bound d 1000000 ltac:(lia)). lia.
Qed.

Lemma int_timestamp_near d :
  - late_clock < d < late_clock -> d - usec < int_timestamp d * usec.
Proof.
  intros Hd. rewrite int_timestamp_exact by exact Hd. unfold usec.
  pose proof (Z.quot_rem' d 1000000).
  destruct (Z_lt_le_dec d 0) as [Hneg|Hpos].
  - pose proof (Z.rem_nonpos d 1000000 ltac:(lia) ltac:(lia)). lia.
  - pose proof (Z.rem_bound_pos d 1000000 Hpos ltac:(lia)). lia.
Qed.

Lemma int_timestamp_mono a b :
  - late_clock < a -> a <= b -> b < late_clock -> int_timestamp a <= int_timestamp b.
Proof.
  intros Ha H Hb. rewrite !int_timestamp_exact by lia.
  unfold usec. apply Z.quot_le_mono; lia.
Qed.

Lemma late_clock_bounds : timedelta_days 730 < late_clock /\ 0 < late_clock.
Proof. unfold timedelta_days, late_clock, usec. split; reflexivity. Qed.

Lemma session_rows_window cfg g ur tok uid p cur rows :
  START_TS g * usec <= NOW g ->
  START_TS g * usec <= cur <= NOW g ->
  session_rows cfg g ur tok uid p cur rows ->
  Forall (fun r => START_TS g <= event_timestamp r /\ event_timestamp r * usec <= NOW g) rows.
Proof.
  intros Hwin Hcur Hrows. induction Hrows
    as [|p cur row gap rest Hid Hs Huid Ht Hty Hb Hm Hgap _ IH]; constructor.
  - rewrite Ht. unfold usec in *. split.
    + apply Z.div_le_lower_bound; lia.
    + pose proof (Z.mul_div_le cur 1000000 ltac:(lia)). lia.
  - apply IH. unfold clamp_now, usec in *.
    destruct (Z.gtb_spec (cur + gap * 1000000) (NOW g)); lia.
Qed.

Lemma chunk_blocks_window cfg g ur p lens blocks :
  START_TS g <= END_TS g -> END_TS g * usec <= NOW g ->
  chunk_blocks cfg g ur p lens blocks ->
  Forall (fun r => START_TS g <= event_timestamp r /\ event_timestamp r * usec <= NOW g)
         (List.concat blocks).
Proof.
  intros Hle Hend.
  induction 1 as [|p len lens b bs (uid & ts0 & _ & Hts & Hrows) _ _ IH]; simpl.
  - constructor.
  - apply Forall_app. split; [ | exact IH].
    eapply session_rows_window; [ | | exact Hrows]; unfold usec in *; nia.
Qed.

(** C4 (as the code has it).  The window is anchored at whole seconds:
    with [START_TS] and [END_TS] the truncated float seconds of [START =
    NOW - 730 days] and [NOW], and the clock read between the epoch and
    [late_clock], every row of every chunk has [START_TS <=
    event_timestamp <= END_TS], hence [event_timestamp <= NOW] and
    [event_timestamp > START - 1 second].  The rows come in sessions whose
    first timestamp is a whole second drawn from [START_TS, END_TS] and
    whose cursor advances by a gap of 15 to 1800 seconds, clamped to
    [NOW] ([chunk_blocks]). *)
Theorem timestamps_in_window cfg env g w0 :
  module_init cfg env (boot env) = Done g w0 ->
  0 <= wall_clock env < late_clock ->
  forall fuel n w df w',
    generate_chunk fuel cfg g n w = Done df w' ->
    (exists lens blocks,
        chunk_blocks cfg g (ur_tape w) (ur_pos w) lens blocks /\
        incl df (List.concat blocks)) /\
    Forall (fun r => START_TS g <= event_timestamp r <= END_TS g /\
                     START g - usec < event_timestamp r * usec <= NOW g) df.
Proof.
  intros Hinit Hclock fuel n w df w' H.
  apply module_init_done in Hinit as (Hnow & Hstart & Hsts & Hets & _).
  pose proof (generate_chunk_incl _ _ _ _ _ _ _ H) as (lens & blocks & Hbs & Hincl).
  split; [exists lens, blocks; auto | ].
  pose proof late_clock_bounds as [Hdays Hlate].
  assert (HN : 0 <= NOW g < late_clock) by lia.
  assert (HS : - late_clock < START g < late_clock).
  { rewrite Hstart. unfold timedelta_days, usec in *. lia. }
  pose proof (int_timestamp_nonneg _ HN) as Hend. rewrite <- Hets in Hend.
  assert (Hle : START_TS g <= END_TS g).
  { rewrite Hsts, Hets. apply int_timestamp_mono; try lia. rewrite Hstart.
    unfold timedelta_days, usec. lia. }
  pose proof (int_timestamp_near (START g) HS) as Hnear. rewrite <- Hsts in Hnear.
  apply (chunk_blocks_window _ _ _ _ _ _ Hle (proj1 Hend)) in Hbs.
  rewrite Forall_forall in *. intros r Hr. specialize (Hbs r (Hincl r Hr)).
  unfold usec in *. lia.
Qed.

Lemma timestamps_in_window_witness :
  module_init tiny_config sample_env (boot sample_env) = Done sample_globals sample_world /\
  0 <= wall_clock sample_env < late_clock /\
  exists df w',
    generate_chunk 50 tiny_config sample_globals 6 sample_world = Done df w' /\
    Forall (fun r => 1730628000 <= event_timestamp r <= 1793700000) df.
Proof.
  assert (Hclock : 0 <= wall_clock sample_env < late_clock)
    by (unfold late_clock, usec; simpl; lia).
  split; [reflexivity | ]. split; [exact Hclock | ].
  destruct (generate_chunk 50 tiny_config sample_globals 6 sample_world) as [df w'| |] eqn:E;
    [ | vm_compute in E; discriminate | vm_compute in E; discriminate].
  exists df, w'. split; [reflexivity | ].
  pose proof (timestamps_in_window tiny_config sample_env sample_globals sample_world
                eq_refl Hclock 50%nat 6 sample_world df w' E) as [_ H].
  eapply Forall_impl; [ | exact H]. simpl. intros r Hr. exact (proj1 Hr).
Defined.

(** C4 as stated fails: read the clock at half past a second and let the
    first session draw the earliest second of the window; its row lies
    half a second before [START]. *)
Lemma timestamp_before_START :
  exists g w0 df w',
    module_init tiny_config zero_env (boot zero_env) = Done g w0 /\
    generate_chunk 1 tiny_config g 1 w0 = Done df w' /\
    START g = wall_clock zero_env - timedelta_days 730 /\
    Exists (fun r => event_timestamp r * usec < START g) df.
Proof.
  eexists _, _, _, _.
  split; [vm_compute; reflexivity | ]. split; [vm_compute; reflexivity | ].
  split; [reflexivity | ]. apply Exists_cons_hd. vm_compute. reflexivity.
Qed.

(** Why the clock must be read before [late_clock]: at the last
    microsecond of the second [2 ^ 34] the float of [NOW] rounds up, so
    [END_TS] is the second after [NOW] and the window is a second wider;
    a session that draws [END_TS] then emits a row after [NOW], and its
    next row, clamped to [NOW], carries the earlier timestamp. *)
Example late_clock_run :
  exists g w0 df w' a b,
    module_init tiny_config late_env (boot late_env) = Done g w0 /\
    END_TS g - START_TS g = 63072001 /\
    NOW g < END_TS g * usec /\
    generate_chunk 5 tiny_config g 2 w0 = Done df w' /\
    nth_error df 0 = Some a /\ nth_error df 1 = Some b /\
    session_id a = session_id b /\
    NOW g < event_timestamp a * usec /\
    event_timestamp b < event_timestamp a.
Proof.
  eexists _, _, _, _, _, _.
  split; [vm_compute; reflexivity | ]. split; [reflexivity | ]. split; [reflexivity | ].
  split; [vm_compute; reflexivity | ].
  split; [reflexivity | ]. split; [reflexivity | ].
  split; [reflexivity | ]. split; reflexivity.
Qed.

(** ** Sessions *)




Lemma session_rows_sid cfg g ur tok uid p cur rows :
  session_rows cfg g ur tok uid p cur rows -> Forall (fun r => session_id r = tok) rows.
Proof. induction 1; constructor; auto. Qed.

Lemma blocks_end_cons p b bs :
  blocks_end (p + 1 + N.of_nat (List.length b)) bs = blocks_end p (b :: bs).
Proof. unfold blocks_end. simpl. rewrite length_app. lia. Qed.

Lemma blocks_end_ge p bs : (p <= blocks_end p bs)%N.
Proof. unfold blocks_end. lia. Qed.

Lemma chunk_blocks_sids cfg g ur p lens blocks :
  chunk_blocks cfg g ur p lens blocks ->
  Forall (fun r => exists q, (p <= q < blocks_end p blocks)%N /\ session_id r = token ur q)
         (List.concat blocks).
Proof.
  induction 1 as [|p len lens b bs (uid & ts0 & _ & _ & Hrows) _ _ IH]; simpl.
  - constructor.
  - rewrite blocks_end_cons in IH.
    pose proof (blocks_end_ge (p + 1 + N.of_nat (List.length b)) bs) as Hge.
    rewrite blocks_end_cons in Hge.
    apply Forall_app. split.
    + apply session_rows_sid in Hrows.
      eapply Forall_impl; [ | exact Hrows]. simpl. intros r Hr.
      exists p. split; [lia | exact Hr].
    + eapply Forall_impl; [ | exact IH]. simpl. intros r (q & Hq & Hr).
      exists q. split; [lia | exact Hr].
Qed.


Lemma chunk_prefix_nth {A} n (all : list A) i r :
  nth_error (if Z.of_nat (List.length all) >? n then iloc_to n all else all) i = Some r ->
  nth_error all i = Some r.
Proof.
  destruct (_ >? n); [ | auto]. unfold iloc_to.
  destruct (n <? 0); rewrite nth_error_firstn; destruct (_ <? _)%nat; auto; discriminate.
Qed.




Lemma In_N_range k : forall lo p, In p (N_range lo k) <-> (lo <= p < lo + N.of_nat k)%N.
Proof.
  induction k as [|k IH]; intros lo p; simpl.
  - split; [tauto | lia].
  - rewrite IH. lia.
Qed.

Lemma distinctb_NoDup l : distinctb l = true -> NoDup l.
Proof.
  induction l as [|x t IH]; simpl; intros H; constructor;
    apply andb_prop in H as [Hx Ht]; auto.
  intros Hin. apply negb_true_iff in Hx.
  assert (existsb (String.eqb x) t = true); [ | congruence].
  apply existsb_exists. exists x. split; [exact Hin | apply String.eqb_refl].
Qed.

Lemma NoDup_map_eq {A B} (f : A -> B) (l : list A) :
  NoDup (map f l) -> forall a b, In a l -> In b l -> f a = f b -> a = b.
Proof.
  induction l as [|x t IH]; simpl; intros Hnd a b Ha Hb Hf; [tauto | ].
  inversion Hnd as [|? ? Hx Ht]; subst.
  destruct Ha as [->|Ha], Hb as [->|Hb]; auto.
  - exfalso. apply Hx. rewrite Hf. apply in_map. exact Hb.
  - exfalso. apply Hx. rewrite <- Hf. apply in_map. exact Ha.
Qed.

Lemma tokens_distinct_check ur lo hi :
  distinctb (map (token ur) (N_range lo (N.to_nat (hi - lo)))) = true ->
  tokens_distinct ur lo hi.
Proof.
  intros H p q Hp Hq Heq. apply distinctb_NoDup in H.
  eapply NoDup_map_eq; [exact H | | | exact Heq]; apply In_N_range; lia.
Qed.



(** ** The rejection loop has no cap *)

Lemma zipf_reject_starved a max_id : forall fuel r w,
  Qle_bool a 1 = false -> max_id < r ->
  (forall i, (i < fuel)%nat -> max_id < rank_at w i) ->
  zipf_reject fuel a max_id r w = Timeout (np_advance w (N.of_nat fuel)).
Proof.
  induction fuel as [|fuel IH]; intros r w Ha Hr Hrej; simpl;
    destruct (Z.gtb_spec r max_id) as [_|Hle]; try lia.
  - rewrite np_advance_0. reflexivity.
  - rewrite (bind_done_intro _ _ _ _ _ (np_zipf_run a w Ha)).
    rewrite IH; [ | exact Ha | apply Hrej; lia | ].
    + rewrite np_advance_add. do 2 f_equal. lia.
    + intros i Hi. rewrite rank_at_advance. apply Hrej. lia.
Qed.

Lemma zipf_reject_no_raise a max_id : forall fuel r w e w',
  Qle_bool a 1 = false -> zipf_reject fuel a max_id r w <> Raise e w'.
Proof.
  induction fuel as [|fuel IH]; intros r w e w' Ha; simpl;
    destruct (r >? max_id); try discriminate.
  rewrite (bind_done_intro _ _ _ _ _ (np_zipf_run a w Ha)). apply IH. exact Ha.
Qed.

Lemma zipf_reject_first_accept a max_id : forall k fuel r w,
  Qle_bool a 1 = false -> (k < fuel)%nat -> max_id < r ->
  (forall i, (i < k)%nat -> max_id < rank_at w i) -> rank_at w k <= max_id ->
  zipf_reject fuel a max_id r w = Done (rank_at w k) (np_advance w (N.of_nat (S k))).
Proof.
  induction k as [|k IH]; intros fuel r w Ha Hk Hr Hrej Hacc;
    (destruct fuel as [|fuel]; [lia | ]); simpl;
    destruct (Z.gtb_spec r max_id) as [_|Hle]; try lia;
    rewrite (bind_done_intro _ _ _ _ _ (np_zipf_run a w Ha)).
  - apply zipf_reject_accept. exact Hacc.
  - rewrite (IH fuel (rank_at w 0) (np_advance w 1)); auto; try lia.
    + rewrite rank_at_advance, np_advance_add. do 2 f_equal. lia.
    + apply Hrej. lia.
    + intros i Hi. rewrite rank_at_advance. apply Hrej. lia.
    + rewrite rank_at_advance. exact Hacc.
Qed.

(** C8 (as the code has it).  The loop [while r > max_id] has no cap and
    no error path: for a skew exponent above 1 it never raises; as long
    as every rank read so far exceeds [max_id] it is still running,
    whatever the number of attempts; and it returns the first rank that
    does not exceed [max_id], however late that rank comes. *)
Theorem rejection_loop_unbounded fuel a max_id r w :
  Qle_bool a 1 = false ->
  max_id < r ->
  (forall e w', zipf_reject fuel a max_id r w <> Raise e w') /\
  ((forall i, (i < fuel)%nat -> max_id < rank_at w i) ->
   zipf_reject fuel a max_id r w = Timeout (np_advance w (N.of_nat fuel))) /\
  (forall k, (k < fuel)%nat ->
             (forall i, (i < k)%nat -> max_id < rank_at w i) -> rank_at w k <= max_id ->
             zipf_reject fuel a max_id r w
             = Done (rank_at w k) (np_advance w (N.of_nat (S k)))).
Proof.
  intros Ha Hr. split; [ | split].
  - intros e w'. apply zipf_reject_no_raise. exact Ha.
  - intros Hrej. apply zipf_reject_starved; assumption.
  - intros k Hk Hrej Hacc. apply zipf_reject_first_accept; assumption.
Qed.

Lemma rejection_loop_unbounded_witness :
  Qle_bool (5 # 4) 1 = false /\ 3 < 7 /\
  zipf_reject 40 (5 # 4) 3 7 sample_world
  = Done (rank_at sample_world 1) (np_advance sample_world 2).
Proof.
  split; [reflexivity | ]. split; [lia | ].
  apply (proj2 (proj2 (rejection_loop_unbounded 40 (5 # 4) 3 7 sample_world
                         eq_refl ltac:(lia))) 1%nat).
  - lia.
  - intros i Hi. assert (i = 0)%nat as -> by lia. vm_compute. reflexivity.
  - vm_compute. discriminate.
Defined.

(** C8 as stated fails: no number of attempts ends the loop on a stream
    whose ranks all exceed the pool size, here with the script's own pool
    size and exponent. *)
Lemma no_rejection_cap :
  ~ (exists cap : nat,
        is_timeout (draw_zipf_id cap (USER_POOL_SIZE default_config) (5 # 4)
                      (np_arange 1 (USER_POOL_SIZE default_config + 1)) starved_world)
        = false).
Proof.
  intros [cap H]. unfold draw_zipf_id in H.
  rewrite (bind_done_intro _ _ _ _ _ (np_zipf_run (5 # 4) starved_world eq_refl)) in H.
  unfold bind in H.
  rewrite (zipf_reject_starved (5 # 4) (USER_POOL_SIZE default_config) cap) in H.
  - discriminate.
  - reflexivity.
  - vm_compute. reflexivity.
  - intros i _. vm_compute. reflexivity.
Qed.

(** ** The row-size estimate *)

Lemma generate_chunk_empty fuel cfg g n w :
  n <= 0 -> generate_chunk fuel cfg g n w = Done [] w.
Proof.
  intros Hn. unfold generate_chunk, draw_session_lengths.
  assert (E : session_lengths_loop fuel n GEOM_P MAX_SESSION_LEN [] 0 w = Done ([], 0) w).
  { destruct fuel; simpl; destruct (Z.ltb_spec 0 n); try lia; reflexivity. }
  rewrite (bind_done_intro _ _ _ _ _ E). simpl.
  unfold bind, ret. simpl. destruct (Z.gtb_spec 0 n); [ | reflexivity].
  unfold iloc_to. destruct (n <? 0); rewrite firstn_nil; reflexivity.
Qed.

(** [float_of_Z] rounds to the nearest double, a tie to the even
    mantissa; it does not wrap. *)
Example float_of_Z_rounds :
  float_of_Z 3000 = 3000%float /\
  float_of_Z (2 ^ 53 + 1) = float_of_Z (2 ^ 53) /\
  float_of_Z (2 ^ 53 + 3) = float_of_Z (2 ^ 53 + 4) /\
  PrimFloat.eqb (float_of_Z (2 ^ 63)) PrimFloat.zero = false /\
  PrimFloat.ltb (float_of_Z (2 ^ 63 - 1)) (float_of_Z (2 ^ 63 + 3000)) = true /\
  float_of_Z (2 ^ 1024) = PrimFloat.infinity.
Proof. repeat split; vm_compute; reflexivity. Qed.

Lemma py_truediv_run a b w :
  b <> 0 -> py_truediv a b w = Done (PrimFloat.div (float_of_Z a) (float_of_Z b)) w.
Proof.
  intros Hb. unfold py_truediv. destruct (Z.eqb_spec b 0); [contradiction | reflexivity].
Qed.

(** C10.  [estimate_avg_row_bytes] divides by [max(1, len(df))], which is
    never zero: whenever the sample chunk is generated the estimate is
    the float quotient of the serialized length by that divisor; the
    estimate raises exactly the exceptions [generate_chunk] raises (none
    of its own, so no [ZeroDivisionError]); a zero-row sample needs no
    draw at all and gives [0.0]; and for [n_sample >= 0] on a fair stream
    with valid tables the call completes. *)
Theorem estimate_avg_row_bytes_defined fuel cfg g n_sample w :
  (forall df w',
      generate_chunk fuel cfg g n_sample w = Done df w' ->
      1 <= Z.max 1 (Z.of_nat (List.length df)) /\
      estimate_avg_row_bytes fuel cfg g n_sample w
      = Done (PrimFloat.div (float_of_Z (Z.of_nat (String.length (to_csv df false))))
                            (float_of_Z (Z.max 1 (Z.of_nat (List.length df))))) w') /\
  (forall e w',
      estimate_avg_row_bytes fuel cfg g n_sample w = Raise e w' <->
      generate_chunk fuel cfg g n_sample w = Raise e w') /\
  estimate_avg_row_bytes fuel cfg g 0 w = Done 0%float w /\
  (forall B,
      0 <= n_sample ->
      fair B (Z.min (USER_POOL_SIZE cfg) (BOOK_POOL_SIZE cfg)) (np_tape w) ->
      (B <= fuel)%nat -> (Z.to_nat n_sample <= fuel)%nat ->
      globals_ok cfg g -> valid_probs cfg ->
      exists x w', estimate_avg_row_bytes fuel cfg g n_sample w = Done x w').
Proof.
  assert (Hrun : forall n df w',
             generate_chunk fuel cfg g n w = Done df w' ->
             estimate_avg_row_bytes fuel cfg g n w
             = Done (PrimFloat.div (float_of_Z (Z.of_nat (String.length (to_csv df false))))
                       (float_of_Z (Z.max 1 (Z.of_nat (List.length df))))) w').
  { intros n df w' E. unfold estimate_avg_row_bytes.
    rewrite (bind_done_intro _ _ _ _ _ E). apply py_truediv_run. lia. }
  split; [ | split; [ | split]].
  - intros df w' E. split; [lia | apply Hrun; exact E].
  - intros e w'. unfold estimate_avg_row_bytes, bind.
    destruct (generate_chunk fuel cfg g n_sample w) as [df w1|e1 w1|w1].
    + rewrite py_truediv_run by lia. split; discriminate.
    + split; intros H; injection H as -> ->; reflexivity.
    + split; discriminate.
  - rewrite (Hrun 0 [] w); [reflexivity | apply generate_chunk_empty; lia].
  - intros B Hn Hfair HB Hfuel Hg Hp.
    destruct (generate_chunk_total B fuel cfg g (np_tape w) Hfair HB Hg Hp n_sample w Hfuel
                eq_refl) as (df & w' & E).
    eexists _, _. apply Hrun. exact E.
Qed.

(** ** What an invalid configuration does *)








Lemma clear_path_total w :
  exists w1, bind os_path_exists (fun ex : bool => if ex then os_remove else ret tt) w
             = Done tt w1.
Proof.
  unfold bind, os_path_exists, os_remove, ret.
  destruct (out_file w) eqn:E; [rewrite E | ]; eexists; reflexivity.
Qed.






Lemma append_nil_r (s : string) : (s ++ "")%string = s.
Proof. induction s as [|c s IH]; simpl; [reflexivity | rewrite IH; reflexivity]. Qed.








(** A run with event-type probabilities summing to 0.9: numpy's error
    arrives after the file that was at the output path has been removed
    and after the generators have been read. *)
Example bad_event_probs_run :
  exists w,
    run 2000 bad_probs_config env_with_file
    = Raise (ValueError "probabilities do not sum to 1") w /\
    out_file w = None /\ ur_pos w = 1%N /\ (3 < np_pos w)%N.
Proof.
  eexists. split; [vm_compute; reflexivity | ].
  split; [reflexivity | ]. split; [reflexivity | ]. vm_compute. reflexivity.
Qed.


(** ** The size-bounded writer *)

(** C7 as stated fails: a completed run whose rows after the estimate are
    shorter than the estimated mean ends 186 bytes below its budget of
    30000 bytes; the single corrective chunk of 13 rows was sized with the
    stale mean. *)
Lemma final_size_below_budget :
  reported (run 3000 drift_config drift_env) = Some (168, 29814) /\
  29814 < TARGET_BYTES drift_config.
Proof. split; [vm_compute; reflexivity | reflexivity]. Qed.

Lemma length_append (s1 s2 : string) :
  String.length (s1 ++ s2) = (String.length s1 + String.length s2)%nat.
Proof. induction s1 as [|c s1 IH]; simpl; [reflexivity | rewrite IH; reflexivity]. Qed.

Lemma float_truediv_done x y q w w' :
  float_truediv x y w = Done q w' -> w' = w /\ q = PrimFloat.div x y.
Proof.
  unfold float_truediv. destruct (PrimFloat.eqb y PrimFloat.zero); [discriminate | ].
  intros H. done_ret H. auto.
Qed.

Lemma py_int_float_done x e w w' : py_int_float x w = Done e w' -> w' = w.
Proof.
  unfold py_int_float. destruct (Prim2SF x); try discriminate;
    intros H; done_ret H; reflexivity.
Qed.

Lemma os_path_getsize_done s w w' :
  os_path_getsize w = Done s w' ->
  w' = w /\ exists f, out_file w = Some f /\ s = Z.of_nat (String.length f).
Proof.
  unfold os_path_getsize. destruct (out_file w) as [f|]; [ | discriminate].
  intros H. injection H as <- <-. split; [reflexivity | exists f; auto].
Qed.

Lemma to_csv_file_append df w u w' f :
  out_file w = Some f ->
  to_csv_file df mode_a false w = Done u w' ->
  out_file w' = Some (f ++ to_csv df false)%string.
Proof.
  intros Hf H. unfold to_csv_file in H. rewrite Hf in H. injection H as _ <-. reflexivity.
Qed.

(** What [top_up] does to a file [f1] left by the streaming loop. *)
Lemma top_up_done fuel cfg g avg rows1 rows size w1 w' :
  top_up fuel cfg g avg rows1 w1 = Done (rows, size) w' ->
  exists f1 extra,
    out_file w1 = Some f1 /\
    out_file w' = Some (f1 ++ extra)%string /\
    size = Z.of_nat (String.length f1) + Z.of_nat (String.length extra) /\
    (TARGET_BYTES cfg <= Z.of_nat (String.length f1) ->
     extra = "" /\ rows = rows1 /\ w' = w1) /\
    (Z.of_nat (String.length f1) < TARGET_BYTES cfg ->
     exists e,
       py_int_float (PrimFloat.div
                       (float_of_Z (TARGET_BYTES cfg - Z.of_nat (String.length f1))) avg) w1
       = Done e w1 /\
       ((e + 1 <= 0 /\ extra = "" /\ rows = rows1 /\ w' = w1) \/
        (0 < e + 1 /\
         exists df w2,
           generate_chunk fuel cfg g (e + 1) w1 = Done df w2 /\
           Z.of_nat (List.length df) = e + 1 /\
           extra = to_csv df false /\ rows = rows1 + (e + 1)))).
Proof.
  unfold top_up. intros H. peel H as s1 w2 E1.
  apply os_path_getsize_done in E1 as (-> & f1 & Hf1 & ->).
  exists f1. destruct (Z.ltb_spec (Z.of_nat (String.length f1)) (TARGET_BYTES cfg))
    as [Hlt|Hge].
  - peel H as q w3 E2. apply float_truediv_done in E2 as [-> ->].
    peel H as e w4 E3. pose proof (py_int_float_done _ _ _ _ E3) as ->.
    destruct (Z.gtb_spec (e + 1) 0) as [Hpos|Hneg].
    + peel H as df w5 E4. peel H as u w6 E5. peel H as s2 w7 E6.
      unfold ret in H. injection H as <- <- <-.
      pose proof (generate_chunk_done _ _ _ _ _ _ _ E4)
        as (_ & _ & _ & _ & _ & _ & _ & _ & _ & Hfile).
      rewrite <- Hfile in Hf1.
      pose proof (to_csv_file_append _ _ _ _ _ Hf1 E5) as Hf6.
      apply os_path_getsize_done in E6 as (-> & f2 & Hf2 & ->).
      rewrite Hf6 in Hf2. injection Hf2 as <-.
      exists (to_csv df false). rewrite Hfile in Hf1.
      split; [exact Hf1 | ]. split; [exact Hf6 | ].
      split; [rewrite length_append; lia | ]. split; [lia | ].
      intros _. exists e. split; [exact E3 | ]. right. split; [lia | ].
      exists df, w5. split; [exact E4 | ]. split; [ | split; [reflexivity | ]].
      * apply (generate_chunk_row_count_aux fuel cfg g (e + 1) df w1 w5); [lia | exact E4].
      * rewrite (generate_chunk_row_count_aux fuel cfg g (e + 1) df w1 w5);
          [reflexivity | lia | exact E4].
    + unfold ret in H. injection H as <- <- <-. exists "".
      rewrite append_nil_r. simpl. split; [exact Hf1 | ]. split; [exact Hf1 | ].
      split; [lia | ]. split; [lia | ].
      intros _. exists e. split; [exact E3 | ]. left. auto.
  - unfold ret in H. injection H as <- <- <-. exists "".
    rewrite append_nil_r. simpl. split; [exact Hf1 | ]. split; [exact Hf1 | ].
    split; [lia | ]. split; [auto | lia].
Qed.

(** C7 (as the code has it).  A completed run reports the size of the
    file it wrote, which is the file the streaming loop left plus at most
    one corrective chunk: none when that file already holds the budget,
    otherwise exactly one chunk of [int(gap / avg_row_bytes) + 1] rows,
    after which nothing is checked again.  So the final size reaches the
    budget exactly when the streaming loop did, or the corrective chunk's
    bytes cover the gap; and when a corrective chunk is appended, the
    final size exceeds the budget by less than that chunk's bytes. *)
Theorem single_shot_top_up fuel cfg g w rows size w' :
  main fuel cfg g w = Done (rows, size) w' ->
  exists avg rows1 w1 f1 extra,
    plan_and_stream fuel cfg g w = Done (avg, rows1) w1 /\
    out_file w1 = Some f1 /\
    out_file w' = Some (f1 ++ extra)%string /\
    size = Z.of_nat (String.length f1) + Z.of_nat (String.length extra) /\
    (TARGET_BYTES cfg <= Z.of_nat (String.length f1) ->
     extra = "" /\ rows = rows1 /\ w' = w1) /\
    (Z.of_nat (String.length f1) < TARGET_BYTES cfg ->
     exists e,
       py_int_float (PrimFloat.div
                       (float_of_Z (TARGET_BYTES cfg - Z.of_nat (String.length f1))) avg) w1
       = Done e w1 /\
       ((e + 1 <= 0 /\ extra = "" /\ rows = rows1 /\ w' = w1) \/
        (0 < e + 1 /\
         exists df w2,
           generate_chunk fuel cfg g (e + 1) w1 = Done df w2 /\
           Z.of_nat (List.length df) = e + 1 /\
           extra = to_csv df false /\ rows = rows1 + (e + 1)))) /\
    (TARGET_BYTES cfg <= size <->
     TARGET_BYTES cfg - Z.of_nat (String.length f1) <= Z.of_nat (String.length extra)) /\
    (Z.of_nat (String.length f1) < TARGET_BYTES cfg ->
     size - TARGET_BYTES cfg < Z.of_nat (String.length extra)).
Proof.
  unfold main. intros H. peel H as st w1 E. destruct st as [avg rows1]. simpl in H.
  apply top_up_done in H as (f1 & extra & Hf1 & Hf' & Hsize & Hno & Hyes).
  exists avg, rows1, w1, f1, extra. splits; auto; lia.
Qed.

Lemma single_shot_top_up_witness :
  exists rows size w',
    main 2000 tiny_config sample_globals sample_world = Done (rows, size) w' /\
    exists f1 extra,
      out_file w' = Some (f1 ++ extra)%string /\
      size = Z.of_nat (String.length f1) + Z.of_nat (String.length extra).
Proof.
  assert (Hd : is_done (main 2000 tiny_config sample_globals sample_world) = true)
    by (vm_compute; reflexivity).
  destruct (main 2000 tiny_config sample_globals sample_world)
    as [[rows size] w'| |] eqn:E; try discriminate Hd.
  exists rows, size, w'. split; [reflexivity | ].
  destruct (single_shot_top_up _ _ _ _ _ _ _ E)
    as (avg & rows1 & w1 & f1 & extra & _ & _ & Hf & Hs & _).
  exists f1, extra. auto.
Defined.

(** ** Reading back what [json.dumps] wrote *)

Lemma append_assoc (s1 s2 s3 : string) : ((s1 ++ s2) ++ s3 = s1 ++ (s2 ++ s3))%string.
Proof. induction s1 as [|c s1 IH]; simpl; [reflexivity | rewrite IH; reflexivity]. Qed.

Lemma string_of_uint_digits d : digits_only (NilEmpty.string_of_uint d) = true.
Proof. induction d; simpl; auto. Qed.

Lemma NilZero_string_of_uint_digits d :
  d <> Decimal.Nil ->
  digits_only (NilZero.string_of_uint d) = true /\ NilZero.string_of_uint d <> "".
Proof.
  intros Hd. split; [destruct d; try reflexivity; apply (string_of_uint_digits _) | ].
  destruct d; simpl; congruence.
Qed.

Lemma span_digits_app ds rest :
  digits_only ds = true -> no_digit_ahead rest -> span_digits (ds ++ rest) = (ds, rest).
Proof.
  intros Hds Hrest. induction ds as [|c ds IH]; simpl in *.
  - destruct rest as [|c r]; simpl in *; [reflexivity | rewrite Hrest; reflexivity].
  - apply andb_prop in Hds as [Hc Hds]. rewrite Hc, (IH Hds). reflexivity.
Qed.

Lemma digit_not_minus c : is_digit c = true -> (N_of_ascii c =? 45)%N = false.
Proof.
  unfold is_digit. intros H. apply andb_prop in H as [H1 H2].
  apply N.leb_le in H1. apply N.eqb_neq. lia.
Qed.

Lemma scan_int_unsigned d rest :
  d <> Decimal.Nil -> no_digit_ahead rest ->
  scan_int (NilZero.string_of_uint d ++ rest)
  = (let z := Z.of_int (Decimal.Pos d) in
     if (py_str_int z =? NilZero.string_of_uint d)%string then Some (z, rest) else None).
Proof.
  intros Hd Hrest. destruct (NilZero_string_of_uint_digits d Hd) as [Hdig Hne].
  unfold scan_int. destruct (NilZero.string_of_uint d) as [|c ds] eqn:Es; [congruence | ].
  simpl append. simpl in Hdig. apply andb_prop in Hdig as [Hc Hds].
  rewrite (digit_not_minus c Hc).
  change (String c (ds ++ rest)) with (String c ds ++ rest)%string.
  rewrite span_digits_app; [ | simpl; rewrite Hc, Hds; reflexivity | exact Hrest].
  rewrite <- Es. change (NilZero.string_of_uint d) with (NilZero.string_of_int (Decimal.Pos d)).
  rewrite NilZero.isi; [reflexivity | congruence | discriminate].
Qed.

Lemma scan_int_roundtrip z rest :
  no_digit_ahead rest -> scan_int (py_str_int z ++ rest) = Some (z, rest).
Proof.
  intros Hrest. unfold py_str_int at 1. destruct z as [|p|p].
  - change (NilZero.string_of_int (Z.to_int 0))
      with (NilZero.string_of_uint (Decimal.D0 Decimal.Nil)).
    rewrite scan_int_unsigned by (discriminate || exact Hrest). reflexivity.
  - change (NilZero.string_of_int (Z.to_int (Z.pos p)))
      with (NilZero.string_of_uint (Pos.to_uint p)).
    rewrite scan_int_unsigned by (apply DecimalPos.Unsigned.to_uint_nonnil || exact Hrest).
    cbv zeta. change (Z.of_int (Decimal.Pos (Pos.to_uint p)))
      with (Z.of_int (Z.to_int (Z.pos p))).
    rewrite DecimalZ.of_to.
    change (py_str_int (Z.pos p)) with (NilZero.string_of_uint (Pos.to_uint p)).
    rewrite String.eqb_refl. reflexivity.
  - change (NilZero.string_of_int (Z.to_int (Z.neg p)))
      with (String "-" (NilZero.string_of_uint (Pos.to_uint p))).
    destruct (NilZero_string_of_uint_digits (Pos.to_uint p) (DecimalPos.Unsigned.to_uint_nonnil p))
      as [Hdig _].
    unfold scan_int.
    change (String "-" (NilZero.string_of_uint (Pos.to_uint p)) ++ rest)%string
      with (String "-" (NilZero.string_of_uint (Pos.to_uint p) ++ rest)).
    cbv iota beta. replace (N_of_ascii "-" =? 45)%N with true by reflexivity.
    cbv iota beta.
    rewrite span_digits_app by assumption.
    change (String "-" (NilZero.string_of_uint (Pos.to_uint p)))
      with (NilZero.string_of_int (Decimal.Neg (Pos.to_uint p))).
    rewrite NilZero.isi;
      [ | discriminate | intros H; injection H; apply DecimalPos.Unsigned.to_uint_nonnil].
    change (Z.of_int (Decimal.Neg (Pos.to_uint p))) with (Z.of_int (Z.to_int (Z.neg p))).
    rewrite DecimalZ.of_to.
    change (py_str_int (Z.neg p)) with (NilZero.string_of_int (Decimal.Neg (Pos.to_uint p))).
    rewrite String.eqb_refl. reflexivity.
Qed.

Lemma scan_string_roundtrip s : forall rest,
  scan_string (escape s ++ String dquote rest) = Some (s, rest).
Proof.
  induction s as [|c s IH]; intros rest; [reflexivity | ].
  simpl escape. rewrite append_assoc.
  destruct c as [[|] [|] [|] [|] [|] [|] [|] [|]];
    cbn -[scan_string escape append]; cbn [append]; cbn [scan_string];
    cbn -[scan_string escape append]; rewrite IH; reflexivity.
Qed.

Lemma json_ind' (P : json -> Prop) :
  (forall z, P (JInt z)) ->
  (forall s, P (JStr s)) ->
  (forall l, Forall P l -> P (JList l)) ->
  (forall kv, Forall (fun p => P (snd p)) kv -> P (JObj kv)) ->
  forall v, P v.
Proof.
  intros HI HS HL HO. fix IH 1. intros [z|s|l|kv].
  - apply HI.
  - apply HS.
  - apply HL. induction l as [|x l IHl]; constructor; [apply IH | exact IHl].
  - apply HO. induction kv as [|[k x] kv IHkv]; constructor; [apply IH | exact IHkv].
Qed.

Lemma dumps_list_nil rest : (json_dumps (JList []) ++ rest)%string = String "[" (String "]" rest).
Proof. reflexivity. Qed.

Lemma dumps_obj_nil rest : (json_dumps (JObj []) ++ rest)%string = String "{" (String "}" rest).
Proof. reflexivity. Qed.

Lemma more_items_cons y t R :
  (more_items (y :: t) ++ R)%string = String "," (json_dumps y ++ (more_items t ++ R)).
Proof. simpl. rewrite append_assoc. reflexivity. Qed.

Lemma more_members_cons k x t R :
  (more_members ((k, x) :: t) ++ R)%string
  = String "," (String dquote
      (escape k ++ String dquote (String ":" (json_dumps x ++ (more_members t ++ R))))).
Proof.
  simpl. unfold encode_basestring. simpl. rewrite !append_assoc. simpl.
  rewrite !append_assoc. reflexivity.
Qed.

Lemma dumps_list_cons x t rest :
  (json_dumps (JList (x :: t)) ++ rest)%string
  = String "[" (json_dumps x ++ (more_items t ++ String "]" rest)).
Proof.
  simpl. rewrite !append_assoc. reflexivity.
Qed.

Lemma dumps_obj_cons k x t rest :
  (json_dumps (JObj ((k, x) :: t)) ++ rest)%string
  = String "{" (String dquote
      (escape k ++ String dquote
         (String ":" (json_dumps x ++ (more_members t ++ String "}" rest))))).
Proof.
  cbn [json_dumps]. unfold encode_basestring. simpl append.
  rewrite !append_assoc. simpl append. rewrite ?append_assoc.
  match goal with
  | |- context [(?F t ++ String "}" rest)%string] =>
      assert (E : forall u, F u = more_members u)
  end.
  { induction u as [|[k' y] u IH]; [reflexivity | ].
    rewrite IH. unfold more_members, encode_basestring. simpl. reflexivity. }
  rewrite E. reflexivity.
Qed.

Lemma app_nonempty (s1 s2 : string) : s1 <> "" -> (s1 ++ s2)%string <> "".
Proof. destruct s1; [congruence | simpl; discriminate]. Qed.

Lemma head_code_app s1 s2 : s1 <> "" -> head_code (s1 ++ s2) = head_code s1.
Proof. destruct s1; [congruence | reflexivity]. Qed.

Lemma py_str_int_head z :
  py_str_int z <> "" /\
  (head_code (py_str_int z) = 45 \/ 48 <= head_code (py_str_int z) <= 57)%N.
Proof.
  assert (U : forall d, d <> Decimal.Nil ->
                        NilZero.string_of_uint d <> "" /\
                        (48 <= head_code (NilZero.string_of_uint d) <= 57)%N).
  { intros d Hd. destruct (NilZero_string_of_uint_digits d Hd) as [Hdig Hne].
    split; [exact Hne | ]. destruct (NilZero.string_of_uint d) as [|c s]; [congruence | ].
    simpl in *. apply andb_prop in Hdig as [Hc _]. unfold is_digit in Hc.
    apply andb_prop in Hc as [H1 H2]. apply N.leb_le in H1, H2. lia. }
  unfold py_str_int. destruct z as [|p|p].
  - split; [discriminate | right; vm_compute; split; discriminate].
  - destruct (U (Pos.to_uint p) (DecimalPos.Unsigned.to_uint_nonnil p)) as [Hne Hh].
    split; [exact Hne | right; exact Hh].
  - split; [discriminate | left; reflexivity].
Qed.

Lemma json_dumps_head v :
  json_dumps v <> "" /\ value_head (head_code (json_dumps v)).
Proof.
  unfold value_head. destruct v as [z|s|l|kv].
  - destruct (py_str_int_head z) as [Hne Hh]. split; [exact Hne | ]. simpl. tauto.
  - split; [discriminate | left; reflexivity].
  - split; [discriminate | right; right; right; left; reflexivity].
  - split; [discriminate | right; right; right; right; reflexivity].
Qed.

Lemma parse_value_string f s rest :
  parse_value (S f) (String dquote (escape s ++ String dquote rest)) = Some (JStr s, rest).
Proof. simpl. rewrite scan_string_roundtrip. reflexivity. Qed.

Lemma parse_value_int f s :
  s <> "" -> (head_code s = 45 \/ 48 <= head_code s <= 57)%N ->
  parse_value (S f) s
  = match scan_int s with Some (z, r) => Some (JInt z, r) | None => None end.
Proof.
  intros Hne Hh. destruct s as [|c s]; [congruence | ]. simpl in Hh.
  cbn [parse_value].
  replace (N_of_ascii c =? 34)%N with false by (symmetry; apply N.eqb_neq; lia).
  replace (N_of_ascii c =? 91)%N with false by (symmetry; apply N.eqb_neq; lia).
  replace (N_of_ascii c =? 123)%N with false by (symmetry; apply N.eqb_neq; lia).
  reflexivity.
Qed.

Lemma parse_value_list f s' :
  s' <> "" -> head_code s' <> 93%N ->
  parse_value (S f) (String "[" s')
  = match parse_value f s' with
    | Some (v, r1) =>
        match parse_items f r1 with
        | Some (vs, r2) => Some (JList (v :: vs), r2)
        | None => None
        end
    | None => None
    end.
Proof.
  intros Hne Hh. destruct s' as [|c s]; [congruence | ]. simpl in Hh.
  cbn [parse_value]. change (N_of_ascii "[" =? 34)%N with false.
  change (N_of_ascii "[" =? 91)%N with true. cbv iota.
  replace (N_of_ascii c =? 93)%N with false by (symmetry; apply N.eqb_neq; exact Hh).
  reflexivity.
Qed.

Lemma scan_key_roundtrip k R :
  scan_key (escape k ++ String dquote (String ":" R)) = Some (k, R).
Proof. unfold scan_key. rewrite scan_string_roundtrip. reflexivity. Qed.

Lemma parse_value_obj f k R :
  parse_value (S f) (String "{" (String dquote (escape k ++ String dquote (String ":" R))))
  = match parse_value f R with
    | Some (v, r2) =>
        match parse_members f r2 with
        | Some (kvs, r3) => Some (JObj ((k, v) :: kvs), r3)
        | None => None
        end
    | None => None
    end.
Proof.
  cbn [parse_value]. change (N_of_ascii "{" =? 34)%N with false.
  change (N_of_ascii "{" =? 91)%N with false. change (N_of_ascii "{" =? 123)%N with true.
  cbv iota. change (N_of_ascii dquote =? 125)%N with false.
  change (N_of_ascii dquote =? 34)%N with true. cbv iota.
  rewrite scan_key_roundtrip. reflexivity.
Qed.

Lemma value_head_not n : value_head n -> n <> 93%N /\ n <> 125%N /\ n <> 44%N.
Proof. unfold value_head. lia. Qed.

Lemma items_follow t rest : no_digit_ahead (more_items t ++ String "]" rest).
Proof. destruct t; reflexivity. Qed.

Lemma members_follow t rest : no_digit_ahead (more_members t ++ String "}" rest).
Proof. destruct t as [|[k x] t]; reflexivity. Qed.

(** The reader inverts the encoder, given fuel for the value's size. *)
Lemma parse_value_roundtrip v :
  forall fuel rest,
    (jsize v <= fuel)%nat ->
    match v with JInt _ => no_digit_ahead rest | _ => True end ->
    parse_value fuel (json_dumps v ++ rest) = Some (v, rest).
Proof.
  induction v as [z|s|l IHl|kv IHkv] using json_ind'; intros fuel rest Hfuel Hrest;
    (destruct fuel as [|f]; [simpl in Hfuel; lia | ]).
  - destruct (py_str_int_head z) as [Hne Hh].
    rewrite parse_value_int;
      [ | apply app_nonempty; exact Hne
        | rewrite head_code_app by exact Hne; exact Hh].
    simpl json_dumps. rewrite scan_int_roundtrip by exact Hrest. reflexivity.
  - simpl json_dumps. unfold encode_basestring. simpl append. rewrite append_assoc.
    apply parse_value_string.
  - destruct l as [|x t]; [reflexivity | ].
    rewrite dumps_list_cons. inversion IHl as [|? ? Hx Ht]; subst.
    destruct (json_dumps_head x) as [Hne Hh]. apply value_head_not in Hh as (H93 & _ & _).
    rewrite parse_value_list;
      [ | apply app_nonempty; exact Hne
        | rewrite head_code_app by exact Hne; exact H93].
    cbn [jsize fold_right] in Hfuel.
    rewrite Hx; [ | lia | destruct x; auto; apply items_follow].
    assert (Hitems : forall t f rest,
               Forall (fun v => forall fuel rest, (jsize v <= fuel)%nat ->
                         match v with JInt _ => no_digit_ahead rest | _ => True end ->
                         parse_value fuel (json_dumps v ++ rest) = Some (v, rest)) t ->
               (S (fold_right (fun y acc => S (jsize y) + acc) O t) <= f)%nat ->
               parse_items f (more_items t ++ String "]" rest) = Some (t, rest)).
    { clear. induction t as [|y t IH]; intros f rest Hall Hf;
        (destruct f as [|f]; [lia | ]).
      - reflexivity.
      - rewrite more_items_cons. inversion Hall as [|? ? Hy Ht]; subst. cbn [fold_right] in Hf.
        cbn [parse_items]. change (N_of_ascii "," =? 93)%N with false.
        change (N_of_ascii "," =? 44)%N with true. cbv iota.
        rewrite Hy; [ | lia | destruct y; auto; apply items_follow].
        rewrite IH; [reflexivity | exact Ht | lia]. }
    rewrite Hitems; [reflexivity | exact Ht | lia].
  - destruct kv as [|[k x] t]; [reflexivity | ].
    rewrite dumps_obj_cons. inversion IHkv as [|? ? Hx Ht]; subst. simpl in Hx.
    rewrite parse_value_obj. cbn [jsize fold_right snd] in Hfuel.
    rewrite Hx; [ | lia | destruct x; auto; apply members_follow].
    assert (Hmembers : forall t f rest,
               Forall (fun p => forall fuel rest, (jsize (snd p) <= fuel)%nat ->
                         match snd p with JInt _ => no_digit_ahead rest | _ => True end ->
                         parse_value fuel (json_dumps (snd p) ++ rest)
                         = Some (snd p, rest)) t ->
               (S (fold_right (fun p acc => S (jsize (snd p)) + acc) O t) <= f)%nat ->
               parse_members f (more_members t ++ String "}" rest) = Some (t, rest)).
    { clear. induction t as [|[k y] t IH]; intros f rest Hall Hf;
        (destruct f as [|f]; [lia | ]).
      - reflexivity.
      - rewrite more_members_cons. inversion Hall as [|? ? Hy Ht]; subst.
        cbn [fold_right snd] in Hf. cbn [snd] in Hy.
        cbn [parse_members]. change (N_of_ascii "," =? 125)%N with false.
        change (N_of_ascii "," =? 44)%N with true. cbv iota.
        change (N_of_ascii dquote =? 34)%N with true. cbv iota.
        rewrite scan_key_roundtrip.
        rewrite Hy; [ | lia | destruct y; auto; apply members_follow].
        rewrite IH; [reflexivity | exact Ht | lia]. }
    rewrite Hmembers; [reflexivity | exact Ht | lia].
Qed.

Lemma more_items_length t :
  (fold_right (fun y acc => S (String.length (json_dumps y)) + acc) O t
   = String.length (more_items t))%nat.
Proof.
  induction t as [|y t IH]; [reflexivity | ].
  unfold more_items. cbn [fold_right]. fold (more_items t).
  simpl String.length. rewrite length_append, <- IH. reflexivity.
Qed.

Lemma more_members_length t :
  (fold_right (fun p acc => S (String.length (json_dumps (snd p))) + acc) O t
   <= String.length (more_members t))%nat.
Proof.
  induction t as [|[k y] t IH]; [apply le_n | ].
  unfold more_members. cbn [fold_right fst snd]. fold (more_members t).
  simpl String.length. rewrite !length_append. simpl String.length.
  rewrite length_append. lia.
Qed.

Lemma jsize_le_length v : (jsize v <= String.length (json_dumps v))%nat.
Proof.
  induction v as [z|s|l IHl|kv IHkv] using json_ind'.
  - destruct (py_str_int_head z) as [Hne _]. simpl.
    destruct (py_str_int z); [congruence | simpl; lia].
  - simpl. lia.
  - destruct l as [|x t]; [simpl; lia | ].
    rewrite <- (append_nil_r (json_dumps (JList (x :: t)))), dumps_list_cons.
    inversion IHl as [|? ? Hx Ht]; subst.
    cbn [jsize fold_right]. simpl String.length. rewrite !length_append, <- more_items_length.
    assert (fold_right (fun y acc => S (jsize y) + acc) O t
            <= fold_right (fun y acc => S (String.length (json_dumps y)) + acc) O t)%nat.
    { clear -Ht. induction Ht; cbn [fold_right]; lia. }
    simpl String.length. lia.
  - destruct kv as [|[k x] t]; [simpl; lia | ].
    rewrite <- (append_nil_r (json_dumps (JObj ((k, x) :: t)))), dumps_obj_cons.
    inversion IHkv as [|? ? Hx Ht]; subst. cbn [snd] in Hx.
    cbn [jsize fold_right snd]. simpl String.length. rewrite !length_append.
    simpl String.length. rewrite !length_append.
    pose proof (more_members_length t).
    assert (fold_right (fun p acc => S (jsize (snd p)) + acc) O t
            <= fold_right (fun p acc => S (String.length (json_dumps (snd p))) + acc) O t)%nat.
    { clear -Ht. induction Ht; cbn [fold_right]; lia. }
    simpl String.length. lia.
Qed.

(** [json.loads(json.dumps(v)) == v] *)
Lemma json_loads_dumps v : json_loads (json_dumps v) = Some v.
Proof.
  unfold json_loads.
  rewrite <- (append_nil_r (json_dumps v)) at 2.
  rewrite parse_value_roundtrip; [reflexivity | apply jsize_le_length | ].
  destruct v; exact I.
Qed.

(** C2.  The [event_type] of every row of every chunk is one of the four
    types, and parsing the row's [event_metadata] as JSON yields an object
    whose keys are exactly those of the type's schema (in the schema's
    order, each once). *)
Theorem metadata_matches_schema fuel cfg g n w df w' :
  generate_chunk fuel cfg g n w = Done df w' ->
  (schema_keys "read_online" = ["reading_duration_minutes"; "platform"] /\
   schema_keys "download" = ["format"; "device_os"; "app_version"] /\
   schema_keys "review" = ["rating"; "review_text"] /\
   schema_keys "search" = ["search_terms"; "results_count"]) /\
  Forall (fun r =>
            In (event_type r) ["read_online"; "download"; "review"; "search"] /\
            exists kv,
              json_loads (event_metadata r) = Some (JObj kv) /\
              map fst kv = schema_keys (event_type r) /\
              NoDup (map fst kv)) df.
Proof.
  intros H. split; [splits; reflexivity | ].
  apply generate_chunk_rows_ok in H.
  eapply Forall_impl; [ | exact H]. intros r [_ _ Hty (kv & Hm & Hk)].
  split; [exact Hty | ]. exists kv. rewrite Hm, json_loads_dumps.
  split; [reflexivity | ]. split; [exact Hk | ]. rewrite Hk.
  apply EVENT_TYPES_cases in Hty as [-> | [-> | [-> | ->]]]; vm_compute;
    repeat constructor; simpl; intuition discriminate.
Qed.

Lemma metadata_matches_schema_witness :
  exists df w',
    generate_chunk 50 tiny_config sample_globals 6 sample_world = Done df w' /\
    Forall (fun r =>
              exists kv, json_loads (event_metadata r) = Some (JObj kv) /\
                         map fst kv = schema_keys (event_type r)) df.
Proof.
  destruct (generate_chunk 50 tiny_config sample_globals 6 sample_world) as [df w'| |] eqn:E;
    [ | vm_compute in E; discriminate | vm_compute in E; discriminate].
  exists df, w'. split; [reflexivity | ].
  pose proof (metadata_matches_schema 50 tiny_config sample_globals 6 sample_world df w' E)
    as [_ H].
  eapply Forall_impl; [ | exact H]. simpl. intros r (_ & kv & H1 & H2 & _).
  exists kv. auto.
Defined.

(** ** Two runs on one seed *)

(** *** UUID texts take 36 bytes of CSV *)

Lemma str_exists_app f s1 s2 :
  str_exists f (s1 ++ s2) = str_exists f s1 || str_exists f s2.
Proof.
  induction s1 as [|c s1 IH]; simpl; [reflexivity | rewrite IH, orb_assoc; reflexivity].
Qed.

Lemma length_substring : forall s n m,
  (n + m <= String.length s)%nat -> String.length (substring n m s) = m.
Proof.
  induction s as [|c s IH]; intros [|n] [|m] H; simpl in *; try lia; try reflexivity.
  - rewrite (IH 0%nat m); [reflexivity | simpl; lia].
  - apply IH. lia.
  - apply IH. lia.
Qed.

Lemma str_exists_substring f : forall s n m,
  str_exists f s = false -> str_exists f (substring n m s) = false.
Proof.
  induction s as [|c s IH]; intros [|n] [|m] H; simpl in *; try reflexivity.
  - apply orb_false_elim in H as [Hc Hs]. rewrite Hc. simpl. apply IH. exact Hs.
  - apply orb_false_elim in H as [Hc Hs]. apply IH. exact Hs.
  - apply orb_false_elim in H as [Hc Hs]. apply IH. exact Hs.
Qed.

Lemma hex_fixed_length width : forall z, String.length (hex_fixed width z) = width.
Proof.
  induction width as [|k IH]; intros z; simpl; [reflexivity | ].
  rewrite length_append, IH. simpl. lia.
Qed.

Lemma hex_digit_plain z :
  (let n := N_of_ascii (hex_digit (Z.land z 15)) in
   (n =? 44) || (n =? 34) || (n =? 10) || (n =? 13))%N = false.
Proof.
  change 15 with (Z.ones 4). rewrite Z.land_ones by lia. change (2 ^ 4) with 16.
  pose proof (Z.mod_pos_bound z 16 ltac:(lia)) as Hd.
  assert (C : z mod 16 = 0 \/ z mod 16 = 1 \/ z mod 16 = 2 \/ z mod 16 = 3 \/
              z mod 16 = 4 \/ z mod 16 = 5 \/ z mod 16 = 6 \/ z mod 16 = 7 \/
              z mod 16 = 8 \/ z mod 16 = 9 \/ z mod 16 = 10 \/ z mod 16 = 11 \/
              z mod 16 = 12 \/ z mod 16 = 13 \/ z mod 16 = 14 \/ z mod 16 = 15) by lia.
  repeat (destruct C as [C|C]; [rewrite C; reflexivity | ]). rewrite C. reflexivity.
Qed.

Lemma hex_fixed_plain width : forall z, needs_quote (hex_fixed width z) = false.
Proof.
  unfold needs_quote. induction width as [|k IH]; intros z; simpl; [reflexivity | ].
  rewrite str_exists_app, IH. simpl. rewrite orb_false_r. apply hex_digit_plain.
Qed.

Lemma uuid_str_csv i :
  csv_field (uuid_str i) = uuid_str i /\ String.length (uuid_str i) = 36%nat.
Proof.
  assert (Hq : needs_quote (uuid_str i) = false).
  { unfold uuid_str, needs_quote. rewrite !str_exists_app.
    pose proof (hex_fixed_plain 32 i) as Hp. unfold needs_quote in Hp.
    rewrite !(str_exists_substring _ _ _ _ Hp). reflexivity. }
  split; [unfold csv_field; rewrite Hq; reflexivity | ].
  unfold uuid_str. rewrite !length_append.
  rewrite !length_substring by (rewrite hex_fixed_length; simpl; lia). reflexivity.
Qed.

Lemma is_uuid_csv_length s : is_uuid s -> String.length (csv_field s) = 36%nat.
Proof. intros [i ->]. destruct (uuid_str_csv i) as [-> H]. exact H. Qed.

Lemma csv_row_length r1 r2 :
  row_sim r1 r2 -> String.length (csv_row r1) = String.length (csv_row r2).
Proof.
  intros [Ht Hty Hu Hb Hm [He1 He2] [Hs1 Hs2]]. unfold csv_row.
  rewrite !length_append, Ht, Hty, Hu, Hb, Hm.
  rewrite (is_uuid_csv_length _ He1), (is_uuid_csv_length _ He2),
    (is_uuid_csv_length _ Hs1), (is_uuid_csv_length _ Hs2). reflexivity.
Qed.

Lemma concat_length (l : list string) :
  String.length (String.concat "" l) = list_sum (map String.length l).
Proof.
  induction l as [|x l IH]; [reflexivity | ].
  destruct l as [|y l].
  - simpl. lia.
  - change (String.concat "" (x :: y :: l)) with (x ++ "" ++ String.concat "" (y :: l))%string.
    rewrite !length_append, IH. simpl. lia.
Qed.

Lemma to_csv_length df1 df2 h :
  Forall2 row_sim df1 df2 ->
  String.length (to_csv df1 h) = String.length (to_csv df2 h).
Proof.
  intros H. unfold to_csv. rewrite !length_append, !concat_length. f_equal.
  induction H as [|r1 r2 l1 l2 Hr _ IH]; simpl; [reflexivity | ].
  rewrite (csv_row_length _ _ Hr), IH. reflexivity.
Qed.

Lemma text_sim_length s1 s2 : text_sim s1 s2 -> String.length s1 = String.length s2.
Proof.
  induction 1 as [s|t1 t2 df1 df2 h _ IH Hdf]; [reflexivity | ].
  rewrite !length_append, IH, (to_csv_length _ _ h Hdf). reflexivity.
Qed.

(** *** The simulation *)

Lemma msim_ret {A} (R : A -> A -> Prop) a1 a2 : R a1 a2 -> msim R (ret a1) (ret a2).
Proof. intros H w1 w2 Hw. simpl. auto. Qed.

Lemma msim_raise {A} (R : A -> A -> Prop) e : msim R (raise e) (raise e).
Proof. intros w1 w2 Hw. simpl. auto. Qed.

Lemma msim_timeout {A} (R : A -> A -> Prop) : msim R timeout timeout.
Proof. intros w1 w2 Hw. exact Hw. Qed.

Lemma msim_bind {A B} (R : A -> A -> Prop) (S : B -> B -> Prop) m1 m2 k1 k2 :
  msim R m1 m2 ->
  (forall a1 a2, R a1 a2 -> msim S (k1 a1) (k2 a2)) ->
  msim S (bind m1 k1) (bind m2 k2).
Proof.
  intros Hm Hk w1 w2 Hw. unfold bind. specialize (Hm w1 w2 Hw).
  destruct (m1 w1) as [a1 u1|e1 u1|u1], (m2 w2) as [a2 u2|e2 u2|u2];
    simpl in Hm; try contradiction.
  - destruct Hm as [Ha Hu]. apply Hk; assumption.
  - exact Hm.
  - exact Hm.
Qed.

(** Binding a computation whose two runs return equal values. *)
Lemma msim_bind_eq {A B} (S : B -> B -> Prop) (m1 m2 : M A) k1 k2 :
  msim eq m1 m2 ->
  (forall a, msim S (k1 a) (k2 a)) ->
  msim S (bind m1 k1) (bind m2 k2).
Proof. intros Hm Hk. eapply msim_bind; [exact Hm | intros a1 a2 <-; apply Hk]. Qed.

Lemma wsim_with_np w1 w2 t p : wsim w1 w2 -> wsim (with_np w1 t p) (with_np w2 t p).
Proof. intros [a b c d e f]. constructor; simpl; auto. Qed.

Lemma wsim_with_fk w1 w2 t p : wsim w1 w2 -> wsim (with_fk w1 t p) (with_fk w2 t p).
Proof. intros [a b c d e f]. constructor; simpl; auto. Qed.

Lemma wsim_with_ur_pos w1 w2 p1 p2 :
  wsim w1 w2 -> wsim (with_ur_pos w1 p1) (with_ur_pos w2 p2).
Proof. intros [a b c d e f]. constructor; simpl; auto. Qed.

Lemma wsim_with_file w1 w2 f1 f2 :
  wsim w1 w2 -> file_sim f1 f2 -> wsim (with_file w1 f1) (with_file w2 f2).
Proof. intros [a b c d e f] Hf. constructor; simpl; auto. Qed.

Lemma msim_np_next : msim eq np_next np_next.
Proof.
  intros w1 w2 Hw. unfold np_next. simpl.
  rewrite (ws_np_tape _ _ Hw), (ws_np_pos _ _ Hw).
  split; [reflexivity | apply wsim_with_np; exact Hw].
Qed.

Create HintDb msim.
#[local] Hint Resolve msim_np_next : msim.

(** Run the two sides of a goal [msim R m m'] in lockstep. *)
Ltac lockstep :=
  repeat first
    [ apply msim_raise
    | apply msim_timeout
    | apply msim_ret
    | apply msim_bind_eq; [solve [auto with msim] | intro]
    | match goal with
      | |- msim _ (if ?c then _ else _) (if ?c then _ else _) => destruct c
      | |- msim _ (match ?c with Some _ => _ | None => _ end)
                  (match ?c with Some _ => _ | None => _ end) => destruct c
      end ].

Lemma msim_np_zipf a : msim eq (np_zipf a) (np_zipf a).
Proof. unfold np_zipf. lockstep; reflexivity. Qed.

Lemma msim_np_geometric p : msim eq (np_geometric p) (np_geometric p).
Proof. unfold np_geometric. lockstep; reflexivity. Qed.

Lemma msim_np_randint lo hi : msim eq (np_randint lo hi) (np_randint lo hi).
Proof. unfold np_randint. lockstep; reflexivity. Qed.

Lemma msim_np_gamma sh sc : msim eq (np_gamma sh sc) (np_gamma sh sc).
Proof. unfold np_gamma. lockstep; reflexivity. Qed.

Lemma msim_np_poisson lam : msim eq (np_poisson lam) (np_poisson lam).
Proof. unfold np_poisson. lockstep; reflexivity. Qed.

Lemma msim_np_index {A} (x : list A) i : msim eq (np_index x i) (np_index x i).
Proof. unfold np_index. lockstep; reflexivity. Qed.

#[local] Hint Resolve msim_np_zipf msim_np_geometric msim_np_randint msim_np_gamma
  msim_np_poisson msim_np_index : msim.

Lemma msim_shuffle {A} i : forall x : list A, msim eq (shuffle i x) (shuffle i x).
Proof.
  induction i as [|i IH]; intros x; simpl; [apply msim_ret; reflexivity | ].
  apply msim_bind_eq; [apply msim_np_next | intro raw; apply IH].
Qed.

Lemma msim_np_permutation {A} (x : list A) : msim eq (np_permutation x) (np_permutation x).
Proof. apply msim_shuffle. Qed.

Lemma msim_choice_draw {A} (a : list A) : msim eq (choice_draw a) (choice_draw a).
Proof. unfold choice_draw. lockstep; reflexivity. Qed.

#[local] Hint Resolve msim_np_permutation msim_choice_draw : msim.

Lemma msim_choice_draws {A} (a : list A) n : msim eq (choice_draws a n) (choice_draws a n).
Proof. induction n as [|n IH]; simpl; lockstep; reflexivity. Qed.

Lemma msim_choice_guard {A} (a : list A) p : msim eq (choice_guard a p) (choice_guard a p).
Proof. unfold choice_guard. destruct a; lockstep; reflexivity. Qed.

#[local] Hint Resolve msim_choice_draws msim_choice_guard : msim.

Lemma msim_np_choice1 {A} (a : list A) p : msim eq (np_choice1 a p) (np_choice1 a p).
Proof. unfold np_choice1. lockstep. auto with msim. Qed.

Lemma msim_np_choice {A} (a : list A) size p :
  msim eq (np_choice a size p) (np_choice a size p).
Proof. unfold np_choice. lockstep. auto with msim. Qed.

Lemma msim_np_choice_norepl {A} (a : list A) size :
  msim eq (np_choice_norepl a size) (np_choice_norepl a size).
Proof. unfold np_choice_norepl. lockstep; reflexivity. Qed.

Lemma msim_fake_sentence k : msim eq (fake_sentence k) (fake_sentence k).
Proof.
  intros w1 w2 Hw. unfold fake_sentence. simpl.
  rewrite (ws_fk_tape _ _ Hw), (ws_fk_pos _ _ Hw).
  split; [reflexivity | apply wsim_with_fk; exact Hw].
Qed.

Lemma msim_uuid4 : msim (fun s1 s2 => is_uuid s1 /\ is_uuid s2) uuid4 uuid4.
Proof.
  intros w1 w2 Hw. unfold uuid4. simpl. split.
  - split; eexists; reflexivity.
  - apply wsim_with_ur_pos. exact Hw.
Qed.

#[local] Hint Resolve msim_np_choice1 msim_np_choice msim_np_choice_norepl
  msim_fake_sentence : msim.

Lemma msim_zipf_reject a max_id fuel : forall r,
  msim eq (zipf_reject fuel a max_id r) (zipf_reject fuel a max_id r).
Proof.
  induction fuel as [|fuel IH]; intros r; simpl; lockstep; try reflexivity. apply IH.
Qed.

#[local] Hint Resolve msim_zipf_reject : msim.

Lemma msim_draw_zipf_id fuel max_id a mapping :
  msim eq (draw_zipf_id fuel max_id a mapping) (draw_zipf_id fuel max_id a mapping).
Proof. unfold draw_zipf_id. lockstep. auto with msim. Qed.

Lemma msim_session_lengths_loop n p max_len fuel : forall lengths total,
  msim eq (session_lengths_loop fuel n p max_len lengths total)
          (session_lengths_loop fuel n p max_len lengths total).
Proof.
  induction fuel as [|fuel IH]; intros lengths total; simpl; lockstep; try reflexivity.
  apply IH.
Qed.

Lemma msim_gen_metadata cfg et : msim eq (gen_metadata cfg et) (gen_metadata cfg et).
Proof. unfold gen_metadata. lockstep; reflexivity. Qed.

Lemma msim_rand_ts g : msim eq (rand_ts_last_two_years g) (rand_ts_last_two_years g).
Proof. unfold rand_ts_last_two_years. lockstep; reflexivity. Qed.

#[local] Hint Resolve msim_draw_zipf_id msim_session_lengths_loop msim_gen_metadata
  msim_rand_ts : msim.

Lemma msim_for_each {A S} (R : S -> S -> Prop) (body1 body2 : S -> A -> M S) xs :
  (forall s1 s2 x, R s1 s2 -> msim R (body1 s1 x) (body2 s2 x)) ->
  forall s1 s2, R s1 s2 -> msim R (for_each xs body1 s1) (for_each xs body2 s2).
Proof.
  intros Hbody. induction xs as [|x xs IH]; intros s1 s2 Hs; simpl.
  - apply msim_ret. exact Hs.
  - eapply msim_bind; [apply Hbody; exact Hs | intros a1 a2 Ha; apply IH; exact Ha].
Qed.

Lemma msim_emit_event fuel cfg g tok1 tok2 uid st1 st2 et :
  is_uuid tok1 -> is_uuid tok2 -> session_state_sim st1 st2 ->
  msim session_state_sim (emit_event fuel cfg g tok1 uid st1 et)
                         (emit_event fuel cfg g tok2 uid st2 et).
Proof.
  intros H1 H2 [Hcols Hcur]. destruct st1 as [cols1 cur1], st2 as [cols2 cur2].
  simpl in Hcols, Hcur. subst cur2. unfold emit_event.
  eapply msim_bind; [apply msim_uuid4 | intros e1 e2 [He1 He2]].
  lockstep. split; simpl; [ | reflexivity].
  apply Forall2_app; [exact Hcols | ].
  constructor; [ | constructor]. constructor; simpl; auto.
Qed.

Lemma msim_gen_session fuel cfg g cols1 cols2 slen :
  Forall2 row_sim cols1 cols2 ->
  msim (Forall2 row_sim) (gen_session fuel cfg g cols1 slen)
                         (gen_session fuel cfg g cols2 slen).
Proof.
  intros Hcols. unfold gen_session.
  eapply msim_bind; [apply msim_uuid4 | intros t1 t2 [Ht1 Ht2]].
  lockstep.
  eapply msim_bind.
  - apply msim_for_each with (R := session_state_sim).
    + intros s1 s2 x Hs. apply msim_emit_event; assumption.
    + split; [exact Hcols | reflexivity].
  - intros s1 s2 [Hs _]. apply msim_ret. exact Hs.
Qed.

Lemma Forall2_firstn {A B} (R : A -> B -> Prop) k : forall l1 l2,
  Forall2 R l1 l2 -> Forall2 R (firstn k l1) (firstn k l2).
Proof.
  induction k as [|k IH]; intros l1 l2 H; simpl; [constructor | ].
  destruct H; constructor; auto.
Qed.

Lemma msim_generate_chunk fuel cfg g n :
  msim (Forall2 row_sim) (generate_chunk fuel cfg g n) (generate_chunk fuel cfg g n).
Proof.
  unfold generate_chunk, draw_session_lengths. lockstep.
  eapply msim_bind.
  - apply msim_for_each with (R := Forall2 row_sim).
    + intros s1 s2 x Hs. apply msim_gen_session. exact Hs.
    + constructor.
  - intros df1 df2 Hdf. apply msim_ret.
    rewrite (Forall2_length Hdf).
    destruct (_ >? n); [ | exact Hdf].
    unfold iloc_to. rewrite (Forall2_length Hdf).
    destruct (n <? 0); apply Forall2_firstn; exact Hdf.
Qed.

Lemma msim_estimate fuel cfg g n :
  msim eq (estimate_avg_row_bytes fuel cfg g n) (estimate_avg_row_bytes fuel cfg g n).
Proof.
  unfold estimate_avg_row_bytes.
  eapply msim_bind; [apply msim_generate_chunk | intros df1 df2 Hdf].
  rewrite (to_csv_length _ _ false Hdf), (Forall2_length Hdf).
  unfold py_truediv. lockstep; reflexivity.
Qed.

Lemma msim_to_csv_file df1 df2 mode header :
  Forall2 row_sim df1 df2 ->
  msim eq (to_csv_file df1 mode header) (to_csv_file df2 mode header).
Proof.
  intros Hdf w1 w2 Hw. unfold to_csv_file. simpl. split; [reflexivity | ].
  apply wsim_with_file; [exact Hw | ]. simpl.
  pose proof (ws_file _ _ Hw) as Hf. unfold file_sim in Hf.
  destruct mode, (out_file w1) as [s1|], (out_file w2) as [s2|]; try contradiction;
    apply text_rows; auto; apply text_same.
Qed.

Lemma msim_os_path_exists : msim eq os_path_exists os_path_exists.
Proof.
  intros w1 w2 Hw. unfold os_path_exists. simpl. split; [ | exact Hw].
  pose proof (ws_file _ _ Hw) as Hf. unfold file_sim in Hf.
  destruct (out_file w1), (out_file w2); try contradiction; reflexivity.
Qed.

Lemma msim_os_remove : msim eq os_remove os_remove.
Proof.
  intros w1 w2 Hw. unfold os_remove.
  pose proof (ws_file _ _ Hw) as Hf. unfold file_sim in Hf.
  destruct (out_file w1), (out_file w2); try contradiction; simpl.
  - split; [reflexivity | apply wsim_with_file; [exact Hw | exact I]].
  - split; [reflexivity | exact Hw].
Qed.

Lemma msim_os_path_getsize : msim eq os_path_getsize os_path_getsize.
Proof.
  intros w1 w2 Hw. unfold os_path_getsize.
  pose proof (ws_file _ _ Hw) as Hf. unfold file_sim in Hf.
  destruct (out_file w1), (out_file w2); try contradiction; simpl.
  - split; [rewrite (text_sim_length _ _ Hf); reflexivity | exact Hw].
  - split; [reflexivity | exact Hw].
Qed.

Lemma msim_float_truediv x y : msim eq (float_truediv x y) (float_truediv x y).
Proof. unfold float_truediv. lockstep; reflexivity. Qed.

Lemma msim_py_int_float x : msim eq (py_int_float x) (py_int_float x).
Proof. unfold py_int_float. destruct (Prim2SF x); lockstep; reflexivity. Qed.

#[local] Hint Resolve msim_estimate msim_os_path_exists msim_os_remove msim_os_path_getsize
  msim_float_truediv msim_py_int_float : msim.

Lemma msim_stream_loop fuel cfg g target fuel_loop : forall rows first,
  msim eq (stream_loop fuel_loop fuel cfg g target rows first)
          (stream_loop fuel_loop fuel cfg g target rows first).
Proof.
  induction fuel_loop as [|k IH]; intros rows first; simpl; lockstep; try reflexivity.
  eapply msim_bind; [apply msim_generate_chunk | intros df1 df2 Hdf].
  apply msim_bind_eq; [apply msim_to_csv_file; exact Hdf | intros _].
  rewrite (Forall2_length Hdf). apply IH.
Qed.

#[local] Hint Resolve msim_stream_loop : msim.

Lemma msim_plan_and_stream fuel cfg g :
  msim eq (plan_and_stream fuel cfg g) (plan_and_stream fuel cfg g).
Proof.
  unfold plan_and_stream.
  apply msim_bind_eq; [apply msim_os_path_exists | intros ex].
  apply msim_bind_eq; [destruct ex; [apply msim_os_remove | apply msim_ret; reflexivity] | ].
  intros _. lockstep. reflexivity.
Qed.

Lemma msim_top_up fuel cfg g avg rows :
  msim eq (top_up fuel cfg g avg rows) (top_up fuel cfg g avg rows).
Proof.
  unfold top_up. lockstep; try reflexivity.
  eapply msim_bind; [apply msim_generate_chunk | intros df1 df2 Hdf].
  apply msim_bind_eq; [apply msim_to_csv_file; exact Hdf | intros _].
  rewrite (Forall2_length Hdf). lockstep. reflexivity.
Qed.

Lemma msim_main fuel cfg g : msim eq (main fuel cfg g) (main fuel cfg g).
Proof.
  unfold main. apply msim_bind_eq; [apply msim_plan_and_stream | intros st].
  apply msim_top_up.
Qed.

Lemma msim_module_init cfg env1 env2 :
  mt19937 env1 = mt19937 env2 -> faker_text env1 = faker_text env2 ->
  msim eq (module_init cfg env1) (module_init cfg env2).
Proof.
  intros Hmt Hfk. unfold module_init.
  apply msim_bind_eq.
  { intros w1 w2 Hw. unfold np_random_seed. simpl. rewrite Hmt.
    split; [reflexivity | apply wsim_with_np; exact Hw]. }
  intros _. apply msim_bind_eq.
  { intros w1 w2 Hw. unfold Faker_seed. simpl. rewrite Hfk.
    split; [reflexivity | apply wsim_with_fk; exact Hw]. }
  intros _. apply msim_bind_eq.
  { intros w1 w2 Hw. unfold _now_utc. simpl. rewrite (ws_clock _ _ Hw).
    split; [reflexivity | exact Hw]. }
  intros now. lockstep. reflexivity.
Qed.

Lemma wsim_boot env1 env2 :
  wall_clock env1 = wall_clock env2 -> existing_file env1 = existing_file env2 ->
  wsim (boot env1) (boot env2).
Proof.
  intros Hc Hf. constructor; simpl; auto. rewrite Hf.
  destruct (existing_file env2); simpl; [apply text_same | exact I].
Qed.

(** C1 (as the code has it).  Two runs with the same seed and
    configuration, started at the same clock reading on the same initial
    file, end the same way.  If they complete they report the same row
    count and file size, and their files are built from batches of rows
    that agree, row by row, on [event_timestamp], [event_type],
    [user_id], [book_id] and [event_metadata] (review sentences
    included); if they fail they raise the same exception.  This holds
    whatever the operating system's entropy is in either run. *)
Theorem seeded_columns_reproducible fuel cfg env1 env2 :
  mt19937 env1 = mt19937 env2 ->
  faker_text env1 = faker_text env2 ->
  wall_clock env1 = wall_clock env2 ->
  existing_file env1 = existing_file env2 ->
  match run fuel cfg env1, run fuel cfg env2 with
  | Done r1 w1, Done r2 w2 => r1 = r2 /\ file_sim (out_file w1) (out_file w2)
  | Raise e1 w1, Raise e2 w2 => e1 = e2 /\ file_sim (out_file w1) (out_file w2)
  | Timeout w1, Timeout w2 => file_sim (out_file w1) (out_file w2)
  | _, _ => False
  end.
Proof.
  intros Hmt Hfk Hc Hf.
  assert (H : osim eq (run fuel cfg env1) (run fuel cfg env2)).
  { unfold run. apply msim_bind_eq.
    - apply msim_module_init; assumption.
    - intros g. apply msim_main.
    - apply wsim_boot; assumption. }
  unfold osim in H.
  destruct (run fuel cfg env1) as [r1 w1|e1 w1|w1], (run fuel cfg env2) as [r2 w2|e2 w2|w2];
    try contradiction.
  - destruct H as [Hr Hw]. split; [exact Hr | apply (ws_file _ _ Hw)].
  - destruct H as [He Hw]. split; [exact He | apply (ws_file _ _ Hw)].
  - apply (ws_file _ _ H).
Qed.

Lemma seeded_columns_reproducible_witness :
  mt19937 sample_env = mt19937 other_entropy_env /\
  faker_text sample_env = faker_text other_entropy_env /\
  wall_clock sample_env = wall_clock other_entropy_env /\
  existing_file sample_env = existing_file other_entropy_env /\
  reported (run 2000 tiny_config sample_env)
  = reported (run 2000 tiny_config other_entropy_env).
Proof.
  do 4 (split; [reflexivity | ]).
  pose proof (seeded_columns_reproducible 2000 tiny_config sample_env other_entropy_env
                eq_refl eq_refl eq_refl eq_refl) as H.
  destruct (run 2000 tiny_config sample_env), (run 2000 tiny_config other_entropy_env);
    try contradiction; simpl; [destruct H as [-> _] | | ]; reflexivity.
Defined.

(** C1 as stated fails: with one seed and one configuration, the file
    changes with the operating system's entropy (the tokens come from
    [uuid4]) and with the time the run starts (the window is anchored at
    the clock reading). *)
Lemma seed_does_not_fix_the_file :
  mt19937 sample_env = mt19937 other_entropy_env /\
  mt19937 sample_env = mt19937 next_day_env /\
  faker_text sample_env = faker_text other_entropy_env /\
  faker_text sample_env = faker_text next_day_env /\
  compare_files (run 2000 tiny_config sample_env)
                (run 2000 tiny_config other_entropy_env)
                (run 2000 tiny_config next_day_env)
  = (true, false, true, false).
Proof. do 4 (split; [reflexivity | ]). vm_compute. reflexivity. Qed.

(* ===================================================================== *)
(** * Further properties of the code *)
(* ===================================================================== *)

(** ** Values of the metadata *)

Lemma clip_duration x : 1 <= py_int_Q (np_clip_Q x 1 300) <= 300.
Proof.
  unfold np_clip_Q, py_int_Q.
  destruct (Qle_bool x 1) eqn:E1; [vm_compute; split; discriminate | ].
  destruct (Qle_bool 300 x) eqn:E2; [vm_compute; split; discriminate | ].
  destruct x as [n d]. unfold Qle_bool in E1, E2. simpl in *.
  apply Z.leb_gt in E1, E2.
  rewrite Z.quot_div_nonneg by lia.
  split.
  - apply Z.div_le_lower_bound; lia.
  - assert (n / Z.pos d < 300); [ | lia].
    apply Z.div_lt_upper_bound; lia.
Qed.

Lemma RATINGS_range r : In r RATINGS -> 1 <= r <= 5.
Proof. unfold RATINGS. simpl. intros [<- | [<- | [<- | [<- | [<- | []]]]]]; lia. Qed.

Lemma SEARCH_VOCAB_NoDup : NoDup SEARCH_VOCAB.
Proof. apply distinctb_NoDup. reflexivity. Qed.

Lemma NoDup_firstn {A} n (l : list A) : NoDup l -> NoDup (firstn n l).
Proof.
  intros H. rewrite <- (firstn_skipn n l) in H. apply NoDup_app_remove_r in H. exact H.
Qed.

(** What [gen_metadata] stores, type by type. *)
Lemma gen_metadata_values cfg et obj w w' :
  In et EVENT_TYPES ->
  gen_metadata cfg et w = Done obj w' ->
  metadata_values et obj.
Proof.
  intros Het H. unfold gen_metadata in H. unfold metadata_values.
  destruct (String.eqb_spec et "read_online") as [->|N1].
  { peel H as x w1 E1. peel H as pl w2 E2. done_ret H.
    apply np_choice1_done in E2 as [Hpl _].
    left. split; [reflexivity | ]. eexists _, _. split; [reflexivity | ].
    split; [apply clip_duration | exact Hpl]. }
  destruct (String.eqb_spec et "download") as [->|N2].
  { peel H as f w1 E1. peel H as o w2 E2. peel H as v1 w3 E3.
    peel H as v2 w4 E4. peel H as v3 w5 E5. done_ret H.
    apply np_choice1_done in E1 as [Hf _]. apply np_choice1_done in E2 as [Ho _].
    apply np_randint_done in E3 as [H1 _]. apply np_randint_done in E4 as [H2 _].
    apply np_randint_done in E5 as [H3 _].
    right. left. split; [reflexivity | ]. exists f, o, v1, v2, v3.
    split; [reflexivity | ]. splits; auto; lia. }
  destruct (String.eqb_spec et "review") as [->|N3].
  { peel H as r w1 E1. peel H as k w2 E2. peel H as s w3 E3. done_ret H.
    apply np_choice1_done in E1 as [Hr _].
    right. right. left. split; [reflexivity | ]. exists r, s.
    split; [reflexivity | apply RATINGS_range; exact Hr]. }
  apply EVENT_TYPES_cases in Het as [-> | [-> | [-> | ->]]]; try congruence.
  peel H as k w1 E1. peel H as t w2 E2. peel H as n w3 E3. done_ret H.
  apply np_randint_done in E1 as [Hk _].
  apply np_choice_norepl_done in E2 as (Hsz & (perm & Hperm & ->) & _).
  right. right. right. split; [reflexivity | ].
  eexists _, _. split; [reflexivity | ].
  assert (Hlen : List.length perm = 38%nat).
  { rewrite <- (Permutation_length Hperm). reflexivity. }
  split; [rewrite length_firstn, Hlen; lia | ].
  split; [apply NoDup_firstn; eapply Permutation_NoDup; [exact Hperm | apply SEARCH_VOCAB_NoDup] | ].
  split.
  - intros x Hx. apply firstn_incl in Hx.
    eapply Permutation_in; [apply Permutation_sym; exact Hperm | exact Hx].
  - unfold np_clip. lia.
Qed.

(** ** Lifting a property of every emitted row to the chunk *)

Lemma generate_chunk_rows_inv (P : Event -> Prop) fuel cfg g :
  (forall tok uid cols cur et cols' cur' w w',
      In et EVENT_TYPES ->
      emit_event fuel cfg g tok uid (cols, cur) et w = Done (cols', cur') w' ->
      exists row, cols' = (cols ++ [row])%list /\ P row) ->
  forall n df w w', generate_chunk fuel cfg g n w = Done df w' -> Forall P df.
Proof.
  intros Hemit n df w w' H. unfold generate_chunk in H.
  peel H as sl w1 E1. peel H as all w2 E2. done_ret H.
  assert (Hall : Forall P all).
  { revert E2.
    apply (for_each_inv (gen_session fuel cfg g) (fun _ cols _ => Forall P cols) (fst sl));
      [ | constructor].
    intros pre slen cols wa cols' wb _ Hcols Hs. unfold gen_session in Hs.
    peel Hs as tok wc Ec. peel Hs as uid wd Ed. peel Hs as c we Ee.
    peel Hs as ets wf Ef. peel Hs as st wg Eg. done_ret Hs.
    apply np_choice_done in Ef as (_ & _ & Hin & _).
    revert Eg.
    apply (for_each_inv (emit_event fuel cfg g tok uid)
             (fun _ st _ => Forall P (fst st)) ets); [ | exact Hcols].
    intros pre' et [cols1 cur1] wh [cols2 cur2] wi Het Hst He. simpl in *.
    rewrite Forall_forall in Hin.
    destruct (Hemit _ _ _ _ _ _ _ _ _ (Hin et Het) He) as (row & -> & Hrow).
    apply Forall_app. split; [exact Hst | constructor; [exact Hrow | constructor]]. }
  destruct (_ >? n); [ | exact Hall].
  rewrite Forall_forall in *. intros r Hr. apply Hall.
  unfold iloc_to in Hr. destruct (n <? 0); apply firstn_incl in Hr; exact Hr.
Qed.

Lemma emit_event_metadata fuel cfg g tok uid cols cur et cols' cur' w w' :
  In et EVENT_TYPES ->
  emit_event fuel cfg g tok uid (cols, cur) et w = Done (cols', cur') w' ->
  exists row, cols' = (cols ++ [row])%list /\ metadata_in_range row.
Proof.
  intros Het H. unfold emit_event in H.
  peel H as eid w1 E1. peel H as bid w2 E2. peel H as meta w3 E3. peel H as gap w4 E4.
  unfold ret in H. injection H as <- _ _.
  eexists. split; [reflexivity | ]. exists meta. simpl.
  split; [reflexivity | ]. split; [apply json_loads_dumps | ].
  eapply gen_metadata_values; eassumption.
Qed.

(** X1.  Every row of a chunk carries, as compact JSON that reads back to
    the dict it was written from, values in the ranges the generator
    draws them from: a reading duration of 1 to 300 minutes on one of the
    two platforms; one of the four formats, one of the five operating
    systems and a version [a.b.c] with [a] in 1..3 and [b], [c] in 0..9;
    a rating of 1 to 5 with its sentence; one to three distinct terms of
    the vocabulary with a result count of 0 to 500. *)
Theorem metadata_values_in_range fuel cfg g n w df w' :
  generate_chunk fuel cfg g n w = Done df w' ->
  Forall metadata_in_range df.
Proof.
  apply (generate_chunk_rows_inv metadata_in_range).
  intros tok uid cols cur et cols' cur' wa wb Het He.
  eapply emit_event_metadata; eassumption.
Qed.

Lemma metadata_values_in_range_witness :
  exists df w',
    generate_chunk 50 tiny_config sample_globals 12 sample_world = Done df w' /\
    List.length df = 12%nat /\
    Forall metadata_in_range df.
Proof.
  destruct (generate_chunk 50 tiny_config sample_globals 12 sample_world)
    as [df w'| |] eqn:E;
    [ | vm_compute in E; discriminate | vm_compute in E; discriminate].
  exists df, w'. split; [reflexivity | ]. split.
  - apply Nat2Z.inj. eapply generate_chunk_row_count_aux; [ | exact E]. lia.
  - exact (metadata_values_in_range 50 tiny_config sample_globals 12 sample_world df w' E).
Defined.

(** ** The pace of a session *)

Lemma adjacent_app {A} (R : A -> A -> Prop) (l1 l2 : list A) :
  adjacent R l1 -> adjacent R l2 ->
  (forall a b, In a l1 -> In b l2 -> R a b) ->
  adjacent R (l1 ++ l2).
Proof.
  induction l1 as [|a [|b t] IH]; intros H1 H2 Hx; simpl.
  - exact H2.
  - destruct l2 as [|c l2]; [exact I | ]. split; [ | exact H2].
    apply Hx; left; reflexivity.
  - destruct H1 as [Hab Ht]. split; [exact Hab | ].
    apply IH; [exact Ht | exact H2 | ].
    intros x y Hx' Hy. apply Hx; [right; exact Hx' | exact Hy].
Qed.

Lemma adjacent_nth {A} (R : A -> A -> Prop) (l : list A) :
  adjacent R l ->
  forall i a b, nth_error l i = Some a -> nth_error l (S i) = Some b -> R a b.
Proof.
  induction l as [|x [|y t] IH]; intros H i a b Hi Hj.
  - destruct i; discriminate.
  - destruct i; discriminate.
  - destruct H as [Hxy Ht]. destruct i as [|i].
    + simpl in Hi, Hj. injection Hi as <-. injection Hj as <-. exact Hxy.
    + apply (IH Ht i a b); [exact Hi | exact Hj].
Qed.

Lemma session_rows_paced cfg g ur tok uid p cur rows :
  0 <= NOW g -> END_TS g = NOW g / usec -> cur <= NOW g ->
  session_rows cfg g ur tok uid p cur rows ->
  adjacent (paced g) rows /\
  match rows with
  | [] => True
  | r :: _ => event_timestamp r = cur / usec
  end.
Proof.
  intros Hnow Hend Hcur Hrows. induction Hrows
    as [|p cur row gap rest Hid Hs Huid Ht Hty Hb Hm Hgap Hrest IH].
  - split; exact I.
  - split; [ | exact Ht].
    assert (Hstep : clamp_now g (cur + gap * usec) <= NOW g).
    { unfold clamp_now. destruct (Z.gtb_spec (cur + gap * usec) (NOW g)); lia. }
    destruct (IH Hstep) as [Hadj Hhead].
    destruct rest as [|r2 rest]; [exact I | ].
    split; [ | exact Hadj].
    intros _. rewrite Ht, Hhead. unfold clamp_now.
    destruct (Z.gtb_spec (cur + gap * usec) (NOW g)) as [Hgt|Hle].
    + rewrite Hend. split; [ | intros _; reflexivity]. split.
      * apply Z.div_le_mono; [unfold usec; lia | exact Hcur].
      * assert (NOW g / usec <= (cur + gap * usec) / usec)
          by (apply Z.div_le_mono; [unfold usec; lia | lia]).
        rewrite Z.div_add in H by (unfold usec; lia). lia.
    + rewrite Z.div_add by (unfold usec; lia). split; lia.
Qed.

Lemma chunk_blocks_paced cfg g ur p lens blocks :
  0 <= NOW g -> END_TS g = NOW g / usec ->
  chunk_blocks cfg g ur p lens blocks ->
  tokens_distinct ur p (blocks_end p blocks) ->
  adjacent (paced g) (List.concat blocks).
Proof.
  intros Hnow Hend Hbs. induction Hbs as [|p len lens b bs Hb Hlen Hrest IH]; intros Hinj; simpl.
  - exact I.
  - pose proof (chunk_blocks_sids _ _ _ _ _ _ Hrest) as Hsids.
    rewrite blocks_end_cons in Hsids.
    pose proof (blocks_end_ge (p + 1 + N.of_nat (List.length b)) bs) as Hge.
    rewrite blocks_end_cons in Hge.
    destruct Hb as (uid & ts0 & _ & Hts & Hrows).
    assert (Hcur : ts0 * usec <= NOW g).
    { pose proof (Z.mul_div_le (NOW g) usec). unfold usec in *. nia. }
    pose proof (session_rows_sid _ _ _ _ _ _ _ _ Hrows) as Hall.
    apply session_rows_paced in Hrows as [Hadj _]; try assumption.
    apply adjacent_app; [exact Hadj | | ].
    + apply IH. rewrite blocks_end_cons. intros x y Hx Hy. apply Hinj; lia.
    + intros a c Ha Hc Heq. exfalso.
      rewrite Forall_forall in Hall, Hsids.
      pose proof (Hall a Ha) as Hsa. destruct (Hsids c Hc) as (q & Hq & Hsc).
      assert (p = q) by (apply Hinj; [lia | lia | congruence]). lia.
Qed.

(** X2.  Two consecutive rows of a chunk that share a [session_id] are at
    most 1800 seconds apart, the later one not before the earlier; they
    are at least 15 seconds apart unless the later one was clamped to the
    time the run started and carries [END_TS].  The tokens [uuid4]
    returned during the call are pairwise distinct and the clock is read
    between the epoch and [late_clock]. *)
Theorem session_pace cfg env g w0 :
  module_init cfg env (boot env) = Done g w0 ->
  0 <= wall_clock env < late_clock ->
  forall fuel n w df w',
    generate_chunk fuel cfg g n w = Done df w' ->
    tokens_distinct (ur_tape w) (ur_pos w) (ur_pos w') ->
    forall i a b,
      nth_error df i = Some a -> nth_error df (S i) = Some b ->
      session_id a = session_id b ->
      event_timestamp a <= event_timestamp b <= event_timestamp a + 1800 /\
      (event_timestamp b < event_timestamp a + 15 -> event_timestamp b = END_TS g).
Proof.
  intros Hinit Hclock fuel n w df w' H Hinj i a b Hi Hj Hsid.
  apply module_init_done in Hinit as (Hnow & _ & _ & Hets & _).
  assert (Hend : END_TS g = NOW g / usec).
  { rewrite Hets, int_timestamp_exact by lia.
    apply Z.quot_div_nonneg; [lia | unfold usec; lia]. }
  apply generate_chunk_done in H as (lens & blocks & _ & _ & _ & Hbs & -> & Hur & _).
  rewrite Hur in Hinj.
  assert (Hadj : adjacent (paced g) (List.concat blocks))
    by (eapply chunk_blocks_paced; [lia | exact Hend | exact Hbs | exact Hinj]).
  apply chunk_prefix_nth in Hi, Hj.
  exact (adjacent_nth _ _ Hadj i a b Hi Hj Hsid).
Qed.

Lemma session_pace_witness :
  module_init tiny_config sample_env (boot sample_env) = Done sample_globals sample_world /\
  0 <= wall_clock sample_env < late_clock /\
  exists df w' a b,
    generate_chunk 50 tiny_config sample_globals 12 sample_world = Done df w' /\
    tokens_distinct (ur_tape sample_world) (ur_pos sample_world) (ur_pos w') /\
    nth_error df 0 = Some a /\ nth_error df 1 = Some b /\
    session_id a = session_id b /\
    event_timestamp a <= event_timestamp b <= event_timestamp a + 1800 /\
    (event_timestamp b < event_timestamp a + 15 ->
     event_timestamp b = END_TS sample_globals).
Proof.
  split; [reflexivity | ].
  assert (Hclock : 0 <= wall_clock sample_env < late_clock)
    by (unfold late_clock, usec; simpl; lia).
  split; [exact Hclock | ].
  destruct (generate_chunk 50 tiny_config sample_globals 12 sample_world)
    as [df w'| |] eqn:E;
    [ | vm_compute in E; discriminate | vm_compute in E; discriminate].
  pose proof E as E'. vm_compute in E'. injection E' as Hdf Hw'. subst df w'.
  assert (Htok : tokens_distinct (ur_tape sample_world) (ur_pos sample_world) 17).
  { apply tokens_distinct_check. vm_compute. reflexivity. }
  eexists _, _, _, _. split; [reflexivity | ]. split; [exact Htok | ].
  split; [reflexivity | ]. split; [reflexivity | ].
  split; [reflexivity | ].
  exact (session_pace tiny_config sample_env sample_globals sample_world
           eq_refl Hclock 50%nat 12 sample_world _ _ E Htok 0%nat _ _
           eq_refl eq_refl eq_refl).
Defined.

(** ** The shape of the identifiers *)

Lemma is_hex_digit x : is_hex (hex_digit (Z.land x 15)) = true.
Proof.
  change 15 with (Z.ones 4). rewrite Z.land_ones by lia. change (2 ^ 4) with 16.
  pose proof (Z.mod_pos_bound x 16 ltac:(lia)) as Hd.
  assert (H : In (x mod 16) [0; 1; 2; 3; 4; 5; 6; 7; 8; 9; 10; 11; 12; 13; 14; 15])
    by (simpl; lia).
  revert H. generalize (x mod 16). intros d H. simpl in H.
  repeat (destruct H as [<- | H]; [reflexivity | ]). contradiction.
Qed.

Lemma testbit_15 n : 0 <= n -> Z.testbit 15 n = (n <? 4).
Proof.
  intros Hn. change 15 with (Z.ones 4). destruct (Z.ltb_spec n 4).
  - apply Z.ones_spec_low. lia.
  - apply Z.ones_spec_high. lia.
Qed.

(** The version digit: bits 76 to 79 of the integer are 0100. *)
Lemma uuid4_int_version raw : Z.land (Z.shiftr (uuid4_int raw) 76) 15 = 4.
Proof.
  apply Z.bits_inj'. intros n Hn. unfold uuid4_int.
  rewrite Z.land_spec, Z.shiftr_spec, testbit_15 by lia.
  rewrite Z.lor_spec, Z.ldiff_spec, !Z.shiftl_spec by lia.
  replace (n + 76 - 76) with n by lia. replace (n + 76 - 64) with (n + 12) by lia.
  destruct (Z.ltb_spec n 4) as [Hlt|Hge].
  - assert (Hc : n = 0 \/ n = 1 \/ n = 2 \/ n = 3) by lia.
    destruct Hc as [-> | [-> | [-> | ->]]]; simpl Z.add;
      change (Z.testbit 61440 12) with true; change (Z.testbit 61440 13) with true;
      change (Z.testbit 61440 14) with true; change (Z.testbit 61440 15) with true;
      rewrite andb_false_r; reflexivity.
  - rewrite andb_false_r. symmetry. change 4 with (2 ^ 2) at 1.
    apply Z.pow2_bits_false. lia.
Qed.

Lemma land_3_cases y :
  Z.land y 3 = 0 \/ Z.land y 3 = 1 \/ Z.land y 3 = 2 \/ Z.land y 3 = 3.
Proof.
  replace (Z.land y 3) with (y mod 4)
    by (symmetry; change 3 with (Z.ones 2); apply Z.land_ones; lia).
  pose proof (Z.mod_pos_bound y 4 ltac:(lia)). lia.
Qed.

(** The variant digit: bit 63 is set and bit 62 is clear, so the digit is
    8 plus the two bits below them. *)
Lemma uuid4_int_variant raw :
  exists m, 0 <= m <= 3 /\ Z.land (Z.shiftr (uuid4_int raw) 60) 15 = 8 + m.
Proof.
  set (a := Z.land (Z.of_N raw) (Z.ones 128)).
  exists (Z.land (Z.shiftr a 60) 3). split.
  { pose proof (land_3_cases (Z.shiftr a 60)). lia. }
  assert (E : Z.land (Z.shiftr (uuid4_int raw) 60) 15
              = Z.lor 8 (Z.land (Z.shiftr a 60) 3)).
  { apply Z.bits_inj'. intros n Hn. unfold uuid4_int. fold a. clearbody a.
    rewrite Z.lor_spec, !Z.land_spec, !Z.shiftr_spec, testbit_15 by lia.
    repeat rewrite ?Z.lor_spec, ?Z.ldiff_spec. rewrite !Z.shiftl_spec by lia.
    replace (n + 60 - 76) with (n - 16) by lia.
    replace (n + 60 - 64) with (n - 4) by lia.
    replace (n + 60 - 48) with (n + 12) by lia.
    destruct (Z.ltb_spec n 4) as [Hlt|Hge].
    - rewrite (Z.testbit_neg_r 4 (n - 16)), (Z.testbit_neg_r 61440 (n - 4)) by lia.
      generalize (Z.testbit a (n + 60)). intros b.
      assert (Hc : n = 0 \/ n = 1 \/ n = 2 \/ n = 3) by lia.
      destruct Hc as [-> | [-> | [-> | ->]]]; destruct b; reflexivity.
    - rewrite andb_false_r. symmetry. apply orb_false_intro.
      + change 8 with (2 ^ 3). apply Z.pow2_bits_false. lia.
      + change 3 with (Z.ones 2). rewrite Z.ones_spec_high by lia. apply andb_false_r. }
  rewrite E.
  destruct (land_3_cases (Z.shiftr a 60)) as [-> | [-> | [-> | ->]]]; reflexivity.
Qed.

Lemma nibble_shift z k : nibble (Z.shiftr z 4) k = nibble z (S k).
Proof.
  unfold nibble. rewrite Z.shiftr_shiftr by lia. do 2 f_equal. lia.
Qed.

Lemma hex_digits_shift z : forall w,
  (hex_digits (Z.shiftr z 4) w ++ String (hex_digit (Z.land z 15)) "")%string
  = hex_digits z (S w).
Proof.
  induction w as [|w IH].
  - reflexivity.
  - change (hex_digits (Z.shiftr z 4) (S w))
      with (String (hex_digit (nibble (Z.shiftr z 4) w)) (hex_digits (Z.shiftr z 4) w)).
    cbn [append]. rewrite IH, nibble_shift. reflexivity.
Qed.

(** [hex_fixed] writes the digits from the most significant one down. *)
Lemma hex_fixed_digits : forall w z, hex_fixed w z = hex_digits z w.
Proof.
  induction w as [|w IH]; intros z; [reflexivity | ].
  cbn [hex_fixed]. rewrite IH. apply hex_digits_shift.
Qed.

Lemma is_hex_nibble i k : is_hex (hex_digit (nibble i k)) = true.
Proof. apply is_hex_digit. Qed.

(** The text of any integer below [2 ^ 128]: 32 digits in five groups. *)
Lemma uuid_str_layout i :
  String.length (uuid_str i) = 36%nat /\
  (forall k c, get k (uuid_str i) = Some c ->
     if (k =? 8)%nat || (k =? 13)%nat || (k =? 18)%nat || (k =? 23)%nat
     then c = "-"%char else is_hex c = true) /\
  get 14 (uuid_str i) = Some (hex_digit (nibble i 19)) /\
  get 19 (uuid_str i) = Some (hex_digit (nibble i 15)).
Proof.
  split; [apply uuid_str_csv | ].
  unfold uuid_str. rewrite hex_fixed_digits. cbn [hex_digits append substring].
  split; [ | split; reflexivity].
  intros k c H.
  do 36 (destruct k as [|k];
         [cbn [get] in H; injection H as <-;
          first [apply is_hex_nibble | reflexivity] | ]).
  discriminate H.
Qed.

Lemma token_uuid4_text ur p : uuid4_text (token ur p).
Proof.
  unfold token, uuid4_text.
  destruct (uuid_str_layout (uuid4_int (ur p))) as (Hlen & Hget & H14 & H19).
  split; [exact Hlen | ]. split; [exact Hget | ]. split.
  - rewrite H14. unfold nibble. change (4 * Z.of_nat 19) with 76.
    rewrite uuid4_int_version. reflexivity.
  - destruct (uuid4_int_variant (ur p)) as (m & Hm & E).
    rewrite H19. unfold nibble. change (4 * Z.of_nat 15) with 60.
    rewrite E. eexists. split; [reflexivity | ].
    assert (Hc : m = 0 \/ m = 1 \/ m = 2 \/ m = 3) by lia.
    destruct Hc as [-> | [-> | [-> | ->]]]; vm_compute; tauto.
Qed.

Lemma session_rows_tokens cfg g ur tok uid p cur rows :
  session_rows cfg g ur tok uid p cur rows ->
  Forall (fun r => (exists q, event_id r = token ur q) /\ session_id r = tok) rows.
Proof. induction 1; constructor; eauto. Qed.

Lemma chunk_blocks_tokens cfg g ur p lens blocks :
  chunk_blocks cfg g ur p lens blocks ->
  Forall (fun r => (exists q, event_id r = token ur q) /\
                   (exists q, session_id r = token ur q)) (List.concat blocks).
Proof.
  induction 1 as [|p len lens b bs (uid & ts0 & _ & _ & Hrows) _ _ IH]; simpl.
  - constructor.
  - apply Forall_app. split; [ | exact IH].
    apply session_rows_tokens in Hrows.
    eapply Forall_impl; [ | exact Hrows]. simpl. intros r [He Hs]. eauto.
Qed.

(** X3.  Every [event_id] and every [session_id] of a chunk is the text
    of a version 4 UUID: 36 characters, hyphens after 8, 12, 16 and 20
    digits, lower-case hexadecimal digits elsewhere, version digit 4 and
    variant digit 8, 9, a or b, whatever the operating system's entropy
    was. *)
Theorem identifiers_are_uuid4 fuel cfg g n w df w' :
  generate_chunk fuel cfg g n w = Done df w' ->
  Forall (fun r => uuid4_text (event_id r) /\ uuid4_text (session_id r)) df.
Proof.
  intros H. apply generate_chunk_incl in H as (lens & blocks & Hbs & Hincl).
  apply chunk_blocks_tokens in Hbs. rewrite Forall_forall in *.
  intros r Hr. destruct (Hbs r (Hincl r Hr)) as [(q1 & ->) (q2 & ->)].
  split; apply token_uuid4_text.
Qed.

Lemma identifiers_are_uuid4_witness :
  exists df w',
    generate_chunk 50 tiny_config sample_globals 12 sample_world = Done df w' /\
    List.length df = 12%nat /\
    Forall (fun r => uuid4_text (event_id r) /\ uuid4_text (session_id r)) df.
Proof.
  destruct (generate_chunk 50 tiny_config sample_globals 12 sample_world)
    as [df w'| |] eqn:E;
    [ | vm_compute in E; discriminate | vm_compute in E; discriminate].
  exists df, w'. split; [reflexivity | ]. split.
  - apply Nat2Z.inj. eapply generate_chunk_row_count_aux; [ | exact E]. lia.
  - exact (identifiers_are_uuid4 50 tiny_config sample_globals 12 sample_world df w' E).
Defined.

(** ** The plan of sessions *)

Lemma np_geometric_run p w :
  Qle_bool p 0 || negb (Qle_bool p 1) = false ->
  np_geometric p w = Done (rank_at w 0) (np_advance w 1).
Proof.
  intros Hp. unfold np_geometric. rewrite Hp. unfold bind, np_next, ret.
  rewrite with_np_succ, rank_at_0. reflexivity.
Qed.

(** One word of the stream is read for every session planned. *)
Lemma session_lengths_loop_reads n p max_len : forall fuel lengths total lens tot w w',
  session_lengths_loop fuel n p max_len lengths total w = Done (lens, tot) w' ->
  exists new, lens = (lengths ++ new)%list /\ w' = np_advance w (N.of_nat (List.length new)).
Proof.
  induction fuel as [|fuel IH]; intros lengths total lens tot w w' H; simpl in H;
    destruct (total <? n); try discriminate;
    try (unfold ret in H; injection H as <- _ <-; exists [];
         rewrite app_nil_r, np_advance_0; split; reflexivity).
  peel H as l w1 E.
  assert (Hw1 : w1 = np_advance w 1).
  { unfold np_geometric in E. destruct (_ || _); [discriminate | ].
    peel E as raw w2 E2. done_ret E. apply np_next_done in E2 as [_ ->].
    apply with_np_succ. }
  apply IH in H as (new & -> & ->). subst w1.
  eexists (_ :: new). rewrite <- app_assoc. split; [reflexivity | ].
  rewrite np_advance_add. f_equal. simpl List.length. lia.
Qed.

Lemma Zsum_ge_length (l : list Z) :
  Forall (fun x => 1 <= x) l -> Z.of_nat (List.length l) <= Zsum l.
Proof. induction 1; simpl; [lia | ]. simpl in *. lia. Qed.

(** X4.  For a cap of at least one, [draw_session_lengths] returns the
    lengths it drew, each between 1 and the cap, with their sum; the sum
    reaches the target and overshoots it by less than the cap; there are
    no more sessions than events asked for; and exactly one word of
    numpy's stream was read per session. *)
Theorem draw_session_lengths_sum fuel n p max_len w lens tot w' :
  1 <= max_len ->
  draw_session_lengths fuel n p max_len w = Done (lens, tot) w' ->
  tot = Zsum lens /\
  Forall (fun l => 1 <= l <= max_len) lens /\
  Z.max 0 n <= tot < Z.max 0 n + max_len /\
  Z.of_nat (List.length lens) <= Z.max 0 n /\
  w' = np_advance w (N.of_nat (List.length lens)).
Proof.
  intros Hmax H. unfold draw_session_lengths in H.
  pose proof (session_lengths_loop_reads _ _ _ _ _ _ _ _ _ _ H) as (new' & Hn' & Hw).
  apply session_lengths_loop_done in H as (new & -> & -> & Hall & Hn & Hlast & _);
    [ | exact Hmax].
  simpl in Hn'. subst new'. simpl.
  split; [reflexivity | ]. split; [exact Hall | ].
  assert (Hpos : 0 <= Zsum new).
  { assert (Z.of_nat (List.length new) <= Zsum new); [ | lia].
    apply Zsum_ge_length. eapply Forall_impl; [ | exact Hall]. simpl. lia. }
  destruct Hlast as [[-> Hle]|(front & l & -> & Hlt)].
  - simpl in *. splits; auto; lia.
  - apply Forall_app in Hall as [Hfront Hl]. inversion Hl as [|? ? Hl1 _]; subst.
    rewrite Zsum_app in *. simpl in *.
    assert (Z.of_nat (List.length front) <= Zsum front).
    { apply Zsum_ge_length. eapply Forall_impl; [ | exact Hfront]. simpl. lia. }
    rewrite length_app. simpl. splits; auto; lia.
Qed.

Lemma draw_session_lengths_sum_witness :
  1 <= MAX_SESSION_LEN /\
  exists lens tot w',
    draw_session_lengths 50 12 GEOM_P MAX_SESSION_LEN sample_world = Done (lens, tot) w' /\
    tot = Zsum lens /\ 12 <= tot < 12 + MAX_SESSION_LEN /\
    w' = np_advance sample_world (N.of_nat (List.length lens)).
Proof.
  assert (Hmax : 1 <= MAX_SESSION_LEN) by (unfold MAX_SESSION_LEN; lia).
  split; [exact Hmax | ].
  destruct (draw_session_lengths 50 12 GEOM_P MAX_SESSION_LEN sample_world)
    as [[lens tot] w'| |] eqn:E;
    [ | vm_compute in E; discriminate | vm_compute in E; discriminate].
  destruct (draw_session_lengths_sum _ _ _ _ _ _ _ _ Hmax E) as (Ht & _ & Hb & _ & Hw).
  exists lens, tot, w'. splits; auto; lia.
Defined.

Lemma session_lengths_loop_capped n p max_len : forall fuel lengths total w,
  Qle_bool p 0 || negb (Qle_bool p 1) = false -> max_len <= 0 -> total < n ->
  is_timeout (session_lengths_loop fuel n p max_len lengths total w) = true.
Proof.
  induction fuel as [|fuel IH]; intros lengths total w Hp Hmax Hlt; simpl;
    destruct (Z.ltb_spec total n); try lia; [reflexivity | ].
  rewrite (bind_done_intro _ _ _ _ _ (np_geometric_run p w Hp)).
  apply IH; [exact Hp | exact Hmax | ].
  unfold rank_at. destruct (Z.gtb_spec (1 + Z.of_N (np_tape w (np_pos w + N.of_nat 0))) max_len);
    lia.
Qed.

(** X5.  The edges of [draw_session_lengths].  A target of zero or less
    returns the empty plan without a draw and without a look at [p] or
    the cap.  For a positive target: a [p] outside (0, 1] makes the first
    draw raise [ValueError]; a cap of zero or less clamps every length to
    it, so the total never grows and the loop does not end, however many
    rounds it is given; otherwise [n_target] rounds always suffice. *)
Theorem draw_session_lengths_edges fuel n p max_len w :
  (n <= 0 -> draw_session_lengths fuel n p max_len w = Done ([], 0) w) /\
  (0 < n -> Qle_bool p 0 || negb (Qle_bool p 1) = true ->
   draw_session_lengths (S fuel) n p max_len w = Raise (ValueError "p out of range") w) /\
  (0 < n -> Qle_bool p 0 || negb (Qle_bool p 1) = false -> max_len <= 0 ->
   is_timeout (draw_session_lengths fuel n p max_len w) = true) /\
  (0 < n -> Qle_bool p 0 || negb (Qle_bool p 1) = false -> 1 <= max_len ->
   (Z.to_nat n <= fuel)%nat ->
   exists res w', draw_session_lengths fuel n p max_len w = Done res w').
Proof.
  unfold draw_session_lengths. splits.
  - intros Hn. destruct fuel; simpl; destruct (Z.ltb_spec 0 n); try lia; reflexivity.
  - intros Hn Hp. simpl. destruct (Z.ltb_spec 0 n); try lia.
    unfold bind, np_geometric. rewrite Hp. reflexivity.
  - intros Hn Hp Hmax. apply session_lengths_loop_capped; assumption.
  - intros Hn Hp Hmax Hfuel. apply session_lengths_loop_total; try assumption.
    rewrite Z.sub_0_r. exact Hfuel.
Qed.


(** ** How [draw_zipf_id] can fail *)

Lemma np_index_raise {A} (x : list A) i e w w' :
  0 <= i -> np_index x i w = Raise e w' ->
  e = IndexError /\ w' = w /\ Z.of_nat (List.length x) <= i.
Proof.
  intros Hi H. unfold np_index in H.
  destruct (Z.ltb_spec i 0) as [Hneg|_]; [lia | ].
  destruct (Z.ltb_spec i 0) as [Hneg|_]; [lia | ].
  destruct (Z.leb_spec (Z.of_nat (List.length x)) i) as [Hle|Hlt]; simpl in H.
  - unfold raise in H. injection H as <- <-. auto.
  - destruct (nth_error x (Z.to_nat i)) eqn:E; [discriminate | ].
    apply nth_error_None in E. lia.
Qed.

(** X6.  The ways [draw_zipf_id] can raise.  An exponent of 1 or less is
    refused by the first [zipf] draw with [ValueError].  Otherwise the
    only exception is [IndexError], raised when the first rank that the
    loop accepts lies past the end of [mapping]; the index [r - 1] is
    never negative, so Python's wrap-around of negative indices is never
    used.  With [max_id] at most the length of [mapping] the call never
    raises. *)
Theorem draw_zipf_id_errors fuel max_id a mapping w :
  (Qle_bool a 1 = true ->
   draw_zipf_id fuel max_id a mapping w = Raise (ValueError "a <= 1") w) /\
  (Qle_bool a 1 = false ->
   forall e w', draw_zipf_id fuel max_id a mapping w = Raise e w' ->
     e = IndexError /\
     exists k, (k <= fuel)%nat /\
       (forall i, (i < k)%nat -> max_id < rank_at w i) /\
       Z.of_nat (List.length mapping) < rank_at w k <= max_id /\
       w' = np_advance w (N.of_nat (S k))) /\
  (Qle_bool a 1 = false -> max_id <= Z.of_nat (List.length mapping) ->
   forall e w', draw_zipf_id fuel max_id a mapping w <> Raise e w').
Proof.
  assert (Hraise : Qle_bool a 1 = false ->
    forall e w', draw_zipf_id fuel max_id a mapping w = Raise e w' ->
      e = IndexError /\
      exists k, (k <= fuel)%nat /\
        (forall i, (i < k)%nat -> max_id < rank_at w i) /\
        Z.of_nat (List.length mapping) < rank_at w k <= max_id /\
        w' = np_advance w (N.of_nat (S k))).
  { intros Ha e w' H. unfold draw_zipf_id in H.
    rewrite (bind_done_intro _ _ _ _ _ (np_zipf_run a w Ha)) in H.
    unfold bind in H.
    destruct (zipf_reject fuel a max_id (rank_at w 0) (np_advance w 1))
      as [r w1|e1 w1|w1] eqn:E; [ | | discriminate].
    - apply zipf_reject_done in E as (k & Hk & -> & Hle & Hshape).
      assert (Hr : r = rank_at w k /\ forall i, (i < k)%nat -> max_id < rank_at w i).
      { destruct k as [|k'].
        - subst r. split; [reflexivity | intros i Hi; lia].
        - destruct Hshape as (H0 & Hrej & ->). split; [apply rank_at_advance | ].
          intros [|i] Hi; [exact H0 | ]. rewrite <- rank_at_advance. apply Hrej. lia. }
      destruct Hr as [-> Hrej].
      apply np_index_raise in H as (-> & -> & Hlen); [ | unfold rank_at; lia].
      split; [reflexivity | ]. exists k. splits; auto; try lia.
      rewrite np_advance_add. f_equal. lia.
    - exfalso. eapply zipf_reject_no_raise; eassumption. }
  split; [ | split; [exact Hraise | ]].
  - intros Ha. unfold draw_zipf_id, bind, np_zipf. rewrite Ha. reflexivity.
  - intros Ha Hlen e w' H.
    destruct (Hraise Ha e w' H) as (_ & k & _ & _ & Hk & _). lia.
Qed.

(** ** The sampling window *)

(** X7.  When the clock reads a time at least 730 days after the epoch
    and before [late_clock], the window of whole seconds is exactly 730
    days wide, so [rand_ts_last_two_years] never fails and returns a whole
    second of the window; the two identifier maps have as many entries as
    their pools. *)
Theorem sampling_window_width cfg env g w0 :
  module_init cfg env (boot env) = Done g w0 ->
  timedelta_days 730 <= wall_clock env < late_clock ->
  END_TS g - START_TS g = 63072000 /\
  (forall w, exists ts w',
      rand_ts_last_two_years g w = Done (ts * usec) w' /\
      START_TS g <= ts <= END_TS g) /\
  Z.of_nat (List.length (USER_ID_MAP g)) = Z.max 0 (USER_POOL_SIZE cfg) /\
  Z.of_nat (List.length (BOOK_ID_MAP g)) = Z.max 0 (BOOK_POOL_SIZE cfg).
Proof.
  intros Hinit Hclock.
  apply module_init_done in Hinit as (Hnow & Hstart & Hsts & Hets & Hu & Hb & _).
  assert (Hwidth : END_TS g - START_TS g = 63072000).
  { rewrite Hsts, Hets, Hstart, Hnow.
    rewrite !int_timestamp_exact by (unfold timedelta_days, late_clock, usec in *; lia).
    unfold timedelta_days, usec in *.
    rewrite !Z.quot_div_nonneg by lia.
    replace (wall_clock env - 730 * 86400 * 1000000)
      with (wall_clock env + (- 63072000) * 1000000) by lia.
    rewrite Z.div_add by lia. lia. }
  split; [exact Hwidth | ]. split.
  - intros w. destruct (rand_ts_total g w) as (c & w' & E); [lia | ].
    pose proof E as E'. apply rand_ts_done in E' as [(ts & -> & Hts) _].
    exists ts, w'. split; [exact E | exact Hts].
  - apply Permutation_length in Hu, Hb. rewrite np_arange_length in Hu, Hb.
    rewrite <- Hu, <- Hb. split; lia.
Qed.

Lemma sampling_window_width_witness :
  module_init tiny_config sample_env (boot sample_env) = Done sample_globals sample_world /\
  timedelta_days 730 <= wall_clock sample_env < late_clock /\
  END_TS sample_globals - START_TS sample_globals = 63072000 /\
  Z.of_nat (List.length (USER_ID_MAP sample_globals)) = 3.
Proof.
  assert (Hclock : timedelta_days 730 <= wall_clock sample_env < late_clock)
    by (unfold timedelta_days, late_clock, usec; simpl; lia).
  split; [reflexivity | ]. split; [exact Hclock | ].
  destruct (sampling_window_width tiny_config sample_env sample_globals sample_world
              eq_refl Hclock) as (Hw & _ & Hu & _).
  split; [exact Hw | exact Hu].
Defined.

(** ** The estimate's sample *)

(** X8.  The sample [estimate_avg_row_bytes] generates is measured in
    memory and thrown away: the output file is left as it was, the
    streams and the clock are the same, but the read positions have moved
    on; for a sample of [n] rows, more than [n] tokens of operating-system
    entropy are gone. *)
Theorem estimate_sample_is_discarded fuel cfg g n w avg w' :
  estimate_avg_row_bytes fuel cfg g n w = Done avg w' ->
  out_file w' = out_file w /\
  evolves w w' /\
  (0 < n -> (ur_pos w + N.of_nat (Z.to_nat n) < ur_pos w')%N).
Proof.
  intros H. unfold estimate_avg_row_bytes in H. peel H as df w1 E.
  unfold py_truediv in H. destruct (_ =? 0); [discriminate | ]. done_ret H.
  apply generate_chunk_done in E
    as (lens & blocks & Hall & Hn & Hlast & Hbs & _ & Hur & Hev & Hf).
  split; [exact Hf | ]. split; [exact Hev | ].
  intros Hpos. rewrite Hur. unfold blocks_end.
  pose proof (chunk_blocks_lengths _ _ _ _ _ _ Hbs) as Hlen.
  assert (Hsum : Z.of_nat (List.length (List.concat blocks)) = Zsum lens).
  { apply concat_length_sum; [exact Hlen | ].
    eapply Forall_impl; [ | exact Hall]. simpl. lia. }
  assert (Hne : (0 < List.length blocks)%nat).
  { destruct Hlast as [[_ Hle]|(front & l & -> & _)]; [lia | ].
    apply Forall2_length in Hlen. rewrite <- Hlen, length_app. simpl. lia. }
  lia.
Qed.

Lemma estimate_sample_is_discarded_witness :
  exists avg w',
    estimate_avg_row_bytes 50 tiny_config sample_globals 12 sample_world = Done avg w' /\
    out_file w' = out_file sample_world /\
    (ur_pos sample_world + 12 < ur_pos w')%N.
Proof.
  destruct (estimate_avg_row_bytes 50 tiny_config sample_globals 12 sample_world)
    as [avg w'| |] eqn:E;
    [ | vm_compute in E; discriminate | vm_compute in E; discriminate].
  destruct (estimate_sample_is_discarded _ _ _ _ _ _ _ E) as (Hf & _ & Hur).
  exists avg, w'. split; [reflexivity | ]. split; [exact Hf | ].
  apply (Hur ltac:(lia)).
Defined.

(** ** A file left by an earlier run *)






(** [main] starts by clearing the path. *)
Lemma main_clears_path fuel cfg g w f :
  main fuel cfg g (with_file w f) = main fuel cfg g (with_file w None).
Proof.
  unfold main, plan_and_stream.
  unfold bind at 1 2 3. unfold bind at 4 5 6.
  unfold os_path_exists, os_remove. destruct f; reflexivity.
Qed.



(** ** What the writer leaves in the file *)

Lemma concat_cons (x : string) (l : list string) :
  String.concat "" (x :: l) = (x ++ String.concat "" l)%string.
Proof. destruct l; simpl; [rewrite append_nil_r | ]; reflexivity. Qed.

Lemma concat_app (l1 l2 : list string) :
  String.concat "" (l1 ++ l2) = (String.concat "" l1 ++ String.concat "" l2)%string.
Proof.
  induction l1 as [|x l1 IH]; [reflexivity | ].
  change ((x :: l1) ++ l2)%list with (x :: (l1 ++ l2))%list.
  rewrite !concat_cons, IH, append_assoc. reflexivity.
Qed.

(** Appending a batch without header to a file extends its rows. *)
Lemma to_csv_app (df1 df2 : list Event) (h : bool) :
  to_csv (df1 ++ df2) h = (to_csv df1 h ++ to_csv df2 false)%string.
Proof. unfold to_csv. rewrite map_app, concat_app, append_assoc. reflexivity. Qed.

Lemma generate_chunk_length_le fuel cfg g n df w w' :
  generate_chunk fuel cfg g n w = Done df w' ->
  Z.of_nat (List.length df) = Z.max 0 n /\ out_file w' = out_file w.
Proof.
  intros H. split.
  - destruct (Z.le_gt_cases 0 n) as [Hn|Hn].
    + rewrite (generate_chunk_row_count_aux _ _ _ _ _ _ _ Hn H). lia.
    + rewrite generate_chunk_empty in H by lia. injection H as <- _. simpl. lia.
  - apply generate_chunk_done in H as (lens & blocks & H). apply H.
Qed.

(** The loop once the header is written: every round appends its batch,
    and the loop ends when the rows in the file are [target_rows].  [P] is
    any property of the rows that [generate_chunk] returns. *)
Lemma stream_loop_appends (P : Event -> Prop) fuel cfg g target :
  (forall n df w w', generate_chunk fuel cfg g n w = Done df w' -> Forall P df) ->
  forall fl rw acc w r f w',
    stream_loop fl fuel cfg g target rw false w = Done (r, f) w' ->
    rw <= target ->
    out_file w = Some (to_csv acc true) -> Z.of_nat (List.length acc) = rw ->
    Forall P acc ->
    f = false /\ r = target /\
    exists more, out_file w' = Some (to_csv (acc ++ more) true) /\
                 Z.of_nat (List.length (acc ++ more)) = target /\
                 Forall P (acc ++ more).
Proof.
  intros HP.
  induction fl as [|fl IH]; intros rw acc w r f w' H Hle Hfile Hlen Hacc; simpl in H;
    destruct (Z.ltb_spec rw target) as [Hlt|Hge]; try discriminate.
  - unfold ret in H. injection H as <- <- <-. split; [reflexivity | ]. split; [lia | ].
    exists []. rewrite app_nil_r. split; [exact Hfile | split; [lia | exact Hacc]].
  - peel H as df w1 E1. peel H as u w2 E2.
    pose proof (HP _ _ _ _ E1) as Hdf'.
    apply generate_chunk_length_le in E1 as [Hdf Hf1].
    rewrite <- Hf1 in Hfile.
    pose proof (to_csv_file_append _ _ _ _ _ Hfile E2) as Hf2.
    rewrite <- to_csv_app in Hf2.
    apply (IH _ (acc ++ df)%list) in H;
      [ | lia | exact Hf2 | rewrite length_app; lia | apply Forall_app; auto].
    destruct H as (-> & -> & more & Hm & Hl & Hall).
    split; [reflexivity | ]. split; [reflexivity | ].
    exists (df ++ more)%list. rewrite app_assoc. auto.
  - unfold ret in H. injection H as <- <- <-. split; [reflexivity | ]. split; [lia | ].
    exists []. rewrite app_nil_r. split; [exact Hfile | split; [lia | exact Hacc]].
Qed.

Lemma stream_loop_writes (P : Event -> Prop) fuel cfg g target fl w r f w' :
  (forall n df w w', generate_chunk fuel cfg g n w = Done df w' -> Forall P df) ->
  stream_loop fl fuel cfg g target 0 true w = Done (r, f) w' ->
  (target <= 0 -> r = 0 /\ f = true /\ w' = w) /\
  (0 < target ->
   r = target /\ f = false /\
   exists rows, out_file w' = Some (to_csv rows true) /\
                Z.of_nat (List.length rows) = target /\ Forall P rows).
Proof.
  intros HP H. destruct fl as [|fl]; simpl in H;
    destruct (Z.ltb_spec 0 target) as [Hlt|Hge]; try discriminate.
  - unfold ret in H. injection H as <- <- <-. split; [auto | lia].
  - split; [lia | intros _].
    peel H as df w1 E1. peel H as u w2 E2.
    pose proof (HP _ _ _ _ E1) as Hdf'.
    apply generate_chunk_length_le in E1 as [Hdf _].
    assert (Hf2 : out_file w2 = Some (to_csv df true)).
    { unfold to_csv_file in E2. injection E2 as _ <-. reflexivity. }
    apply (stream_loop_appends P _ _ _ _ HP _ _ df) in H;
      [ | lia | exact Hf2 | lia | exact Hdf'].
    destruct H as (-> & -> & more & Hm & Hl & Hall).
    split; [reflexivity | ]. split; [reflexivity | ].
    exists (df ++ more)%list. auto.
  - unfold ret in H. injection H as <- <- <-. split; [auto | lia].
Qed.

Lemma any_row fuel cfg g n df w w' :
  generate_chunk fuel cfg g n w = Done df w' -> Forall (fun _ => True) df.
Proof. intros _. apply Forall_forall. auto. Qed.

(** X10.  When the streaming loop of [main] completes for a positive
    target, the file holds the header line once, followed by exactly
    [target_rows] rows, and the counter equals [target_rows]; for a target
    of zero or less the loop does nothing at all, and the file is not even
    created. *)
Theorem stream_loop_reaches_target fuel cfg g target fl w r f w' :
  stream_loop fl fuel cfg g target 0 true w = Done (r, f) w' ->
  (target <= 0 -> r = 0 /\ f = true /\ w' = w) /\
  (0 < target ->
   r = target /\ f = false /\
   exists rows, out_file w' = Some (to_csv rows true) /\
                Z.of_nat (List.length rows) = target).
Proof.
  intros H. apply (stream_loop_writes (fun _ => True)) in H; [ | apply any_row].
  destruct H as [Hidle Hrun]. split; [exact Hidle | ].
  intros Hpos. destruct (Hrun Hpos) as (Hr & Hf & rows & Hfile & Hlen & _).
  eauto.
Qed.

Lemma stream_loop_reaches_target_witness :
  exists w' rows,
    stream_loop 9 50 tiny_config sample_globals 10 0 true sample_world
    = Done (10, false) w' /\
    out_file w' = Some (to_csv rows true) /\ Z.of_nat (List.length rows) = 10.
Proof.
  destruct (stream_loop 9 50 tiny_config sample_globals 10 0 true sample_world)
    as [[r f] w'| |] eqn:E;
    [ | vm_compute in E; discriminate | vm_compute in E; discriminate].
  destruct (proj2 (stream_loop_reaches_target _ _ _ _ _ _ _ _ _ E) ltac:(lia))
    as (-> & -> & rows & Hfile & Hlen).
  exists w', rows. auto.
Defined.


(** ** The streaming loop ends *)

Lemma stream_loop_total B fuel cfg g tape :
  fair B (Z.min (USER_POOL_SIZE cfg) (BOOK_POOL_SIZE cfg)) tape ->
  (B <= fuel)%nat -> globals_ok cfg g -> valid_probs cfg ->
  1 <= DEFAULT_CHUNK_ROWS cfg ->
  forall target, (Z.to_nat (Z.min (DEFAULT_CHUNK_ROWS cfg) target) <= fuel)%nat ->
  forall fl rw first w,
    np_tape w = tape -> 0 <= rw -> (Z.to_nat (target - rw) <= fl)%nat ->
    exists r f w', stream_loop fl fuel cfg g target rw first w = Done (r, f) w'.
Proof.
  intros Hfair HB Hg Hp Hchunk target Hfuel.
  induction fl as [|fl IH]; intros rw first w Ht Hrw Hfl; simpl;
    destruct (Z.ltb_spec rw target) as [Hlt|Hge]; try lia;
    try (eexists _, _, _; reflexivity).
  assert (Hn : (Z.to_nat (Z.min (DEFAULT_CHUNK_ROWS cfg) (target - rw)) <= fuel)%nat) by lia.
  assert (Hn0 : 0 <= Z.min (DEFAULT_CHUNK_ROWS cfg) (target - rw)) by lia.
  destruct (generate_chunk_total B fuel cfg g tape Hfair HB Hg Hp
              (Z.min (DEFAULT_CHUNK_ROWS cfg) (target - rw)) w Hn Ht)
    as (df & w1 & E1).
  rewrite (bind_done_intro _ _ _ _ _ E1).
  pose proof (generate_chunk_row_count_aux _ _ _ _ _ _ _ Hn0 E1) as Hlen.
  apply generate_chunk_done in E1 as (_ & _ & _ & _ & _ & _ & _ & _ & Hev & _).
  unfold bind at 1. unfold to_csv_file at 1.
  apply IH; [ | lia | lia].
  simpl. rewrite (ev_np_tape _ _ Hev). exact Ht.
Qed.

(** X11.  With a chunk size of at least one row the streaming loop ends:
    on a stream that offers an acceptable rank in every window of [B]
    draws, with probability tables that pass numpy's checks, it completes
    within [target_rows] rounds, the rejection loops being given [B]
    attempts and the session planner one round per row of a chunk. *)
Theorem stream_loop_terminates B fuel fl cfg g target w :
  fair B (Z.min (USER_POOL_SIZE cfg) (BOOK_POOL_SIZE cfg)) (np_tape w) ->
  (B <= fuel)%nat -> globals_ok cfg g -> valid_probs cfg ->
  1 <= DEFAULT_CHUNK_ROWS cfg ->
  (Z.to_nat (Z.min (DEFAULT_CHUNK_ROWS cfg) target) <= fuel)%nat ->
  (Z.to_nat target <= fl)%nat ->
  exists w', stream_loop fl fuel cfg g target 0 true w
             = Done (Z.max 0 target, negb (0 <? target)) w'.
Proof.
  intros Hfair HB Hg Hp Hchunk Hfuel Hfl.
  assert (H0 : 0 <= 0) by lia.
  assert (Hfl' : (Z.to_nat (target - 0) <= fl)%nat) by (rewrite Z.sub_0_r; exact Hfl).
  destruct (stream_loop_total B fuel cfg g (np_tape w) Hfair HB Hg Hp Hchunk target Hfuel
              fl 0 true w eq_refl H0 Hfl')
    as (r & f & w' & E).
  exists w'. rewrite E. f_equal. 
  destruct (stream_loop_writes (fun _ => True) _ _ _ _ _ _ _ _ _ (any_row fuel cfg g) E)
    as [Hidle Hrun].
  destruct (Z.ltb_spec 0 target) as [Hpos|Hneg].
  - destruct (Hrun Hpos) as (-> & -> & _). simpl. f_equal. lia.
  - destruct (Hidle Hneg) as (-> & -> & _). simpl. f_equal. lia.
Qed.

Lemma stream_loop_terminates_witness :
  exists w',
    stream_loop 10 7 tiny_config sample_globals 10 0 true steady_world
    = Done (10, false) w'.
Proof.
  apply (stream_loop_terminates 1 7 10 tiny_config sample_globals 10 steady_world).
  - intros p. exists 0%nat. split; [lia | simpl; lia].
  - lia.
  - constructor; simpl; lia.
  - unfold valid_probs. splits; reflexivity.
  - simpl. lia.
  - simpl. lia.
  - simpl. lia.
Defined.

(** The file is absent when the streaming loop is entered. *)
Lemma plan_clears_file fuel cfg g w avg w1 :
  (ex <- os_path_exists ;; (if ex : bool then os_remove else ret tt) ;;;
   estimate_avg_row_bytes fuel cfg g 2000) w = Done avg w1 ->
  out_file w1 = None /\
  estimate_avg_row_bytes fuel cfg g 2000 (with_file w None) = Done avg w1.
Proof.
  intros H. peel H as ex wa Ea. peel H as u wb Eb.
  unfold os_path_exists in Ea. injection Ea as <- <-.
  assert (Hb : wb = with_file w None /\ out_file wb = None).
  { destruct w as [a b c d e f k [s|]]; simpl in Eb.
    - unfold os_remove in Eb. simpl in Eb. injection Eb as _ <-. auto.
    - done_ret Eb. auto. }
  destruct Hb as [Hwb Hnone]. split; [ | rewrite <- Hwb; exact H].
  unfold estimate_avg_row_bytes in H. peel H as df wc Ec.
  apply generate_chunk_length_le in Ec as [_ Hf].
  unfold py_truediv in H. destruct (_ =? 0); [discriminate | ]. done_ret H.
  congruence.
Qed.

(** What a completed run leaves in the file, for any property [P] of the
    rows that [generate_chunk] returns. *)
Lemma main_file_rows (P : Event -> Prop) fuel cfg g w rows size w' :
  (forall n df w w', generate_chunk fuel cfg g n w = Done df w' -> Forall P df) ->
  main fuel cfg g w = Done (rows, size) w' ->
  exists all,
    out_file w' = Some (to_csv all true) /\
    Z.of_nat (List.length all) = rows /\
    size = Z.of_nat (String.length (to_csv all true)) /\
    0 < rows /\ Forall P all.
Proof.
  intros HP H. unfold main in H. peel H as st w1 E1. destruct st as [avg rows1].
  simpl in H. unfold plan_and_stream in E1.
  peel E1 as ex wa Ea. peel E1 as u wb Eb. peel E1 as avg' wc Ec.
  assert (Hnone : out_file wc = None).
  { eapply (plan_clears_file fuel cfg g w avg' wc).
    unfold bind at 1 2. rewrite Ea, Eb. exact Ec. }
  peel E1 as q wd Ed. peel E1 as target we Ee. peel E1 as st' wf Ef.
  destruct st' as [r f]. unfold ret in E1. cbn [fst] in E1. injection E1 as <- <- <-.
  apply float_truediv_done in Ed as [-> _]. apply py_int_float_done in Ee as ->.
  apply (stream_loop_writes P) in Ef; [ | exact HP].
  apply top_up_done in H
    as (f1 & extra & Hf1 & Hf' & Hsize & Hfull & Hshort).
  destruct (Z.le_gt_cases target 0) as [Hle|Hgt].
  { destruct (proj1 Ef Hle) as (_ & _ & ->). congruence. }
  destruct (proj2 Ef ltac:(lia)) as (-> & _ & acc & Hacc & Hlen & Hall). cbn [fst snd] in *.
  rewrite Hacc in Hf1. injection Hf1 as <-.
  assert (Hcases : (extra = "" /\ rows = target) \/
                   (exists df, extra = to_csv df false /\
                               rows = target + Z.of_nat (List.length df) /\ Forall P df)).
  { destruct (Z.le_gt_cases (TARGET_BYTES cfg) (Z.of_nat (String.length (to_csv acc true))))
      as [Hc|Hc].
    - destruct (Hfull Hc) as (-> & -> & _). left. auto.
    - destruct (Hshort ltac:(lia))
        as (e & _ & [(_ & -> & -> & _)|(He & df & w2 & Hgen & Hdf & -> & ->)]).
      + left. auto.
      + right. exists df. split; [reflexivity | ]. split; [lia | exact (HP _ _ _ _ Hgen)]. }
  destruct Hcases as [[-> ->]|(df & -> & -> & Hdf)].
  - exists acc. rewrite append_nil_r in Hf'.
    change (String.length "") with 0%nat in Hsize. splits; auto; lia.
  - exists (acc ++ df)%list. rewrite to_csv_app, length_app, length_append.
    splits; auto; try lia. apply Forall_app. auto.
Qed.

(** X12.  A run that completes reports what the file holds: the file is
    the header line followed by the CSV text of a list of rows, the
    reported row count is the length of that list, at least one, and the
    reported size is the length of the file. *)
Theorem report_matches_file fuel cfg g w rows size w' :
  main fuel cfg g w = Done (rows, size) w' ->
  exists all,
    out_file w' = Some (to_csv all true) /\
    Z.of_nat (List.length all) = rows /\
    size = Z.of_nat (String.length (to_csv all true)) /\
    0 < rows.
Proof.
  intros H. apply (main_file_rows (fun _ => True)) in H; [ | apply any_row].
  destruct H as (all & Hf & Hl & Hs & Hr & _). exists all. auto.
Qed.

Lemma sample_main_completes :
  is_done (main 2000 tiny_config sample_globals sample_world) = true.
Proof. vm_compute. reflexivity. Qed.

Lemma report_matches_file_witness :
  exists rows size w' all,
    main 2000 tiny_config sample_globals sample_world = Done (rows, size) w' /\
    out_file w' = Some (to_csv all true) /\
    Z.of_nat (List.length all) = rows /\
    size = Z.of_nat (String.length (to_csv all true)).
Proof.
  pose proof sample_main_completes as Hd.
  destruct (main 2000 tiny_config sample_globals sample_world)
    as [[rows size] w'| |] eqn:E; try discriminate Hd.
  destruct (report_matches_file _ _ _ _ _ _ _ E) as (all & Hf & Hl & Hs & _).
  exists rows, size, w', all.
  split; [reflexivity | ]. split; [exact Hf | ]. split; [exact Hl | exact Hs].
Defined.

(** ** A budget below the size of one row *)

Lemma stream_loop_idle fl fuel cfg g target w :
  target <= 0 -> stream_loop fl fuel cfg g target 0 true w = Done (0, true) w.
Proof.
  intros H. destruct fl; simpl; destruct (Z.ltb_spec 0 target); try lia; reflexivity.
Qed.

Lemma with_file_same w : with_file w (out_file w) = w.
Proof. destruct w; reflexivity. Qed.

(** X13.  When the byte budget is so small that the planned number of rows,
    [int(TARGET_BYTES / avg_row_bytes)], is zero or negative, the
    streaming loop never writes, no file exists when [os.path.getsize] is
    called, and the run ends with [FileNotFoundError], the estimation
    sample being all it generated. *)
Theorem budget_below_one_row fuel cfg g w avg w1 t :
  estimate_avg_row_bytes fuel cfg g 2000 (with_file w None) = Done avg w1 ->
  PrimFloat.eqb avg PrimFloat.zero = false ->
  py_int_float (PrimFloat.div (float_of_Z (TARGET_BYTES cfg)) avg) w1 = Done t w1 ->
  t <= 0 ->
  main fuel cfg g w = Raise FileNotFoundError w1 /\ out_file w1 = None.
Proof.
  intros Hest Havg Hint Ht.
  assert (Hnone : out_file w1 = None).
  { unfold estimate_avg_row_bytes in Hest. peel Hest as df wc Ec.
    apply generate_chunk_length_le in Ec as [_ Hf].
    unfold py_truediv in Hest. destruct (_ =? 0); [discriminate | ]. done_ret Hest.
    exact Hf. }
  split; [ | exact Hnone].
  assert (Hplan : plan_and_stream fuel cfg g (with_file w None) = Done (avg, 0) w1).
  { unfold plan_and_stream.
    rewrite (bind_done_intro os_path_exists _ (with_file w None) false (with_file w None)
               eq_refl).
    rewrite (bind_done_intro (ret tt) _ (with_file w None) tt (with_file w None) eq_refl).
    rewrite (bind_done_intro _ _ _ _ _ Hest).
    unfold float_truediv. rewrite Havg.
    rewrite (bind_done_intro (ret _) _ w1 _ w1 eq_refl).
    rewrite (bind_done_intro _ _ _ _ _ Hint).
    rewrite (bind_done_intro _ _ _ _ _ (stream_loop_idle fuel fuel cfg g t w1 Ht)).
    reflexivity. }
  rewrite <- (with_file_same w), main_clears_path.
  unfold main. rewrite (bind_done_intro _ _ _ _ _ Hplan).
  unfold top_up, bind, os_path_getsize. rewrite Hnone. reflexivity.
Qed.

Lemma budget_below_one_row_witness :
  exists w1,
    main 2000 small_budget_config sample_globals sample_world = Raise FileNotFoundError w1 /\
    out_file w1 = None.
Proof.
  eassert (Hest : estimate_avg_row_bytes 2000 small_budget_config sample_globals 2000
                    (with_file sample_world None) = Done _ _)
    by (vm_compute; reflexivity).
  eexists.
  apply (budget_below_one_row 2000 small_budget_config sample_globals sample_world _ _ 0 Hest).
  - reflexivity.
  - reflexivity.
  - lia.
Defined.

(** ** One row, one line *)

Lemma count_lf_app s1 s2 : count_lf (s1 ++ s2) = (count_lf s1 + count_lf s2)%nat.
Proof. induction s1 as [|c s1 IH]; simpl; [reflexivity | rewrite IH; lia]. Qed.

Lemma digits_no_lf s : digits_only s = true -> count_lf s = 0%nat.
Proof.
  induction s as [|c s IH]; simpl; [reflexivity | ]. intros H.
  apply andb_prop in H as [Hc Hs]. rewrite (IH Hs).
  unfold is_digit in Hc. apply andb_prop in Hc as [Hlo _]. apply N.leb_le in Hlo.
  destruct (N.eqb_spec (N_of_ascii c) 10); [lia | reflexivity].
Qed.

Lemma plain_no_lf s : needs_quote s = false -> count_lf s = 0%nat.
Proof.
  unfold needs_quote. induction s as [|c s IH]; simpl; [reflexivity | ]. intros H.
  apply orb_false_elim in H as [Hc Hs]. rewrite (IH Hs).
  apply orb_false_elim in Hc as [Hc _]. apply orb_false_elim in Hc as [_ Hc].
  rewrite Hc. reflexivity.
Qed.

Lemma py_str_int_no_lf z : count_lf (py_str_int z) = 0%nat.
Proof.
  assert (U : forall d, count_lf (NilZero.string_of_uint d) = 0%nat).
  { intros d. destruct d; try reflexivity;
      apply digits_no_lf; apply (string_of_uint_digits (_ _)). }
  unfold py_str_int. destruct (Z.to_int z) as [d|d]; simpl; [apply U | ].
  rewrite U. reflexivity.
Qed.

Lemma pad_no_lf width z : count_lf (pad width z) = 0%nat.
Proof.
  unfold pad. generalize (width - String.length (py_str_int z))%nat. intros k.
  induction k as [|k IH]; [apply py_str_int_no_lf | simpl; exact IH].
Qed.

Lemma strftime_iso_no_lf sec : count_lf (strftime_iso sec) = 0%nat.
Proof.
  unfold strftime_iso. cbv zeta.
  repeat (rewrite count_lf_app, pad_no_lf; cbn [count_lf append Nat.add];
          change (N_of_ascii "-" =? 10)%N with false;
          change (N_of_ascii "T" =? 10)%N with false;
          change (N_of_ascii ":" =? 10)%N with false).
  reflexivity.
Qed.

Lemma escape_char_no_lf c : count_lf (escape_char c) = 0%nat.
Proof.
  unfold escape_char. cbv zeta.
  repeat match goal with
         | |- context [if ?b then _ else _] => destruct b eqn:?; [reflexivity | ]
         end.
  destruct (N_of_ascii c <? 32)%N.
  - rewrite count_lf_app, (plain_no_lf _ (hex_fixed_plain 2 _)). reflexivity.
  - simpl. rewrite Heqb1. reflexivity.
Qed.

Lemma escape_no_lf s : count_lf (escape s) = 0%nat.
Proof.
  induction s as [|c s IH]; simpl; [reflexivity | ].
  rewrite count_lf_app, escape_char_no_lf, IH. reflexivity.
Qed.

Lemma encode_basestring_no_lf s : count_lf (encode_basestring s) = 0%nat.
Proof.
  unfold encode_basestring. simpl. rewrite count_lf_app, escape_no_lf. reflexivity.
Qed.

(** [json.dumps] escapes every line feed inside a string, and writes none
    between the values. *)
Lemma json_dumps_no_lf v : count_lf (json_dumps v) = 0%nat.
Proof.
  induction v as [z|s|l IH|kv IH] using json_ind'.
  - apply py_str_int_no_lf.
  - apply encode_basestring_no_lf.
  - destruct l as [|x t]; [reflexivity | ].
    rewrite <- (append_nil_r (json_dumps (JList (x :: t)))), dumps_list_cons.
    inversion IH as [|? ? Hx Ht]; subst.
    cbn [count_lf]. rewrite count_lf_app, Hx, count_lf_app.
    assert (Hmore : count_lf (more_items t) = 0%nat).
    { clear Hx IH. induction Ht as [|y t Hy _ IHt]; [reflexivity | ].
      simpl. rewrite count_lf_app, Hy, IHt. reflexivity. }
    rewrite Hmore. reflexivity.
  - destruct kv as [|[k x] t]; [reflexivity | ].
    rewrite <- (append_nil_r (json_dumps (JObj ((k, x) :: t)))), dumps_obj_cons.
    inversion IH as [|? ? Hx Ht]; subst. simpl in Hx.
    cbn [count_lf]. rewrite count_lf_app, escape_no_lf. cbn [count_lf].
    rewrite count_lf_app, Hx, count_lf_app.
    assert (Hmore : count_lf (more_members t) = 0%nat).
    { clear Hx IH. induction Ht as [|[k' y] t Hy _ IHt]; [reflexivity | ].
      rewrite <- (append_nil_r (more_members ((k', y) :: t))), more_members_cons.
      cbn [count_lf snd] in *. rewrite count_lf_app, escape_no_lf. cbn [count_lf].
      rewrite count_lf_app, Hy, count_lf_app, IHt. reflexivity. }
    rewrite Hmore. reflexivity.
Qed.

Lemma double_quotes_no_lf s : count_lf (double_quotes s) = count_lf s.
Proof.
  induction s as [|c s IH]; simpl; [reflexivity | ].
  destruct (N.eqb_spec (N_of_ascii c) 34) as [E|_]; simpl; rewrite IH; [ | reflexivity].
  rewrite E. reflexivity.
Qed.

(** Quoting a field adds no line. *)
Lemma csv_field_lf s : count_lf (csv_field s) = count_lf s.
Proof.
  unfold csv_field. destruct (needs_quote s); [ | reflexivity].
  simpl. rewrite count_lf_app, double_quotes_no_lf. simpl. lia.
Qed.

Lemma uuid_str_plain i : needs_quote (uuid_str i) = false.
Proof.
  unfold uuid_str, needs_quote. rewrite !str_exists_app.
  pose proof (hex_fixed_plain 32 i) as Hp. unfold needs_quote in Hp.
  rewrite !(str_exists_substring _ _ _ _ Hp). reflexivity.
Qed.

Lemma token_no_lf ur p : count_lf (token ur p) = 0%nat.
Proof. apply plain_no_lf, uuid_str_plain. Qed.

Lemma generate_chunk_single_line fuel cfg g n df w w' :
  generate_chunk fuel cfg g n w = Done df w' -> Forall single_line df.
Proof.
  intros H. pose proof (generate_chunk_rows_ok _ _ _ _ _ _ _ H) as Hok.
  apply generate_chunk_incl in H as (lens & blocks & Hbs & Hincl).
  apply chunk_blocks_tokens in Hbs. rewrite Forall_forall in *.
  intros r Hr. destruct (Hbs r (Hincl r Hr)) as [(q1 & He) (q2 & Hs)].
  destruct (Hok r Hr) as [_ _ Hty (kv & Hm & _)].
  unfold single_line, csv_row.
  rewrite !count_lf_app, !csv_field_lf, !py_str_int_no_lf, strftime_iso_no_lf.
  rewrite He, Hs, Hm, !token_no_lf, json_dumps_no_lf.
  apply EVENT_TYPES_cases in Hty as [-> | [-> | [-> | ->]]]; reflexivity.
Qed.

Lemma to_csv_lines df :
  Forall single_line df -> count_lf (to_csv df true) = S (List.length df).
Proof.
  intros H. unfold to_csv. rewrite count_lf_app.
  change (count_lf csv_header) with 1%nat. simpl. f_equal.
  induction H as [|r df Hr _ IH]; [reflexivity | ].
  cbn [map List.length]. rewrite concat_cons, count_lf_app, Hr, IH. reflexivity.
Qed.

(** X14.  In the file of a completed run every row occupies exactly one
    line: line feeds inside the metadata are escaped by [json.dumps], the
    other columns hold none, so the number of line feeds in the file is
    the reported row count plus one for the header. *)
Theorem one_row_per_line fuel cfg g w rows size w' :
  main fuel cfg g w = Done (rows, size) w' ->
  exists text,
    out_file w' = Some text /\
    Z.of_nat (count_lf text) = rows + 1.
Proof.
  intros H. apply (main_file_rows single_line) in H.
  - destruct H as (all & Hf & Hl & _ & _ & Hall).
    exists (to_csv all true). split; [exact Hf | ].
    rewrite (to_csv_lines _ Hall). lia.
  - intros n df wa wb. apply generate_chunk_single_line.
Qed.

Lemma one_row_per_line_witness :
  exists rows size w' text,
    main 2000 tiny_config sample_globals sample_world = Done (rows, size) w' /\
    out_file w' = Some text /\
    Z.of_nat (count_lf text) = rows + 1.
Proof.
  pose proof sample_main_completes as Hd.
  destruct (main 2000 tiny_config sample_globals sample_world)
    as [[rows size] w'| |] eqn:E; try discriminate Hd.
  destruct (one_row_per_line _ _ _ _ _ _ _ E) as (text & Hf & Hl).
  exists rows, size, w', text.
  split; [reflexivity | ]. split; [exact Hf | exact Hl].
Defined.
